(** * RAG index and query engine: shallow embedding and properties

    The development follows the Python sources:
    - [rag_engine.py]                   (word chunker, [RAGEngine])
    - [autoresearcher/pdf_loader.py]    (directory listing, page loader,
                                         character chunker)
    - [autoresearcher/vector_store.py]  ([VectorStore])
    - [autoresearcher/orchestrator.py]  ([AutoResearcher])
    - [autoresearcher/rag_engine.py]    (second [RAGEngine])
    - [autoresearcher/llm_client.py]    ([call_ollama], [call_llm])

    Python [str] values are lists of code points below 256, Python [int]
    values are [Z], dictionaries keyed by collection name are [gmap]s, and
    every operation that can raise or loop returns an [outcome]. *)

From Stdlib Require Import ZArith List Ascii String Lia Permutation Sorted.
From stdpp Require Import base option list sorting gmap strings pretty.

Local Open Scope Z_scope.

(** ** Text *)

Abbreviation text := (list ascii).

Definition txt (s : string) : text := list_ascii_of_string s.

(** [str.isspace] on one code point below 256. *)
Definition is_space (c : ascii) : bool :=
  let n := N_of_ascii c in
  ((9 <=? n) && (n <=? 13) || (28 <=? n) && (n <=? 32)
   || (n =? 133) || (n =? 160))%N.

Fixpoint lstrip (s : text) : text :=
  match s with
  | [] => []
  | c :: s' => if is_space c then lstrip s' else s
  end.

Definition rstrip (s : text) : text := rev (lstrip (rev s)).

(** [s.strip()] *)
Definition strip (s : text) : text := rstrip (lstrip s).

(** [s.split()]: maximal runs of non-space characters, [cur] being the run
    read so far. *)
Fixpoint split_from (cur : text) (s : text) : list text :=
  match s with
  | [] => match cur with [] => [] | _ => [cur] end
  | c :: s' =>
      if is_space c
      then match cur with
           | [] => split_from [] s'
           | _ => cur :: split_from [] s'
           end
      else split_from (cur ++ [c]) s'
  end.

Definition split (s : text) : list text := split_from [] s.

(** [sep.join(parts)] *)
Fixpoint join (sep : text) (parts : list text) : text :=
  match parts with
  | [] => []
  | [p] => p
  | p :: ps => p ++ sep ++ join sep ps
  end.

(** Truth value of a [str] or a [list]: non-empty. *)
Definition truthy {A} (s : list A) : bool :=
  match s with [] => false | _ => true end.

(** [a] occurs in [b] as a contiguous run. *)
Definition substring_of {A} (a b : list A) : Prop :=
  exists pre post, b = pre ++ a ++ post.

(** ** Slices

    [l[start:stop]] with Python's treatment of negative and out-of-range
    bounds. *)
Definition clamp_index (n i : Z) : Z :=
  if i <? 0 then Z.max (i + n) 0 else Z.min i n.

Definition py_slice {A} (l : list A) (start stop : Z) : list A :=
  let n := Z.of_nat (length l) in
  let s := clamp_index n start in
  let e := clamp_index n stop in
  take (Z.to_nat (e - s)) (drop (Z.to_nat s) l).

(** ** Exceptions and outcomes *)

Inductive exn_class :=
  | ValueError | AttributeError | NameError | IndexError | KeyError
  | AssertionError | OSError | Timeout | ConnectionError | HTTPError
  | JSONDecodeError | KeyboardInterrupt | SystemExit.

Record exn := Exn { exn_cls : exn_class; exn_msg : text }.

(** Subclasses of [Exception], the ones an [except Exception] clause
    catches. *)
Definition is_Exception (c : exn_class) : bool :=
  match c with
  | KeyboardInterrupt | SystemExit => false
  | _ => true
  end.

(** [str(e)] *)
Definition str_exn (e : exn) : text := exn_msg e.

Inductive outcome (A : Type) :=
  | Returned (a : A)
  | Raised (e : exn)
  | OutOfFuel.
Arguments Returned {A} a.
Arguments Raised {A} e.
Arguments OutOfFuel {A}.

#[global] Instance outcome_fmap : FMap outcome := fun A B f m =>
  match m with
  | Returned a => Returned (f a)
  | Raised e => Raised e
  | OutOfFuel => OutOfFuel
  end.

#[global] Instance outcome_bind : MBind outcome := fun A B k m =>
  match m with
  | Returned a => k a
  | Raised e => Raised e
  | OutOfFuel => OutOfFuel
  end.

#[global] Instance outcome_ret : MRet outcome := fun A a => Returned a.

Definition raise {A} (c : exn_class) (msg : text) : outcome A :=
  Raised (Exn c msg).

(** [try: body  except Exception as e: handler(e)] *)
Definition try_except {A} (body : outcome A) (handler : exn -> outcome A)
  : outcome A :=
  match body with
  | Raised e => if is_Exception (exn_cls e) then handler e else Raised e
  | r => r
  end.

(** ** While loops

    One pass through a loop body either goes round again with a new state
    or leaves the loop with a result; the loop test is part of the body. *)
Inductive ctl (S R : Type) :=
  | Continue (s : S)
  | Break (r : R).
Arguments Continue {S R} s.
Arguments Break {S R} r.

Fixpoint while {S R} (fuel : nat) (body : S -> ctl S R) (s : S) : outcome R :=
  match fuel with
  | O => OutOfFuel
  | Datatypes.S fuel' =>
      match body s with
      | Break r => Returned r
      | Continue s' => while fuel' body s'
      end
  end.

(** A window [seq[w_start:w_end]] taken by one pass of a chunking loop. *)
Record window := Window { w_start : Z; w_end : Z }.

(** * rag_engine.py *)

Module WordChunker.

(** Loop state of [simple_chunk]: [start], [chunks], and the windows of
    the chunks appended so far (ghost, not in the source). *)
Record st := St { start : Z; chunks : list text; windows : list window }.

Definition body (words : list text) (chunk_size overlap : Z) (s : st)
  : ctl st st :=
  let n := Z.of_nat (length words) in
  if start s <? n then
    let e := Z.min (start s + chunk_size) n in
    let chunk := join (txt " ") (py_slice words (start s) e) in
    let s1 :=
      if truthy (strip chunk)
      then St (start s) (chunks s ++ [chunk])
              (windows s ++ [Window (start s) e])
      else s in
    if e =? n then Break s1
    else Continue (St (Z.max (e - overlap) 0) (chunks s1) (windows s1))
  else Break s.

Definition run (fuel : nat) (text_ : text) (chunk_size overlap : Z)
  : outcome st :=
  while fuel (body (split text_) chunk_size overlap) (St 0 [] []).

(** [simple_chunk(text, chunk_size=800, overlap=200)] *)
Definition simple_chunk (fuel : nat) (text_ : text) (chunk_size overlap : Z)
  : outcome (list text) :=
  s ← run fuel text_ chunk_size overlap; mret (chunks s).

Definition simple_chunk_windows (fuel : nat) (text_ : text)
    (chunk_size overlap : Z) : outcome (list window) :=
  s ← run fuel text_ chunk_size overlap; mret (windows s).

End WordChunker.

(** * The operating system and the PDF reader

    What the sources take from [os], [os.path] and [pypdf]. The order of
    [os.listdir] is arbitrary. [pdf_reader path] is [PdfReader(path).pages],
    each page being the outcome of its [extract_text()] ([None] allowed). *)

Record os_env := OsEnv {
  abspath : text -> text;
  isdir : text -> bool;
  isfile : text -> bool;
  listdir : text -> outcome (list text);
  pdf_reader : text -> outcome (list (outcome (option text)))
}.

(** [str.lower] on one code point below 256. *)
Definition lower_char (c : ascii) : ascii :=
  let n := N_of_ascii c in
  if ((65 <=? n) && (n <=? 90)
      || (192 <=? n) && (n <=? 222) && negb (n =? 215))%N
  then ascii_of_N (n + 32) else c.

Definition lower (s : text) : text := map lower_char s.

Definition text_eqb (a b : text) : bool := bool_decide (a = b).

(** [s.endswith(suffix)] *)
Definition endswith (s suffix : text) : bool :=
  text_eqb (drop (length s - length suffix)%nat s) suffix
  && (length suffix <=? length s)%nat.

(** [posixpath.join(a, p)] *)
Definition path_join (a p : text) : text :=
  match p with
  | "/"%char :: _ => p
  | _ => if negb (truthy a) || endswith a (txt "/") then a ++ p
         else a ++ txt "/" ++ p
  end.

(** [posixpath.basename(p)]: what follows the last slash; [cur] is the
    component read so far. *)
Fixpoint basename_from (cur p : text) : text :=
  match p with
  | [] => cur
  | c :: p' => if Ascii.eqb c "/" then basename_from [] p'
               else basename_from (cur ++ [c]) p'
  end.

Definition basename (p : text) : text := basename_from [] p.

(** [str(i)] for an integer. *)
Definition str_int (i : Z) : text := txt (pretty i).

(** Order of [str] values: lexicographic on code points. *)
Fixpoint text_leb (a b : text) : bool :=
  match a, b with
  | [], _ => true
  | _ :: _, [] => false
  | x :: a', y :: b' =>
      if (N_of_ascii x <? N_of_ascii y)%N then true
      else if (N_of_ascii x =? N_of_ascii y)%N then text_leb a' b'
      else false
  end.

Fixpoint insert_sorted (x : text) (l : list text) : list text :=
  match l with
  | [] => [x]
  | y :: l' => if text_leb x y then x :: l else y :: insert_sorted x l'
  end.

(** [sorted(l)] on a list of [str]. *)
Definition sorted (l : list text) : list text :=
  foldr insert_sorted [] l.

(** [for x in xs: body], with a body that may raise. *)
Fixpoint for_each {A S} (xs : list A) (body : A -> S -> outcome S) (s : S)
  : outcome S :=
  match xs with
  | [] => mret s
  | x :: xs' => s' ← body x s; for_each xs' body s'
  end.

(** [enumerate(xs)] *)
Definition enumerate {A} (xs : list A) : list (Z * A) :=
  zip (map Z.of_nat (seq 0 (length xs))) xs.

(** * autoresearcher/pdf_loader.py *)

Module PdfLoader.

Record metadata := Metadata { source : text; page : Z; filename : text }.

(** Page dictionaries and chunk dictionaries have the same keys. *)
Record entry := Entry { id : text; text_ : text; meta : metadata }.

(** [list_pdfs(folder)] *)
Definition list_pdfs (os : os_env) (folder : text) : outcome (list text) :=
  let folder := abspath os folder in
  if negb (isdir os folder)
  then raise ValueError
         (txt "Folder does not exist or is not a directory: " ++ folder)
  else
    names ← listdir os folder;
    pdfs ← for_each names
      (fun name pdfs =>
         if endswith (lower name) (txt ".pdf")
         then let full := path_join folder name in
              if isfile os full then mret (pdfs ++ [full]) else mret pdfs
         else mret pdfs)
      [];
    mret (sorted pdfs).

(** [load_pdfs(folder)] *)
Definition load_pdfs (os : os_env) (folder : text) : outcome (list entry) :=
  pdf_paths ← list_pdfs os folder;
  if negb (truthy pdf_paths)
  then raise ValueError (txt "No PDFs found in folder: " ++ folder)
  else
    for_each pdf_paths
      (fun path pages =>
         reader_pages ← pdf_reader os path;
         for_each (enumerate reader_pages)
           (fun '(i, page) pages =>
              extracted ← page;
              let text := strip (default [] extracted) in
              if negb (truthy text) then mret pages
              else mret (pages ++
                [Entry (basename path ++ txt "_p" ++ str_int (i + 1))
                       text
                       (Metadata path (i + 1) (basename path))]))
           pages)
      [].

(** [load_pdfs_from_folder(folder)] *)
Definition load_pdfs_from_folder (os : os_env) (folder : text)
  : outcome (list entry) :=
  load_pdfs os folder.

(** Loop state of [simple_chunk]: [chunks] and [chunk_counter] live
    across pages, [start] is reset for every page; [windows] records the
    page number (in the input list) and the window of each appended chunk
    (ghost, not in the source). *)
Record st := St {
  start : Z;
  chunks : list entry;
  chunk_counter : Z;
  windows : list (nat * window)
}.

(** One pass of the [while start < n] loop on page [pg], the [k]-th of
    the input. *)
Definition body (k : nat) (pg : entry) (chunk_size overlap : Z) (s : st)
  : ctl st st :=
  let text := text_ pg in
  let n := Z.of_nat (length text) in
  if start s <? n then
    let e := Z.min (start s + chunk_size) n in
    let chunk_text := strip (py_slice text (start s) e) in
    if negb (truthy chunk_text) then Break s
    else
      let chunk_id := id pg ++ txt "_c" ++ str_int (chunk_counter s) in
      let chunks' := chunks s ++ [Entry chunk_id chunk_text (meta pg)] in
      let counter' := chunk_counter s + 1 in
      let windows' := windows s ++ [(k, Window (start s) e)] in
      if e =? n then Break (St (start s) chunks' counter' windows')
      else Continue (St (Z.max 0 (e - overlap)) chunks' counter' windows')
  else Break s.

(** The body of [for page in pages], on the [k]-th page. *)
Definition chunk_page (fuel : nat) (chunk_size overlap : Z)
    (k : nat) (pg : entry) (s : st) : outcome st :=
  while fuel (body k pg chunk_size overlap)
        (St 0 (chunks s) (chunk_counter s) (windows s)).

Definition run (fuel : nat) (pages : list entry) (chunk_size overlap : Z)
  : outcome st :=
  for_each (zip (seq 0 (length pages)) pages)
    (fun '(k, pg) s => chunk_page fuel chunk_size overlap k pg s)
    (St 0 [] 0 []).

(** [simple_chunk(pages, chunk_size=800, overlap=100)] *)
Definition simple_chunk (fuel : nat) (pages : list entry)
    (chunk_size overlap : Z) : outcome (list entry) :=
  s ← run fuel pages chunk_size overlap; mret (chunks s).

Definition simple_chunk_windows (fuel : nat) (pages : list entry)
    (chunk_size overlap : Z) : outcome (list (nat * window)) :=
  s ← run fuel pages chunk_size overlap; mret (windows s).

End PdfLoader.

(** * The similarity index (faiss) and the encoder

    [faiss.IndexFlatL2] is outside the repository. Its documented behaviour
    is modelled: exhaustive search by squared Euclidean distance, nearest
    first, one row of exactly [k] labels per query, with label [-1] (and the
    largest float32 as distance) in the positions for which no stored
    vector is left. Coordinates are integers here; only the order of the
    distances matters to the engine. The Python wrapper asserts [k > 0]
    before it searches, so that [k <= 0] is an [AssertionError]. *)

Module Faiss.

Definition vec := list Z.

Definition l2sq (a b : vec) : Z :=
  foldr Z.add 0 (zip_with (fun x y => (x - y) * (x - y)) a b).

Record IndexFlatL2 := Index { d : Z; xb : list vec }.

(** [faiss.IndexFlatL2(d)] *)
Definition new (dim : Z) : IndexFlatL2 := Index dim [].

(** [index.add(xs)] *)
Definition add (idx : IndexFlatL2) (xs : list vec) : IndexFlatL2 :=
  Index (d idx) (xb idx ++ xs).

Definition ntotal (idx : IndexFlatL2) : Z := Z.of_nat (length (xb idx)).

(** A hit is a (distance, label) pair. *)
Definition hit := (Z * Z)%type.

Fixpoint insert_hit (h : hit) (l : list hit) : list hit :=
  match l with
  | [] => [h]
  | h' :: l' => if h.1 <=? h'.1 then h :: l else h' :: insert_hit h l'
  end.

(** All stored vectors, nearest to [q] first. *)
Definition ranked (idx : IndexFlatL2) (q : vec) : list hit :=
  foldr insert_hit [] (map (fun '(i, x) => (l2sq q x, i)) (enumerate (xb idx))).

Definition FLT_MAX : Z := 340282346638528859811704183484516925440.

(** [D, I = index.search(q, k)] for a single query row: [(D[0], I[0])]. *)
Definition search (idx : IndexFlatL2) (q : vec) (k : Z)
  : outcome (list Z * list Z) :=
  if k <=? 0 then raise AssertionError []
  else
    let hits := take (Z.to_nat k) (ranked idx q) in
    let pad := (Z.to_nat k - length hits)%nat in
    mret (map fst hits ++ replicate pad FLT_MAX,
          map snd hits ++ replicate pad (-1)).

End Faiss.

(** What is handed to [SentenceTransformer.encode]: a [str], or a chunk
    dictionary of the page loader. *)
Inductive sentence :=
  | SStr (t : text)
  | SDict (e : PdfLoader.entry).

(** [embeddings.shape[1]] of the array built from a list of rows. *)
Definition shape1 (embeddings : list Faiss.vec) : outcome Z :=
  match embeddings with
  | [] => raise IndexError (txt "tuple index out of range")
  | v :: _ => mret (Z.of_nat (length v))
  end.

(** [l[i]] on a list, negative [i] counting from the end. *)
Definition py_index {A} (l : list A) (i : Z) : outcome A :=
  let n := Z.of_nat (length l) in
  let j := if i <? 0 then i + n else i in
  match (if (0 <=? j) && (j <? n) then l !! Z.to_nat j else None) with
  | Some x => mret x
  | None => raise IndexError (txt "list index out of range")
  end.

(** [[f(x) for x in xs]] with an [f] that may raise. *)
Fixpoint map_outcome {A B} (f : A -> outcome B) (xs : list A)
  : outcome (list B) :=
  match xs with
  | [] => mret []
  | x :: xs' => y ← f x; ys ← map_outcome f xs'; mret (y :: ys)
  end.

(** ** Operations on an object: state and outcome

    A method receives the object and gives it back, changed or not,
    together with what it returned or raised. *)
Definition action (S A : Type) : Type := S -> S * outcome A.

#[global] Instance action_bind {S} : MBind (action S) := fun A B k m s =>
  match m s with
  | (s', Returned a) => k a s'
  | (s', Raised e) => (s', Raised e)
  | (s', OutOfFuel) => (s', OutOfFuel)
  end.

#[global] Instance action_ret {S} : MRet (action S) :=
  fun A a s => (s, Returned a).

(** A computation that reads the object and does not change it. *)
Definition reading {S A} (f : S -> outcome A) : action S A :=
  fun s => (s, f s).

(** An assignment to the object. *)
Definition assign {S} (f : S -> S) : action S unit :=
  fun s => (f s, Returned tt).

Definition pure_step {S A} (o : outcome A) : action S A := fun s => (s, o).

(** [if not cond: raise ValueError(msg)] *)
Definition require {S} (cond : bool) (msg : text) : action S unit :=
  pure_step (if cond then mret tt else raise ValueError msg).

(** * autoresearcher/llm_client.py *)

Module LlmClient.

(** A decoded JSON body, as far as [call_ollama] looks into it: an object
    is its list of members in document order (the last one wins), and a
    member is a string or a value of one of the other types that
    [json.loads] produces. Of values that are not looked into, only the
    type is kept. *)
Inductive member :=
  | MStr (s : text)
  | MNone
  | MBool
  | MInt
  | MFloat
  | MList
  | MDict.

Inductive json :=
  | JObject (members : list (text * member))
  | JNone
  | JBool
  | JInt
  | JFloat
  | JStr
  | JList.

(** [type(value).__name__] *)
Definition member_type (value : member) : text :=
  match value with
  | MStr _ => txt "str"
  | MNone => txt "NoneType"
  | MBool => txt "bool"
  | MInt => txt "int"
  | MFloat => txt "float"
  | MList => txt "list"
  | MDict => txt "dict"
  end.

Definition json_type (body : json) : text :=
  match body with
  | JObject _ => txt "dict"
  | JNone => txt "NoneType"
  | JBool => txt "bool"
  | JInt => txt "int"
  | JFloat => txt "float"
  | JStr => txt "str"
  | JList => txt "list"
  end.

(** The message of the [AttributeError] for a missing attribute. *)
Definition no_attribute (type_name attr : text) : text :=
  txt "'" ++ type_name ++ txt "' object has no attribute '" ++ attr
  ++ txt "'".

(** The [requests.Response] methods used. *)
Record response := Response {
  raise_for_status : outcome unit;
  json_body : outcome json
}.

Record request := Request {
  url : text;
  req_model : text;
  req_prompt : text;
  req_stream : bool;
  req_timeout : Z
}.

Definition OLLAMA_MODEL_NAME : text := txt "llama3.1:latest".
Definition OLLAMA_URL : text := txt "http://localhost:11434/api/generate".

Fixpoint assoc_last (key : text) (members : list (text * member))
  : option member :=
  match members with
  | [] => None
  | (k, v) :: rest =>
      match assoc_last key rest with
      | Some v' => Some v'
      | None => if text_eqb k key then Some v else None
      end
  end.

(** [body.get(key, default)] *)
Definition dict_get (body : json) (key : text) (dflt : member)
  : outcome member :=
  match body with
  | JObject members => mret (default dflt (assoc_last key members))
  | _ => raise AttributeError (no_attribute (json_type body) (txt "get"))
  end.

(** [value.strip()] *)
Definition member_strip (value : member) : outcome text :=
  match value with
  | MStr s => mret (strip s)
  | _ => raise AttributeError (no_attribute (member_type value) (txt "strip"))
  end.

Section Backend.

(** [requests.post(url, json=..., timeout=...)] *)
Variable requests_post : request -> outcome response.

Definition ollama_request (prompt model : text) : request :=
  Request OLLAMA_URL model prompt false 600.

(** The body of the [try] block of [call_ollama]. *)
Definition ollama_try (prompt model : text) : outcome text :=
  r ← requests_post (ollama_request prompt model);
  _ ← raise_for_status r;
  body ← json_body r;
  value ← dict_get body (txt "response") (MStr []);
  member_strip value.

(** [call_ollama(prompt, model=OLLAMA_MODEL_NAME)] *)
Definition call_ollama (prompt model : text) : outcome text :=
  try_except (ollama_try prompt model)
    (fun e => mret (txt "[OLLAMA ERROR] " ++ str_exn e)).

(** [call_llm]: [args] are the positional arguments, [model_kw] the
    keyword argument [model] if given. *)
Definition call_llm (args : list text) (model_kw : option text)
  : outcome text :=
  let model := default OLLAMA_MODEL_NAME model_kw in
  match args with
  | [a] => call_ollama a model
  | a :: b :: _ => call_ollama (a ++ txt "

" ++ b) model
  | [] => raise ValueError
            (txt "call_llm expects 1 or 2 positional arguments.")
  end.

End Backend.

End LlmClient.

(** * autoresearcher/vector_store.py *)

Module VectorStore.

Record t := Store {
  index : option Faiss.IndexFlatL2;
  texts : list sentence
}.

(** [VectorStore()] *)
Definition init : t := Store None [].

Section Model.

(** [self.model.encode], one row per sentence. *)
Variable encode : sentence -> Faiss.vec.

(** [build(self, chunks)] *)
Definition build (chunks : list sentence) : action t unit :=
  let embeddings := map encode chunks in
  (dim ← pure_step (shape1 embeddings);
   _ ← assign (fun self =>
         Store (Some (Faiss.add (Faiss.new dim) embeddings)) (texts self));
   assign (fun self => Store (index self) chunks)).

(** [search(self, query, top_k=5)] *)
Definition search (query : text) (top_k : Z) : action t (list sentence) :=
  reading (fun self =>
    match index self with
    | None => raise ValueError (txt "Index not built.")
    | Some idx =>
        let q_vector := encode (SStr query) in
        '(distances, indices) ← Faiss.search idx q_vector top_k;
        map_outcome (py_index (texts self)) indices
    end).

End Model.

End VectorStore.

(** * rag_engine.py: [RAGEngine] *)

Module RagEngine.

(** The value stored under a collection name. *)
Record collection := Collection {
  chunks : list text;
  index : Faiss.IndexFlatL2;
  embeddings : list Faiss.vec
}.

Record t := Engine { indexes : gmap text collection }.

(** [RAGEngine()] *)
Definition init : t := Engine ∅.

Definition DEFAULT_CHUNK_SIZE : Z := 800.
Definition DEFAULT_OVERLAP : Z := 200.
Definition DEFAULT_TOP_K : Z := 5.

(** The prompt of [answer], around its two holes. *)
Definition prompt_head : text := txt
"You are a precise research assistant.

You will answer the user's question *only* using the context from the PDF chunks below.
If something is not supported by the context, say you don't know.

[QUESTION]
".

Definition prompt_mid : text := txt "

[CONTEXT]
".

Definition prompt_tail : text := txt "

Now provide a clear, detailed, well-structured answer grounded in this context.
".

Definition make_prompt (question context : text) : text :=
  prompt_head ++ question ++ prompt_mid ++ context ++ prompt_tail.

Definition SEPARATOR : text := txt "

---

".

Section Engine.

Variable os : os_env.
Variable encode : sentence -> Faiss.vec.
Variable requests_post : LlmClient.request -> outcome LlmClient.response.
(** Bound on the passes of each chunking loop. *)
Variable fuel : nat.

(** [load_pdf_text(path)] *)
Definition load_pdf_text (path : text) : outcome text :=
  reader_pages ← pdf_reader os path;
  pages ← map_outcome
    (fun page =>
       try_except (extracted ← page; mret (default [] extracted))
                  (fun _ => mret []))
    reader_pages;
  mret (join (txt "
") pages).

(** [list_pdfs(self, folder)] *)
Definition list_pdfs (folder : text) : outcome (list text) :=
  names ← listdir os folder;
  mret (map (path_join folder)
          (filter (fun f => endswith (lower f) (txt ".pdf") = true) names)).

(** [build_index(self, name, folder)] *)
Definition build_index (name folder : text) : action t Z :=
  _ ← require (isdir os folder) (txt "Folder does not exist: " ++ folder);
  pdfs ← pure_step (list_pdfs folder);
  _ ← require (truthy pdfs) (txt "No PDFs found in folder: " ++ folder);
  all_chunks ← pure_step
    (for_each pdfs
       (fun path all_chunks =>
          text ← load_pdf_text path;
          chunks ← WordChunker.simple_chunk fuel text
                     DEFAULT_CHUNK_SIZE DEFAULT_OVERLAP;
          mret (all_chunks ++ chunks))
       []);
  _ ← require (truthy all_chunks)
        (txt "No text chunks extracted from PDFs.");
  let embeddings := map (fun c => encode (SStr c)) all_chunks in
  dim ← pure_step (shape1 embeddings);
  let index := Faiss.add (Faiss.new dim) embeddings in
  _ ← assign (fun self =>
        Engine (<[name := Collection all_chunks index embeddings]>
                  (indexes self)));
  mret (Z.of_nat (length all_chunks)).

(** [has_index(self, name)] *)
Definition has_index (name : text) (self : t) : bool :=
  bool_decide (is_Some (indexes self !! name)).

(** [query(self, name, question, top_k=5)] *)
Definition query (name question : text) (top_k : Z)
  : action t (text * list text) :=
  reading (fun self =>
    match indexes self !! name with
    | None => raise ValueError
                (txt "Index '" ++ name ++ txt "' not found. Build it first.")
    | Some data =>
        let q_emb := encode (SStr question) in
        '(D0, I0) ← Faiss.search (index data) q_emb top_k;
        let selected :=
          omap (fun idx =>
                  if (0 <=? idx) && (idx <? Z.of_nat (length (chunks data)))
                  then chunks data !! Z.to_nat idx else None) I0 in
        mret (join SEPARATOR selected, selected)
    end).

(** [answer(self, name, question, top_k=5)] *)
Definition answer (name question : text) (top_k : Z) : action t text :=
  '(context, _) ← query name question top_k;
  pure_step (LlmClient.call_llm requests_post
               [make_prompt question context] None).

End Engine.

End RagEngine.

(** * autoresearcher/rag_engine.py: the second [RAGEngine] *)

(** [range(start, stop, step)] *)
Definition py_range (start stop step : Z) : outcome (list Z) :=
  if step =? 0 then raise ValueError (txt "range() arg 3 must not be zero")
  else
    let count :=
      if 0 <? step then (stop - start + step - 1) / step
      else (start - stop - step - 1) / (- step) in
    mret (map (fun j => start + Z.of_nat j * step) (seq 0 (Z.to_nat count))).

Module RagEngine2.

Definition DEFAULT_SIZE : Z := 500.

(** [chunk(self, texts, size=500)] *)
Definition chunk (texts : list text) (size : Z) : outcome (list text) :=
  for_each texts
    (fun text chunks =>
       let words := split text in
       starts ← py_range 0 (Z.of_nat (length words)) size;
       mret (chunks ++
             map (fun i => join (txt " ") (py_slice words i (i + size)))
                 starts))
    [].

End RagEngine2.

(** * autoresearcher/orchestrator.py: [AutoResearcher] *)

Module Orchestrator.

(** The instance attributes set by [__init__]. The class [LLMClient] is
    imported from [llm_client], which does not define it; its [generate]
    method is a parameter of [answer] below. *)
Record t := AutoResearcher {
  indexes : gmap text bool;
  vectorstores : gmap text VectorStore.t
}.

(** [AutoResearcher()] *)
Definition init : t := AutoResearcher ∅ ∅.

Definition DEFAULT_CHUNK_SIZE : Z := 800.
Definition DEFAULT_OVERLAP : Z := 100.
Definition DEFAULT_TOP_K : Z := 5.

(** What an attribute of the instance evaluates to. *)
Inductive attr :=
  | AIndexes (m : gmap text bool)
  | AVectorstores (m : gmap text VectorStore.t)
  | ALlm
  | AMethod (name : text).

(** [self.<name>]: the three attributes of [__init__] and the three
    methods of the class. *)
Definition getattr (self : t) (name : text) : outcome attr :=
  if text_eqb name (txt "indexes") then mret (AIndexes (indexes self))
  else if text_eqb name (txt "vectorstores")
  then mret (AVectorstores (vectorstores self))
  else if text_eqb name (txt "llm") then mret ALlm
  else if text_eqb name (txt "index_exists")
          || text_eqb name (txt "build_index")
          || text_eqb name (txt "answer")
  then mret (AMethod name)
  else raise AttributeError
         (txt "'AutoResearcher' object has no attribute '" ++ name ++ txt "'").

(** What a name of the module or a builtin evaluates to. *)
Inductive global_obj :=
  | GModule (name : text)
  | GFunction (name : text)
  | GClass (name : text).

(** The names bound at module level of [orchestrator.py], followed by
    the builtins. *)
Definition module_globals : list (text * global_obj) :=
  [(txt "os", GModule (txt "os"));
   (txt "load_pdfs_from_folder", GFunction (txt "load_pdfs_from_folder"));
   (txt "simple_chunk", GFunction (txt "simple_chunk"));
   (txt "VectorStore", GClass (txt "VectorStore"));
   (txt "LLMClient", GClass (txt "LLMClient"));
   (txt "AutoResearcher", GClass (txt "AutoResearcher"))].

Definition builtins : list (text * global_obj) :=
  [(txt "print", GFunction (txt "print"));
   (txt "isinstance", GFunction (txt "isinstance"));
   (txt "dict", GClass (txt "dict"));
   (txt "str", GClass (txt "str"));
   (txt "ValueError", GClass (txt "ValueError"))].

Fixpoint assoc_first {V} (key : text) (l : list (text * V)) : option V :=
  match l with
  | [] => None
  | (k, v) :: rest => if text_eqb k key then Some v else assoc_first key rest
  end.

(** A name that is not assigned in the function body is looked up in the
    module and then in the builtins. *)
Definition load_global (name : text) : outcome global_obj :=
  match assoc_first name (module_globals ++ builtins) with
  | Some v => mret v
  | None => raise NameError (txt "name '" ++ name ++ txt "' is not defined")
  end.

(** [chunk["text"] if isinstance(chunk, dict) else str(chunk)] *)
Definition chunk_text (chunk : sentence) : text :=
  match chunk with
  | SDict e => PdfLoader.text_ e
  | SStr s => s
  end.

Definition make_prompt (context query : text) : text :=
  txt "
You are a research assistant.

Use the context below to answer the question.

--- CONTEXT ---
" ++ context ++ txt "

--- QUESTION ---
" ++ query ++ txt "

--- ANSWER ---
".

Section Engine.

Variable os : os_env.
Variable encode : sentence -> Faiss.vec.
(** [self.llm.generate] *)
Variable llm_generate : text -> outcome text.
(** Bound on the passes of each chunking loop. *)
Variable fuel : nat.

(** [index_exists(self, name)] *)
Definition index_exists (name : text) (self : t) : bool :=
  bool_decide (is_Some (indexes self !! name)).

(** [build_index(self, name, folder)] *)
Definition build_index (name folder : text) : action t unit :=
  pages ← pure_step (PdfLoader.load_pdfs_from_folder os folder);
  _ ← require (truthy pages) (txt "No PDF pages extracted.");
  chunks ← pure_step
    (PdfLoader.simple_chunk fuel pages DEFAULT_CHUNK_SIZE DEFAULT_OVERLAP);
  _ ← require (truthy chunks) (txt "No text chunks created.");
  store ← pure_step
    (let '(store, built) :=
       VectorStore.build encode (map SDict chunks) VectorStore.init in
     _ ← built; mret store);
  _ ← assign (fun self =>
        AutoResearcher (<[name := true]> (indexes self))
                       (vectorstores self));
  assign (fun self =>
        AutoResearcher (indexes self)
                       (<[name := store]> (vectorstores self))).

(** [self.vector_store.search(question)], given what the two names
    evaluate to. *)
Definition call_search (receiver : attr) (question : global_obj)
  : outcome (list sentence) :=
  match receiver with
  | AIndexes _ | AVectorstores _ =>
      raise AttributeError (txt "'dict' object has no attribute 'search'")
  | ALlm =>
      raise AttributeError
        (txt "'LLMClient' object has no attribute 'search'")
  | AMethod _ =>
      raise AttributeError
        (txt "'function' object has no attribute 'search'")
  end.

(** [answer(self, query, index_name)] *)
Definition answer (query index_name : text) : action t text :=
  reading (fun self =>
    match vectorstores self !! index_name with
    | None => raise ValueError (txt "Index not found.")
    | Some store =>
        receiver ← getattr self (txt "vector_store");
        question ← load_global (txt "question");
        retrieved ← call_search receiver question;
        let clean := map chunk_text retrieved in
        let context := join (txt "

") clean in
        llm_generate (make_prompt context query)
    end).

End Engine.

End Orchestrator.

(** * Vocabulary of the statements *)

(** [a] is a prefix of [b]. *)
Fixpoint starts_with (a b : text) : bool :=
  match a, b with
  | [], _ => true
  | _ :: _, [] => false
  | x :: a', y :: b' => Ascii.eqb x y && starts_with a' b'
  end.

(** Decision procedure for [substring_of] on texts ([needle in haystack]). *)
Fixpoint is_substring (needle haystack : text) : bool :=
  starts_with needle haystack
  || match haystack with
     | [] => false
     | _ :: rest => is_substring needle rest
     end.

(** Position [p] lies in window [w]. *)
Definition covers (w : window) (p : Z) : Prop := w_start w <= p < w_end w.

(** The windows that a chunking loop with a valid configuration takes on a
    sequence of [n] units when it is at offset [start]: full windows
    [chunk_size - overlap] apart and a last one that ends at [n]. *)
Inductive chain (chunk_size overlap n : Z) : Z -> list window -> Prop :=
  | chain_last start :
      start < n -> n <= start + chunk_size ->
      chain chunk_size overlap n start [Window start n]
  | chain_step start ws :
      start + chunk_size < n ->
      chain chunk_size overlap n (start + chunk_size - overlap) ws ->
      chain chunk_size overlap n start
        (Window start (start + chunk_size) :: ws).

(** A text of whitespace only, and a word of [str.split]. *)
Definition blank (s : text) : Prop := Forall (fun c => is_space c = true) s.

Definition word (w : text) : Prop :=
  w <> [] /\ Forall (fun c => is_space c = false) w.

(** The chunk that the word chunker cuts from window [w] of a sequence of
    words, and the one the character chunker cuts from a page text. *)
Definition word_chunk (words : list text) (w : window) : text :=
  join (txt " ") (py_slice words (w_start w) (w_end w)).

Definition char_chunk (page_text : text) (w : window) : text :=
  strip (py_slice page_text (w_start w) (w_end w)).

(** No window that the character chunker reaches on a page of length [n]
    is whitespace only. The windows start at the multiples of
    [chunk_size - overlap]; the loop reaches the first one, and the one
    after a window that ends before the end of the page. *)
Definition no_blank_window (page_text : text) (chunk_size overlap : Z)
  : Prop :=
  let n := Z.of_nat (length page_text) in
  let stride := chunk_size - overlap in
  forall j, 0 <= j -> j * stride < n ->
    j = 0 \/ (j - 1) * stride + chunk_size < n ->
    ~ blank (py_slice page_text (j * stride)
               (Z.min (j * stride + chunk_size) n)).

(** A chunk of the character chunker: not empty, and cut out of [pg]. *)
Definition cut_from (pg c : PdfLoader.entry) : Prop :=
  PdfLoader.text_ c <> []
  /\ substring_of (PdfLoader.text_ c) (PdfLoader.text_ pg).

(** A chunk of a word chunker: not empty, and the words of a slice of
    [t.split()] joined by single spaces. *)
Definition joined_from (t c : text) : Prop :=
  c <> [] /\ exists a b, c = join (txt " ") (py_slice (split t) a b).

(** The order that [sorted] puts [str] values in. *)
Definition text_le (a b : text) : Prop := text_leb a b = true.

(** The path that [list_pdfs] of [pdf_loader.py] keeps for a directory
    entry, if any. *)
Definition pdf_path (os : os_env) (folder name : text) : option text :=
  if endswith (lower name) (txt ".pdf")
  then let full := path_join folder name in
       if isfile os full then Some full else None
  else None.

(** The ids of the chunks that [AutoResearcher.build_index] hands to its
    vector store, in order. *)
Definition built_chunk_ids (os : os_env) (fuel : nat) (folder : text)
  : outcome (list text) :=
  pages ← PdfLoader.load_pdfs_from_folder os folder;
  chunks ← PdfLoader.simple_chunk fuel pages
             Orchestrator.DEFAULT_CHUNK_SIZE Orchestrator.DEFAULT_OVERLAP;
  mret (map PdfLoader.id chunks).

(** Hit [a] is at most as far from the query as hit [b]. *)
Definition nearer (a b : Faiss.hit) : Prop := a.1 <= b.1.

(** The generation backend fails with [e] on request [req]: in the call, in
    the status check, or in decoding the body. *)
Definition backend_fails
    (requests_post : LlmClient.request -> outcome LlmClient.response)
    (req : LlmClient.request) (e : exn) : Prop :=
  requests_post req = Raised e
  \/ exists r, requests_post req = Returned r
       /\ (LlmClient.raise_for_status r = Raised e
           \/ (LlmClient.raise_for_status r = Returned tt
               /\ LlmClient.json_body r = Raised e)).

(** Two views of one file system that differ at most in the order in which
    [os.listdir] enumerates a directory. *)
Definition listing_equiv (a b : outcome (list text)) : Prop :=
  match a, b with
  | Returned l1, Returned l2 => Permutation l1 l2
  | Raised e1, Raised e2 => e1 = e2
  | OutOfFuel, OutOfFuel => True
  | _, _ => False
  end.

Record same_folder (os1 os2 : os_env) : Prop := SameFolder {
  sf_abspath : forall p, abspath os1 p = abspath os2 p;
  sf_isdir : forall p, isdir os1 p = isdir os2 p;
  sf_isfile : forall p, isfile os1 p = isfile os2 p;
  sf_reader : forall p, pdf_reader os1 p = pdf_reader os2 p;
  sf_listdir : forall p, listing_equiv (listdir os1 p) (listdir os2 p)
}.

(** A collection as [RAGEngine.build_index] stores it: one embedding per
    chunk, in order, and an index holding exactly these embeddings. *)
Definition built (encode : sentence -> Faiss.vec)
    (data : RagEngine.collection) : Prop :=
  RagEngine.embeddings data
    = map (fun c => encode (SStr c)) (RagEngine.chunks data)
  /\ Faiss.xb (RagEngine.index data) = RagEngine.embeddings data.

(** * autoresearcher/llm_client.py: [call_gemini] *)

Module Gemini.

(** [hasattr(o, name)], given the outcome of reading the attribute: only
    an [AttributeError] counts as absence, anything else is raised. *)
Definition hasattr {A} (read : outcome A) : outcome bool :=
  match read with
  | Returned _ => mret true
  | Raised e =>
      match exn_cls e with
      | AttributeError => mret false
      | _ => Raised e
      end
  | OutOfFuel => OutOfFuel
  end.

(** [getattr(o, name, default)] *)
Definition getattr_default {A} (read : outcome A) (dflt : A) : outcome A :=
  has ← hasattr read; if has : bool then read else mret dflt.

(** A candidate of a response, as far as [call_gemini] looks into it:
    [candidate.content.parts], each part being the outcome of reading its
    [text] attribute. *)
Record candidate := Candidate {
  content_parts : outcome (list (outcome text))
}.

(** The response of [generate_content]: the outcome of reading [resp.text]
    and [resp.candidates], and [str(resp)]. *)
Record response := Response {
  resp_text : outcome text;
  resp_candidates : outcome (list candidate);
  resp_str : text
}.

Definition GEMINI_MODEL_NAME : text := txt "gemini-2.5-flash".

(** [p.text for p in parts if hasattr(p, "text")] *)
Fixpoint part_texts (parts : list (outcome text)) : outcome (list text) :=
  match parts with
  | [] => mret []
  | p :: rest =>
      has ← hasattr p;
      if has : bool
      then t ← p; ts ← part_texts rest; mret (t :: ts)
      else part_texts rest
  end.

Section Backend.

(** [genai.GenerativeModel(name).generate_content(prompt)] *)
Variable generate_content : text -> text -> outcome response.

(** The body of the [try] block of [call_gemini]. *)
Definition gemini_try (args : list text) : outcome text :=
  full_prompt ←
    match args with
    | [a] => mret a
    | [a; b] =>
        let system_prompt := strip a in
        let user_prompt := strip b in
        mret (system_prompt ++ txt "

USER:
" ++ user_prompt)
    | _ => raise ValueError (txt "call_gemini expects 1 or 2 arguments")
    end;
  resp ← generate_content GEMINI_MODEL_NAME full_prompt;
  has_text ← hasattr (resp_text resp);
  use_text ← (if has_text : bool
              then t ← resp_text resp; mret (truthy t)
              else mret false);
  if use_text : bool then t ← resp_text resp; mret (strip t)
  else
    candidates ← getattr_default (resp_candidates resp) [];
    match candidates with
    | first :: _ =>
        parts ← content_parts first;
        texts ← part_texts parts;
        mret (strip (concat texts))
    | [] => mret (resp_str resp)
    end.

(** [call_gemini]: [args] are the positional arguments. *)
Definition call_gemini (args : list text) : outcome text :=
  try_except (gemini_try args)
    (fun e => mret (txt "[GEMINI ERROR] " ++ str_exn e)).

End Backend.

End Gemini.

(** * memory.py *)

Module Memory.

(** One log entry, [{"agent": ..., "content": ...}]. *)
Record entry := Log { agent : text; content : text }.

Record t := SimpleMemory { logs : list entry }.

(** [SimpleMemory()] *)
Definition init : t := SimpleMemory [].

(** [add(self, agent_name, content)] *)
Definition add (agent_name content : text) : action t unit :=
  assign (fun self => SimpleMemory (logs self ++ [Log agent_name content])).

(** The line of one entry in [dump_as_text]. *)
Definition line (x : entry) : text :=
  txt "[" ++ agent x ++ txt "] " ++ content x.

(** [dump_as_text(self)] *)
Definition dump_as_text (self : t) : text :=
  if negb (truthy (logs self)) then txt "(no prior memory)"
  else join (txt "
") (map line (logs self)).

End Memory.


(** * agents.py *)

Module Agents.

(** The attributes of a [BaseAgent] other than [memory]; the memory is an
    object that the agents share, and is the state of their methods. *)
Record t := BaseAgent { name : text; role : text; mode : text }.

Definition planner_style_hint (mode : text) : text :=
  if text_eqb mode (txt "engineering")
  then txt "Focus on system design, algorithms, technologies, constraints, and implementation details."
  else if text_eqb mode (txt "policy")
  then txt "Focus on regulations, governance models, societal impact, and deployment strategy."
  else if text_eqb mode (txt "research")
  then txt "Focus on academic style: literature review, hypothesis, methodology, experiments."
  else txt "Use a balanced, general planning style.".

Definition solver_style_hint (mode : text) : text :=
  if text_eqb mode (txt "engineering")
  then txt "Provide architecture, tools, algorithms and implementation steps."
  else if text_eqb mode (txt "policy")
  then txt "Provide governance, policy frameworks, rollout strategy, and risk analysis."
  else if text_eqb mode (txt "research")
  then txt "Provide a research-style output: method, evaluation, experiments, contributions."
  else txt "Provide a structured general solution.".

(** The two prompts of each [run], given [self.memory.dump_as_text()]. *)
Definition base_system_prompt (self : t) : text :=
  txt "You are " ++ name self ++ txt ", " ++ role self ++ txt ". "
  ++ txt "Provide structured, technical responses when appropriate.".

Definition base_full_prompt (task context dump : text) : text :=
  txt "Task:
" ++ task ++ txt "

" ++ txt "Context:
" ++ context ++ txt "

" ++ txt "Recent system memory:
" ++ dump.

Definition planner_system_prompt (self : t) : text :=
  txt "You are a planning agent. "
  ++ txt "MODE = " ++ mode self ++ txt ". "
  ++ planner_style_hint (mode self) ++ txt " "
  ++ txt "Break the user goal into numbered, clear, practical steps.".

Definition planner_full_prompt (task context dump : text) : text :=
  txt "User Goal:
" ++ task ++ txt "

" ++ txt "Additional Context:
" ++ context ++ txt "

" ++ txt "Memory:
" ++ dump.

Definition solver_system_prompt (self : t) : text :=
  txt "You are a solution-generation agent. "
  ++ txt "MODE = " ++ mode self ++ txt ". "
  ++ solver_style_hint (mode self) ++ txt " "
  ++ txt "Use the plan to generate a complete and structured answer.".

Definition solver_full_prompt (task context dump : text) : text :=
  txt "Task:
" ++ task ++ txt "

" ++ txt "Plan:
" ++ context ++ txt "

" ++ txt "Memory:
" ++ dump.

Definition improvement_system_prompt : text :=
  txt "You are an expert AI improvement agent.
" ++ txt "You receive: original solution + critique.

" ++ txt "Your instructions:
" ++ txt "1. Fix weaknesses mentioned
" ++ txt "2. Reduce unnecessary content
" ++ txt "3. Improve feasibility
" ++ txt "4. Increase clarity
" ++ txt "5. Improve technical depth
" ++ txt "6. Keep concise and professional

" ++ txt "Return an improved final solution.".

Definition improvement_full_prompt (task context dump : text) : text :=
  task ++ txt "

" ++ txt "Context:
" ++ context ++ txt "

" ++ txt "Memory:
" ++ dump.

Section Backend.

Variable requests_post : LlmClient.request -> outcome LlmClient.response.

(** The last three statements of every [run]:
    [result = call_llm(system_prompt, full_prompt)],
    [self.memory.add(self.name, result)], [return result]. *)
Definition call_and_log (self : t) (system_prompt full_prompt : text)
  : action Memory.t text :=
  result ← pure_step
    (LlmClient.call_llm requests_post [system_prompt; full_prompt] None);
  _ ← Memory.add (name self) result;
  mret result.

(** [BaseAgent.run(self, task, context="")] *)
Definition base_run (self : t) (task context : text) : action Memory.t text :=
  fun memory =>
    call_and_log self (base_system_prompt self)
      (base_full_prompt task context (Memory.dump_as_text memory)) memory.

(** [PlannerAgent.run(self, task, context="")] *)
Definition planner_run (self : t) (task context : text)
  : action Memory.t text :=
  fun memory =>
    call_and_log self (planner_system_prompt self)
      (planner_full_prompt task context (Memory.dump_as_text memory)) memory.

(** [SolverAgent.run(self, task, context="")] *)
Definition solver_run (self : t) (task context : text)
  : action Memory.t text :=
  fun memory =>
    call_and_log self (solver_system_prompt self)
      (solver_full_prompt task context (Memory.dump_as_text memory)) memory.

(** [ImprovementAgent.run(self, task, context="")] *)
Definition improvement_run (self : t) (task context : text)
  : action Memory.t text :=
  fun memory =>
    call_and_log self improvement_system_prompt
      (improvement_full_prompt task context (Memory.dump_as_text memory))
      memory.

End Backend.

End Agents.

(** * ui_app.py *)

Module UiApp.

(** [[0-9]] *)
Definition is_digit (c : ascii) : bool :=
  let n := N_of_ascii c in ((48 <=? n) && (n <=? 57))%N.

(** The longest prefix of [s] whose characters satisfy [p], and the rest:
    a greedy [p*]. *)
Fixpoint span (p : ascii -> bool) (s : text) : text * text :=
  match s with
  | c :: s' =>
      if p c then let '(run, rest) := span p s' in (c :: run, rest)
      else ([], s)
  | [] => ([], [])
  end.

(** The pattern [SCORE:\s*([0-9]+(?:\.[0-9]+)?)] matched at the start of
    [s]: the text of group 1. *)
Definition match_score_here (s : text) : option text :=
  if starts_with (txt "SCORE:") s then
    let after_spaces := (span is_space (drop 6 s)).2 in
    let '(int_part, rest) := span is_digit after_spaces in
    if truthy int_part then
      match rest with
      | "."%char :: rest' =>
          let frac_part := (span is_digit rest').1 in
          if truthy frac_part then Some (int_part ++ txt "." ++ frac_part)
          else Some int_part
      | _ => Some int_part
      end
    else None
  else None.

(** [re.search(pattern, text)]: the leftmost position where the pattern
    matches; the result is [match.group(1)]. *)
Fixpoint search_score (s : text) : option text :=
  match match_score_here s with
  | Some numeral => Some numeral
  | None =>
      match s with
      | [] => None
      | _ :: s' => search_score s'
      end
  end.

(** [str(b)] for a [bool]. *)
Definition str_bool (b : bool) : text :=
  if b then txt "True" else txt "False".

Definition evaluation_system_prompt : text :=
  txt "You are an expert evaluator for AI assistant responses.
" ++ txt "You will receive:
" ++ txt "- The mode (engineering / policy / research)
" ++ txt "- Whether document RAG was used (local LLaMA over PDFs)
" ++ txt "- The user's question
" ++ txt "- The assistant's final answer

" ++ txt "Your job:
" ++ txt "1) Briefly comment on correctness, depth, clarity, and alignment with the requested mode.
" ++ txt "2) If RAG was used, judge whether the answer seems grounded in a PDF summary.
" ++ txt "3) List clear strengths and weaknesses.
" ++ txt "4) At the very end, output a single line:
" ++ txt "   SCORE: x.y
" ++ txt "Where x.y is a score from 0.0 (very poor) to 10.0 (excellent).
" ++ txt "Do NOT omit the SCORE line.".

Definition evaluation_user_content
    (question final_answer : text) (used_rag : bool) (mode : text) : text :=
  txt "MODE: " ++ mode ++ txt "
" ++ txt "USED_RAG: " ++ str_bool used_rag ++ txt "

" ++ txt "QUESTION:
" ++ question ++ txt "

" ++ txt "FINAL ANSWER:
" ++ final_answer ++ txt "
".

Section Scores.

(** Python's [float]: the type, [float(numeral)] for the text of group 1,
    and the constant [-1.0]. *)
Variable float : Type.
Variable float_of_text : text -> float.
Variable minus_one : float.

(** [extract_score(text)] *)
Definition extract_score (text_ : text) : float :=
  match search_score text_ with
  | Some numeral => float_of_text numeral
  | None => minus_one
  end.

Variable generate_content : text -> text -> outcome Gemini.response.

(** [evaluate_answer(question, final_answer, used_rag, mode)] *)
Definition evaluate_answer
    (question final_answer : text) (used_rag : bool) (mode : text)
  : outcome (text * float) :=
  eval_text ← Gemini.call_gemini generate_content
    [evaluation_system_prompt;
     evaluation_user_content question final_answer used_rag mode];
  let score := extract_score eval_text in
  mret (eval_text, score).

End Scores.

End UiApp.


(** * autoresearcher/rag_engine.py: index building and retrieval *)

Module RagEngine2Index.

(** [self.stores]: collection name to [(index, chunks)]. *)
Record t := Engine { stores : gmap text (Faiss.IndexFlatL2 * list text) }.

(** [RAGEngine()] *)
Definition init : t := Engine ∅.

Definition DEFAULT_K : Z := 4.

Section Engine.

Variable os : os_env.
Variable encode : sentence -> Faiss.vec.

(** [list_pdfs(self, folder)] *)
Definition list_pdfs (folder : text) : outcome (list text) :=
  names ← listdir os folder;
  mret (map (path_join folder)
          (filter (fun f => endswith f (txt ".pdf") = true) names)).

(** [load_pdfs(self, folder)] *)
Definition load_pdfs (folder : text) : outcome (list text) :=
  pdfs ← list_pdfs folder;
  for_each pdfs
    (fun pdf texts =>
       reader_pages ← pdf_reader os pdf;
       for_each reader_pages
         (fun page texts =>
            extracted ← page;
            let text := default [] extracted in
            if truthy text then mret (texts ++ [text]) else mret texts)
         texts)
    [].

(** [embed(self, chunks)] *)
Definition embed (chunks : list text) : list Faiss.vec :=
  map (fun c => encode (SStr c)) chunks.

(** [build_index(self, name, folder)] *)
Definition build_index (name folder : text) : action t Z :=
  pages ← pure_step (load_pdfs folder);
  chunks ← pure_step (RagEngine2.chunk pages RagEngine2.DEFAULT_SIZE);
  let embeddings := embed chunks in
  dim ← pure_step (shape1 embeddings);
  let index := Faiss.add (Faiss.new dim) embeddings in
  _ ← assign (fun self => Engine (<[name := (index, chunks)]> (stores self)));
  mret (Z.of_nat (length chunks)).

(** [retrieve(self, name, query, k=4)]; [self.embed([query])] has the one
    row [vec], and the message of the [KeyError] is the name between
    quotes. *)
Definition retrieve (name query : text) (k : Z) : action t text :=
  reading (fun self =>
    match stores self !! name with
    | None => raise KeyError (txt "'" ++ name ++ txt "'")
    | Some (index, chunks) =>
        let vec := encode (SStr query) in
        '(_, idx) ← Faiss.search index vec k;
        picked ← map_outcome (py_index chunks) idx;
        mret (join (txt "
") picked)
    end).

End Engine.

End RagEngine2Index.


(** * Vocabulary of the further statements *)

(** The text that [load_pdf_text] takes for a page: what [extract_text()]
    returned, and the empty string if it returned [None] or raised. *)
Definition page_text_or_empty (p : outcome (option text)) : text :=
  match p with
  | Returned (Some t) => t
  | _ => []
  end.

(** A page whose [extract_text()] returns or raises an [Exception]. *)
Definition page_settles (p : outcome (option text)) : Prop :=
  match p with
  | Returned _ => True
  | Raised e => is_Exception (exn_cls e) = true
  | OutOfFuel => False
  end.

(** What [load_pdfs] makes of a page with text, given the list of PDF
    paths: the entry is page [i + 1] of one of the PDFs, that is the page
    at position [i] of its reader; its text is what [extract_text()]
    returned there, stripped, and is not empty; source, file name, page
    number and id are those of the file and of the position. *)
Definition loaded_page (os : os_env) (pdfs : list text)
    (pg : PdfLoader.entry) : Prop :=
  exists path reader_pages (i : nat) extracted,
    path ∈ pdfs
    /\ pdf_reader os path = Returned reader_pages
    /\ reader_pages !! i = Some (Returned (Some extracted))
    /\ PdfLoader.text_ pg = strip extracted
    /\ PdfLoader.text_ pg <> []
    /\ PdfLoader.meta pg
       = PdfLoader.Metadata path (Z.of_nat i + 1) (basename path)
    /\ PdfLoader.id pg
       = basename path ++ txt "_p" ++ str_int (Z.of_nat i + 1).

(** The digits that a text ends with. *)
Definition trailing_digits (s : text) : text :=
  rev (UiApp.span UiApp.is_digit (rev s)).1.

(** What the character chunker knows of its [i]-th chunk when it has cut
    it from page [pg]: the id numbered [i], the metadata of the page, a
    stripped text of at most [chunk_size] characters. *)
Definition numbered_chunk (chunk_size : Z) (pg : PdfLoader.entry) (i : nat)
    (c : PdfLoader.entry) : Prop :=
  PdfLoader.id c = PdfLoader.id pg ++ txt "_c" ++ str_int (Z.of_nat i)
  /\ PdfLoader.meta c = PdfLoader.meta pg
  /\ strip (PdfLoader.text_ c) = PdfLoader.text_ c
  /\ Z.of_nat (length (PdfLoader.text_ c)) <= chunk_size.

(** The [AutoResearcher] objects that calls of [build_index] and [answer]
    make of a new one. *)
Inductive researcher_state (encode : sentence -> Faiss.vec) (fuel : nat)
  : Orchestrator.t -> Prop :=
  | researcher_new : researcher_state encode fuel Orchestrator.init
  | researcher_build os name folder self self' r :
      researcher_state encode fuel self ->
      Orchestrator.build_index os encode fuel name folder self = (self', r) ->
      researcher_state encode fuel self'
  | researcher_answer llm_generate query name self self' r :
      researcher_state encode fuel self ->
      Orchestrator.answer llm_generate query name self = (self', r) ->
      researcher_state encode fuel self'.

(** The two dictionaries of an [AutoResearcher] name the same indexes, and
    every stored [VectorStore] has been built on at least one chunk. *)
Definition registries_agree (self : Orchestrator.t) : Prop :=
  forall name,
    (is_Some (Orchestrator.indexes self !! name)
     <-> is_Some (Orchestrator.vectorstores self !! name))
    /\ (forall store,
          Orchestrator.vectorstores self !! name = Some store ->
          is_Some (VectorStore.index store)
          /\ VectorStore.texts store <> []).

(** The four agent classes of [agents.py], and the [run] method that an
    instance of each class has. *)
Inductive agent_class :=
  | BaseAgentClass
  | PlannerAgentClass
  | SolverAgentClass
  | ImprovementAgentClass.

Definition agent_run
    (requests_post : LlmClient.request -> outcome LlmClient.response)
    (cls : agent_class)
  : Agents.t -> text -> text -> action Memory.t text :=
  match cls with
  | BaseAgentClass => Agents.base_run requests_post
  | PlannerAgentClass => Agents.planner_run requests_post
  | SolverAgentClass => Agents.solver_run requests_post
  | ImprovementAgentClass => Agents.improvement_run requests_post
  end.

(** No digit stands at the head of [s]. *)
Definition no_digit_ahead (s : text) : Prop :=
  forall c, head s = Some c -> UiApp.is_digit c = false.

(** [num] is what group 1 of the pattern of [extract_score] takes from
    the text [num ++ post], greedily: all the digits that stand there, at
    least one, and then a point with all the digits after it if a digit
    follows the point. So [num] is [digits.digits] with no digit after it,
    or [digits] with neither a digit nor a point and a digit after it. *)
Definition greedy_numeral (num post : text) : Prop :=
  exists int_part,
    int_part <> []
    /\ Forall (fun c => UiApp.is_digit c = true) int_part
    /\ ((num = int_part
         /\ no_digit_ahead post
         /\ forall rest, post = "."%char :: rest -> no_digit_ahead rest)
        \/ exists frac_part,
             frac_part <> []
             /\ Forall (fun c => UiApp.is_digit c = true) frac_part
             /\ num = int_part ++ txt "." ++ frac_part
             /\ no_digit_ahead post).

(** [s] begins with "SCORE:", optional whitespace and a digit. *)
Definition score_starts (s : text) : Prop :=
  exists ws d rest,
    s = txt "SCORE:" ++ ws ++ d :: rest
    /\ blank ws /\ UiApp.is_digit d = true.

(** * Concrete instances used in examples *)

(** An encoder with one coordinate: the length of the text. *)
Definition demo_encode (s : sentence) : Faiss.vec :=
  match s with
  | SStr t => [Z.of_nat (length t)]
  | SDict e => [Z.of_nat (length (PdfLoader.text_ e))]
  end.

(** The collection [RAGEngine.build_index] stores for a list of chunks. *)
Definition collection_of (encode : sentence -> Faiss.vec)
    (chunks : list text) : RagEngine.collection :=
  let embeddings := map (fun c => encode (SStr c)) chunks in
  RagEngine.Collection chunks
    (Faiss.add (Faiss.new (Z.of_nat (length (default [] (head embeddings)))))
       embeddings)
    embeddings.

Definition pets_chunks : list text :=
  [txt "Cats are mammals."; txt "Dogs are mammals too."].

(** An engine holding the two-chunk collection ["pets"]. *)
Definition pets_engine : RagEngine.t :=
  RagEngine.Engine {[ txt "pets" := collection_of demo_encode pets_chunks ]}.

(** An engine whose collection ["void"] holds no chunk. *)
Definition void_engine : RagEngine.t :=
  RagEngine.Engine
    {[ txt "void" := RagEngine.Collection [] (Faiss.new 1) [] ]}.

(** A backend whose HTTP call times out. *)
Definition timeout_backend (req : LlmClient.request)
  : outcome LlmClient.response :=
  raise Timeout (txt "Read timed out. (read timeout=600)").

(** The two ways in which a build finds nothing to index: no page
    ([AutoResearcher.build_index]), no chunk ([RAGEngine.build_index]). *)
Definition no_pages_error : exn :=
  Exn ValueError (txt "No PDF pages extracted.").
Definition no_chunks_error : exn :=
  Exn ValueError (txt "No text chunks extracted from PDFs.").

(** A folder [/docs] with one PDF whose only page is blank. *)
Definition blank_os : os_env :=
  OsEnv (fun p => p)
        (fun p => text_eqb p (txt "/docs"))
        (fun p => text_eqb p (txt "/docs/a.pdf"))
        (fun p => if text_eqb p (txt "/docs")
                  then Returned [txt "a.pdf"; txt "notes.txt"]
                  else raise OSError (txt "No such file or directory"))
        (fun p => if text_eqb p (txt "/docs/a.pdf")
                  then Returned [Returned (Some (txt "   "))]
                  else raise OSError (txt "No such file or directory")).

(** A folder [/docs] with one PDF that has no page. *)
Definition pageless_os : os_env :=
  OsEnv (fun p => p)
        (fun p => text_eqb p (txt "/docs"))
        (fun p => text_eqb p (txt "/docs/a.pdf"))
        (fun p => if text_eqb p (txt "/docs")
                  then Returned [txt "a.pdf"]
                  else raise OSError (txt "No such file or directory"))
        (fun p => if text_eqb p (txt "/docs/a.pdf")
                  then Returned []
                  else raise OSError (txt "No such file or directory")).

(** One-page inputs of the character chunker. *)
Definition page_of (s : string) : PdfLoader.entry :=
  PdfLoader.Entry (txt "a.pdf_p1") (txt s)
    (PdfLoader.Metadata (txt "/docs/a.pdf") 1 (txt "a.pdf")).

Definition demo_page : PdfLoader.entry := page_of "abcde".
Definition gap_page : PdfLoader.entry := page_of "a    b".
Definition tail_page : PdfLoader.entry := page_of "abcd ".

(** A folder [/docs] with two one-page PDFs, listed by [os.listdir] in the
    order [listing]. *)
Definition two_pdf_os (listing : list text) : os_env :=
  OsEnv (fun p => p)
        (fun p => text_eqb p (txt "/docs"))
        (fun p => text_eqb p (txt "/docs/a.pdf")
                  || text_eqb p (txt "/docs/b.pdf"))
        (fun p => if text_eqb p (txt "/docs") then Returned listing
                  else raise OSError (txt "No such file or directory"))
        (fun p => if text_eqb p (txt "/docs/a.pdf")
                  then Returned [Returned (Some (txt "Cats are mammals."))]
                  else if text_eqb p (txt "/docs/b.pdf")
                  then Returned [Returned (Some (txt "Dogs are mammals too."))]
                  else raise OSError (txt "No such file or directory")).

(** The engine after [build_index("docs", "/docs")] on that folder. *)
Definition docs_engine : RagEngine.t :=
  (RagEngine.build_index (two_pdf_os [txt "b.pdf"; txt "a.pdf"]) demo_encode
     30 (txt "docs") (txt "/docs") RagEngine.init).1.

(** * Properties *)

(** ** AutoResearcher.answer *)

(** C10. Every call to [AutoResearcher.answer] raises, whatever the
    arguments and the registry: [ValueError] when the index name is not
    registered, and otherwise [AttributeError] from reading the attribute
    [vector_store], which the instance does not have; the name [question],
    which is not bound either, is never reached. *)
Theorem answer_always_raises
    (llm_generate : text -> outcome text) (query index_name : text)
    (self : Orchestrator.t) :
  exists e,
    Orchestrator.answer llm_generate query index_name self = (self, Raised e)
    /\ exn_cls e =
         (if bool_decide (is_Some (Orchestrator.vectorstores self !! index_name))
          then AttributeError else ValueError)
    /\ Orchestrator.getattr self (txt "vector_store")
         = raise AttributeError
             (txt "'AutoResearcher' object has no attribute 'vector_store'")
    /\ Orchestrator.load_global (txt "question")
         = raise NameError (txt "name 'question' is not defined").
Proof.
  unfold Orchestrator.answer, reading.
  destruct (Orchestrator.vectorstores self !! index_name) as [store|] eqn:Hs.
  - eexists. split; [reflexivity|].
    rewrite bool_decide_eq_true_2 by eauto. auto.
  - eexists. split; [reflexivity|].
    rewrite bool_decide_eq_false_2 by (intros [? ?]; discriminate). auto.
Qed.

(** ** RAGEngine.answer and the generation backend *)

Lemma try_except_caught {A} (body : outcome A) handler e :
  body = Raised e -> is_Exception (exn_cls e) = true ->
  try_except body handler = handler e.
Proof. intros -> He. simpl. by rewrite He. Qed.

Lemma ollama_try_fails requests_post prompt model e :
  backend_fails requests_post (LlmClient.ollama_request prompt model) e ->
  LlmClient.ollama_try requests_post prompt model = Raised e.
Proof.
  unfold LlmClient.ollama_try.
  intros [H | (r & Hr & [H | [Hs H]])].
  - by rewrite H.
  - rewrite Hr. simpl. by rewrite H.
  - rewrite Hr. simpl. rewrite Hs. simpl. by rewrite H.
Qed.

(** [call_ollama] lets no [Exception] through. *)
Lemma call_ollama_no_exception requests_post prompt model e :
  LlmClient.call_ollama requests_post prompt model = Raised e ->
  is_Exception (exn_cls e) = false.
Proof.
  unfold LlmClient.call_ollama, try_except.
  destruct (LlmClient.ollama_try requests_post prompt model) as [a|e'|];
    try discriminate.
  destruct (is_Exception (exn_cls e')) eqn:He'; [discriminate|].
  by intros [= <-].
Qed.

(** [answer] is [query] followed by one call of the backend. *)
Lemma answer_unfold encode requests_post name question top_k self :
  RagEngine.answer encode requests_post name question top_k self =
  match (RagEngine.query encode name question top_k self).2 with
  | Returned (context, _) =>
      (self, LlmClient.call_ollama requests_post
               (RagEngine.make_prompt question context)
               LlmClient.OLLAMA_MODEL_NAME)
  | Raised e => (self, Raised e)
  | OutOfFuel => (self, OutOfFuel)
  end.
Proof.
  unfold RagEngine.answer, RagEngine.query, reading, mbind, action_bind.
  simpl.
  destruct (RagEngine.indexes self !! name) as [data|]; [|reflexivity].
  destruct (Faiss.search _ _ _) as [[D0 I0]| |]; reflexivity.
Qed.

(** An [Exception] raised by [answer] is always the one raised by
    [query]. *)
Lemma answer_exception_from_query
    encode requests_post name question top_k self e :
  (RagEngine.answer encode requests_post name question top_k self).2
    = Raised e ->
  is_Exception (exn_cls e) = true ->
  (RagEngine.query encode name question top_k self).2 = Raised e.
Proof.
  rewrite answer_unfold.
  destruct (RagEngine.query encode name question top_k self).2
    as [[context sel]|e'|] eqn:Hq; simpl.
  - intros Hr He. apply call_ollama_no_exception in Hr. congruence.
  - by intros [= ->] _.
  - discriminate.
Qed.

(** C8. When retrieval has succeeded and the generation backend fails with
    an exception [e] (in the HTTP call, in the status check or in decoding
    the body), [RAGEngine.answer] returns the text
    ["[OLLAMA ERROR] " + str(e)] and leaves the engine as it was; and
    whatever the backend does, an [Exception] that [answer] raises is the
    one that retrieval raised, never one of the backend. *)
Theorem answer_degrades_on_backend_failure
    (encode : sentence -> Faiss.vec)
    (requests_post : LlmClient.request -> outcome LlmClient.response)
    (name question : text) (top_k : Z) (self : RagEngine.t) :
  (forall context selected e,
     (RagEngine.query encode name question top_k self).2
       = Returned (context, selected) ->
     backend_fails requests_post
       (LlmClient.ollama_request (RagEngine.make_prompt question context)
          LlmClient.OLLAMA_MODEL_NAME) e ->
     is_Exception (exn_cls e) = true ->
     RagEngine.answer encode requests_post name question top_k self
       = (self, Returned (txt "[OLLAMA ERROR] " ++ str_exn e)))
  /\ (forall e',
        (RagEngine.answer encode requests_post name question top_k self).2
          = Raised e' ->
        is_Exception (exn_cls e') = true ->
        (RagEngine.query encode name question top_k self).2 = Raised e').
Proof.
  split.
  - intros context selected e Hq Hfail He. rewrite answer_unfold, Hq.
    unfold LlmClient.call_ollama.
    erewrite try_except_caught; eauto using ollama_try_fails.
  - intros e'. apply answer_exception_from_query.
Qed.

Lemma answer_degrades_on_backend_failure_witness :
  RagEngine.answer demo_encode timeout_backend
      (txt "pets") (txt "What are cats?") 1 pets_engine
  = (pets_engine,
     Returned (txt "[OLLAMA ERROR] Read timed out. (read timeout=600)")).
Proof.
  eapply (proj1 (answer_degrades_on_backend_failure demo_encode
            timeout_backend (txt "pets") (txt "What are cats?") 1
            pets_engine)) with (e := Exn Timeout _).
  - vm_compute. reflexivity.
  - left. reflexivity.
  - reflexivity.
Defined.

(** ** Prefixes, substrings and the shape of [query] *)

Lemma starts_with_spec a b :
  starts_with a b = true <-> exists post, b = a ++ post.
Proof.
  revert b. induction a as [|x a IH]; intros b; simpl.
  - split; eauto.
  - destruct b as [|y b].
    + split; [discriminate | intros [post H]; discriminate].
    + rewrite andb_true_iff, IH. split.
      * intros [Hxy [post ->]]. apply Ascii.eqb_eq in Hxy as ->. eauto.
      * intros [post [= -> ->]]. split; [apply Ascii.eqb_refl | eauto].
Qed.

Lemma is_substring_spec needle haystack :
  is_substring needle haystack = true <-> substring_of needle haystack.
Proof.
  unfold substring_of. induction haystack as [|c rest IH]; simpl.
  - rewrite orb_false_r, starts_with_spec. split.
    + intros [post H]. exists [], post. done.
    + intros (pre & post & H). destruct pre; simpl in H.
      * eauto.
      * discriminate.
  - rewrite orb_true_iff, starts_with_spec, IH. split.
    + intros [[post H] | (pre & post & H)].
      * exists [], post. done.
      * exists (c :: pre), post. simpl. by rewrite H.
    + intros (pre & post & H). destruct pre as [|c' pre]; simpl in H.
      * left. eauto.
      * right. injection H as -> ->. eauto.
Qed.

Lemma query_unfold encode name question top_k self :
  RagEngine.query encode name question top_k self =
  (self,
   match RagEngine.indexes self !! name with
   | None => raise ValueError
               (txt "Index '" ++ name ++ txt "' not found. Build it first.")
   | Some data =>
       '(D0, I0) ← Faiss.search (RagEngine.index data)
                     (encode (SStr question)) top_k;
       let selected :=
         omap (fun idx =>
                 if (0 <=? idx)
                    && (idx <? Z.of_nat (length (RagEngine.chunks data)))
                 then RagEngine.chunks data !! Z.to_nat idx else None) I0 in
       mret (join RagEngine.SEPARATOR selected, selected)
   end).
Proof. reflexivity. Qed.

(** The context that [query] returns is the join of the chunks it
    returns. *)
Lemma query_context encode name question top_k self context selected :
  (RagEngine.query encode name question top_k self).2
    = Returned (context, selected) ->
  context = join RagEngine.SEPARATOR selected.
Proof.
  rewrite query_unfold. simpl.
  destruct (RagEngine.indexes self !! name) as [data|]; [|discriminate].
  destruct (Faiss.search _ _ _) as [[D0 I0]| |]; simpl; try discriminate.
  by intros [= <- <-].
Qed.

(** ** build_index and the registry *)

Lemma bind_pure_step {S A B} (o : outcome A) (k : A -> action S B) s :
  (pure_step o ≫= k) s =
  match o with
  | Returned a => k a s
  | Raised e => (s, Raised e)
  | OutOfFuel => (s, OutOfFuel)
  end.
Proof. unfold mbind, action_bind, pure_step. by destruct o. Qed.

Lemma bind_require {S B} cond msg (k : unit -> action S B) s :
  (require cond msg ≫= k) s =
  if cond then k tt s else (s, raise ValueError msg).
Proof. unfold require. rewrite bind_pure_step. by destruct cond. Qed.

Lemma bind_assign {S B} (f : S -> S) (k : unit -> action S B) s :
  (assign f ≫= k) s = k tt (f s).
Proof. reflexivity. Qed.

(** [AutoResearcher.build_index] in one piece: everything before the two
    assignments only reads. *)
Lemma orchestrator_build_unfold os encode fuel name folder self :
  Orchestrator.build_index os encode fuel name folder self =
  match PdfLoader.load_pdfs_from_folder os folder with
  | Returned pages =>
      if truthy pages then
        match PdfLoader.simple_chunk fuel pages
                Orchestrator.DEFAULT_CHUNK_SIZE Orchestrator.DEFAULT_OVERLAP
        with
        | Returned chunks =>
            if truthy chunks then
              match VectorStore.build encode (map SDict chunks)
                      VectorStore.init with
              | (store, Returned _) =>
                  (Orchestrator.AutoResearcher
                     (<[name := true]> (Orchestrator.indexes self))
                     (<[name := store]> (Orchestrator.vectorstores self)),
                   Returned tt)
              | (_, Raised e) => (self, Raised e)
              | (_, OutOfFuel) => (self, OutOfFuel)
              end
            else (self, raise ValueError (txt "No text chunks created."))
        | Raised e => (self, Raised e)
        | OutOfFuel => (self, OutOfFuel)
        end
      else (self, raise ValueError (txt "No PDF pages extracted."))
  | Raised e => (self, Raised e)
  | OutOfFuel => (self, OutOfFuel)
  end.
Proof.
  unfold Orchestrator.build_index. rewrite bind_pure_step.
  destruct (PdfLoader.load_pdfs_from_folder os folder) as [pages| |];
    [|reflexivity..].
  rewrite bind_require. destruct (truthy pages); [|reflexivity].
  rewrite bind_pure_step.
  destruct (PdfLoader.simple_chunk _ _ _ _) as [chunks| |]; [|reflexivity..].
  rewrite bind_require. destruct (truthy chunks); [|reflexivity].
  rewrite bind_pure_step.
  destruct (VectorStore.build encode (map SDict chunks) VectorStore.init)
    as [store [[]| |]]; reflexivity.
Qed.

(** [RAGEngine.build_index] in one piece. *)
Lemma rag_build_unfold os encode fuel name folder self :
  RagEngine.build_index os encode fuel name folder self =
  if isdir os folder then
    match RagEngine.list_pdfs os folder with
    | Returned pdfs =>
        if truthy pdfs then
          match for_each pdfs
                  (fun path all_chunks =>
                     text ← RagEngine.load_pdf_text os path;
                     chunks ← WordChunker.simple_chunk fuel text
                                RagEngine.DEFAULT_CHUNK_SIZE
                                RagEngine.DEFAULT_OVERLAP;
                     mret (all_chunks ++ chunks)) [] with
          | Returned all_chunks =>
              if truthy all_chunks then
                let embeddings := map (fun c => encode (SStr c)) all_chunks in
                match shape1 embeddings with
                | Returned dim =>
                    (RagEngine.Engine
                       (<[name := RagEngine.Collection all_chunks
                                    (Faiss.add (Faiss.new dim) embeddings)
                                    embeddings]> (RagEngine.indexes self)),
                     Returned (Z.of_nat (length all_chunks)))
                | Raised e => (self, Raised e)
                | OutOfFuel => (self, OutOfFuel)
                end
              else (self, raise ValueError
                            (txt "No text chunks extracted from PDFs."))
          | Raised e => (self, Raised e)
          | OutOfFuel => (self, OutOfFuel)
          end
        else (self, raise ValueError
                      (txt "No PDFs found in folder: " ++ folder))
    | Raised e => (self, Raised e)
    | OutOfFuel => (self, OutOfFuel)
    end
  else (self, raise ValueError (txt "Folder does not exist: " ++ folder)).
Proof.
  unfold RagEngine.build_index. rewrite bind_require.
  destruct (isdir os folder); [|reflexivity].
  rewrite bind_pure_step.
  destruct (RagEngine.list_pdfs os folder) as [pdfs| |]; [|reflexivity..].
  rewrite bind_require. destruct (truthy pdfs); [|reflexivity].
  rewrite bind_pure_step.
  destruct (for_each pdfs _ []) as [all_chunks| |]; [|reflexivity..].
  rewrite bind_require. destruct (truthy all_chunks); [|reflexivity].
  cbv zeta. rewrite bind_pure_step.
  destruct (shape1 _) as [dim| |]; reflexivity.
Qed.

(** C5, as the code has it. A failing [build_index] leaves the registry
    exactly as it was, in [AutoResearcher] and in [RAGEngine]: whenever the
    call raises, the object it gives back is the one it received. There
    are no error classes of their own for a build that finds nothing to
    index: [AutoResearcher.build_index] raises [ValueError] "No PDF pages
    extracted." when its loader returns no page, and
    [RAGEngine.build_index] raises [ValueError] "No text chunks extracted
    from PDFs." when its PDFs give no chunk. *)
Theorem build_index_failure_keeps_registry
    (os : os_env) (encode : sentence -> Faiss.vec) (fuel : nat)
    (name folder : text) :
  (forall self self' e,
     Orchestrator.build_index os encode fuel name folder self
       = (self', Raised e) -> self' = self)
  /\ (forall self self' e,
     RagEngine.build_index os encode fuel name folder self
       = (self', Raised e) -> self' = self)
  /\ (forall self,
     PdfLoader.load_pdfs_from_folder os folder = Returned [] ->
     Orchestrator.build_index os encode fuel name folder self
       = (self, Raised no_pages_error))
  /\ (forall self pdfs,
     isdir os folder = true ->
     RagEngine.list_pdfs os folder = Returned pdfs ->
     pdfs <> [] ->
     for_each pdfs
       (fun path all_chunks =>
          text ← RagEngine.load_pdf_text os path;
          chunks ← WordChunker.simple_chunk fuel text
                     RagEngine.DEFAULT_CHUNK_SIZE RagEngine.DEFAULT_OVERLAP;
          mret (all_chunks ++ chunks)) [] = Returned [] ->
     RagEngine.build_index os encode fuel name folder self
       = (self, Raised no_chunks_error))
  /\ exn_cls no_pages_error = ValueError
  /\ exn_cls no_chunks_error = ValueError.
Proof.
  split; [|split; [|split; [|split; [|split]]]].
  - intros self self' e. rewrite orchestrator_build_unfold.
    repeat (case_match; try discriminate); by intros [= <- _].
  - intros self self' e. rewrite rag_build_unfold. cbv zeta.
    repeat (case_match; try discriminate); by intros [= <- _].
  - intros self H. by rewrite orchestrator_build_unfold, H.
  - intros self pdfs Hd H Hne Hc. rewrite rag_build_unfold, Hd, H.
    destruct pdfs; [done|]. cbn [truthy]. by rewrite Hc.
  - reflexivity.
  - reflexivity.
Qed.

Lemma build_index_failure_keeps_registry_witness :
  Orchestrator.build_index blank_os demo_encode 5 (txt "pets") (txt "/docs")
      Orchestrator.init
    = (Orchestrator.init, Raised no_pages_error)
  /\ RagEngine.build_index blank_os demo_encode 5 (txt "pets") (txt "/docs")
      pets_engine
    = (pets_engine, Raised no_chunks_error).
Proof.
  pose proof (build_index_failure_keeps_registry blank_os demo_encode 5
                (txt "pets") (txt "/docs")) as (_ & _ & Hpages & Hchunks & _).
  split.
  - apply Hpages. vm_compute. reflexivity.
  - apply (Hchunks pets_engine [txt "/docs/a.pdf"]).
    + reflexivity.
    + vm_compute. reflexivity.
    + discriminate.
    + vm_compute. reflexivity.
Defined.

(** C5, as stated, fails in its two errors. A PDF without pages and a PDF
    whose only page is blank make each [build_index] fail with one and the
    same exception, so that the caller cannot tell "no pages" from "no
    chunks": [AutoResearcher] says "No PDF pages extracted." both times
    (its loader drops blank pages), [RAGEngine] says "No text chunks
    extracted from PDFs." both times. Both are plain [ValueError]s. *)
Lemma empty_builds_raise_one_error :
  Orchestrator.build_index pageless_os demo_encode 5 (txt "pets")
      (txt "/docs") Orchestrator.init
    = (Orchestrator.init, Raised no_pages_error)
  /\ Orchestrator.build_index blank_os demo_encode 5 (txt "pets")
      (txt "/docs") Orchestrator.init
    = (Orchestrator.init, Raised no_pages_error)
  /\ RagEngine.build_index pageless_os demo_encode 5 (txt "pets")
      (txt "/docs") RagEngine.init
    = (RagEngine.init, Raised no_chunks_error)
  /\ RagEngine.build_index blank_os demo_encode 5 (txt "pets")
      (txt "/docs") RagEngine.init
    = (RagEngine.init, Raised no_chunks_error)
  /\ pdf_reader pageless_os (txt "/docs/a.pdf") = Returned []
  /\ pdf_reader blank_os (txt "/docs/a.pdf")
     = Returned [Returned (Some (txt "   "))]
  /\ exn_cls no_pages_error = ValueError
  /\ exn_cls no_chunks_error = ValueError.
Proof. split_and!; vm_compute; reflexivity. Qed.

(** ** Texts, slices and loops *)

Lemma lstrip_split s : exists pre, s = pre ++ lstrip s /\ blank pre.
Proof.
  induction s as [|c s (pre & IH & Hpre)]; simpl.
  - exists []. split; [done | constructor].
  - destruct (is_space c) eqn:Hc.
    + exists (c :: pre). split; [simpl; congruence | by constructor].
    + exists []. split; [done | constructor].
Qed.

Lemma lstrip_head s c r : lstrip s = c :: r -> is_space c = false.
Proof.
  induction s as [|x s IH]; simpl; [discriminate|].
  destruct (is_space x) eqn:Hx; [done|]. by intros [= <- _].
Qed.

Lemma lstrip_blank s : blank s -> lstrip s = [].
Proof. induction 1 as [|c s Hc _ IH]; simpl; [done | by rewrite Hc]. Qed.

Lemma lstrip_nonblank s : ~ blank s -> lstrip s <> [].
Proof.
  intros Hnb Hl. apply Hnb.
  destruct (lstrip_split s) as (pre & Hs & Hpre).
  rewrite Hl, app_nil_r in Hs. by subst.
Qed.

Lemma blank_rev s : blank (rev s) <-> blank s.
Proof.
  unfold blank. split; intros H.
  - rewrite <- (rev_involutive s). by apply List.Forall_rev.
  - by apply List.Forall_rev.
Qed.

Lemma blank_app a b : blank (a ++ b) <-> blank a /\ blank b.
Proof. apply Forall_app. Qed.

Lemma rstrip_split s : exists post, s = rstrip s ++ post /\ blank post.
Proof.
  unfold rstrip. destruct (lstrip_split (rev s)) as (pre & Hs & Hpre).
  exists (rev pre). split; [|by apply blank_rev].
  rewrite <- rev_app_distr, <- Hs. by rewrite rev_involutive.
Qed.

Lemma strip_split s :
  exists pre post, s = pre ++ strip s ++ post /\ blank pre /\ blank post.
Proof.
  destruct (lstrip_split s) as (pre & Hs & Hpre).
  destruct (rstrip_split (lstrip s)) as (post & Hl & Hpost).
  exists pre, post. unfold strip. by rewrite <- Hl.
Qed.

Lemma strip_substring s : substring_of (strip s) s.
Proof. destruct (strip_split s) as (pre & post & H & _). by exists pre, post. Qed.

Lemma strip_blank s : blank s -> strip s = [].
Proof. intros H. unfold strip. by rewrite (lstrip_blank s H). Qed.

Lemma strip_nonblank s : ~ blank s -> strip s <> [].
Proof.
  intros Hnb Hs. apply Hnb.
  destruct (strip_split s) as (pre & post & H & Hpre & Hpost).
  rewrite Hs in H. subst s. by apply blank_app.
Qed.

Lemma truthy_true {A} (l : list A) : truthy l = true <-> l <> [].
Proof. by destruct l. Qed.

Lemma truthy_false {A} (l : list A) : truthy l = false <-> l = [].
Proof. by destruct l. Qed.

Lemma substring_trans {A} (a b c : list A) :
  substring_of a b -> substring_of b c -> substring_of a c.
Proof.
  intros (p1 & q1 & ->) (p2 & q2 & ->).
  exists (p2 ++ p1), (q1 ++ q2). by rewrite <- !app_assoc.
Qed.

Lemma blank_substring a b : substring_of a b -> blank b -> blank a.
Proof.
  intros (pre & post & ->) H.
  apply blank_app in H as [_ H]. by apply blank_app in H as [H _].
Qed.

Lemma py_slice_substring {A} (l : list A) start stop :
  substring_of (py_slice l start stop) l.
Proof.
  unfold py_slice, substring_of. cbv zeta.
  set (n := Z.of_nat (length l)).
  set (s := Z.to_nat (clamp_index n start)).
  set (k := Z.to_nat (clamp_index n stop - clamp_index n start)).
  exists (take s l), (drop k (drop s l)).
  by rewrite (take_drop k), take_drop.
Qed.

(** A slice with both bounds inside the list. *)
Lemma py_slice_inside {A} (l : list A) (a b : Z) :
  0 <= a <= b -> b <= Z.of_nat (length l) ->
  py_slice l a b = take (Z.to_nat (b - a)) (drop (Z.to_nat a) l)
  /\ length (py_slice l a b) = Z.to_nat (b - a).
Proof.
  intros Ha Hb. unfold py_slice, clamp_index.
  destruct (Z.ltb_spec a 0); [lia|]. destruct (Z.ltb_spec b 0); [lia|].
  rewrite !Z.min_l by lia. split; [done|].
  rewrite length_take, length_drop. lia.
Qed.

(** *** Words *)

Lemma split_from_words cur s :
  Forall (fun c => is_space c = false) cur ->
  Forall word (split_from cur s).
Proof.
  revert cur. induction s as [|c s IH]; intros cur Hcur; simpl.
  - destruct cur; [constructor|]. constructor; [|constructor]. by split.
  - destruct (is_space c) eqn:Hc.
    + destruct cur as [|x cur]; [by apply IH|].
      constructor; [by split | by apply IH].
    + apply IH. apply Forall_app. split; [done|]. by constructor.
Qed.

Lemma split_words s : Forall word (split s).
Proof. apply split_from_words. constructor. Qed.

Lemma split_blank s : blank s -> split s = [].
Proof.
  unfold split. induction 1 as [|c s Hc _ IH]; simpl; [done|by rewrite Hc].
Qed.

Lemma join_nonblank sep ws :
  ws <> [] -> Forall word ws -> ~ blank (join sep ws).
Proof.
  intros Hne Hws Hb. destruct Hws as [|w ws [Hw Hcs] _]; [done|].
  assert (Hbw : blank w).
  { destruct ws; simpl in Hb; [done|]. by apply blank_app in Hb as [? _]. }
  destruct Hcs as [|c w Hc _]; [done|].
  apply Forall_cons in Hbw as [Hc' _]. congruence.
Qed.

Lemma join_nonempty sep ws :
  ws <> [] -> Forall word ws -> join sep ws <> [].
Proof.
  intros Hne Hws Hj. apply (join_nonblank sep ws Hne Hws).
  rewrite Hj. constructor.
Qed.

(** *** Loops *)

Lemma while_not_raised {S R} fuel (body : S -> ctl S R) s e :
  while fuel body s <> Raised e.
Proof.
  revert s. induction fuel as [|fuel IH]; intros s; simpl; [done|].
  destruct (body s); [apply IH | done].
Qed.

Lemma while_fuel_mono {S R} fuel fuel' (body : S -> ctl S R) s r :
  while fuel body s = Returned r -> (fuel <= fuel')%nat ->
  while fuel' body s = Returned r.
Proof.
  revert fuel' s. induction fuel as [|fuel IH]; intros fuel' s; simpl;
    [discriminate|].
  intros H Hle. destruct fuel' as [|fuel']; [lia|]. simpl.
  destruct (body s); [|done]. apply IH; [done | lia].
Qed.

(** A loop whose body decreases a measure returns, given that much fuel. *)
Lemma while_terminates {S R} (body : S -> ctl S R)
    (Inv : S -> Prop) (measure : S -> nat) :
  (forall s s', Inv s -> body s = Continue s' ->
                Inv s' /\ (measure s' < measure s)%nat) ->
  forall fuel s, Inv s -> (measure s < fuel)%nat ->
  exists r, while fuel body s = Returned r.
Proof.
  intros Hstep fuel. induction fuel as [|fuel IH]; intros s Hs Hm; [lia|].
  simpl. destruct (body s) as [s'|r] eqn:Hb; [|eauto].
  destruct (Hstep s s' Hs Hb) as [Hs' Hlt]. apply IH; [done | lia].
Qed.

(** What holds of every state of a loop holds of its result. *)
Lemma while_invariant {S R} (body : S -> ctl S R)
    (Inv : S -> Prop) (Post : R -> Prop) :
  (forall s s', Inv s -> body s = Continue s' -> Inv s') ->
  (forall s r, Inv s -> body s = Break r -> Post r) ->
  forall fuel s r, Inv s -> while fuel body s = Returned r -> Post r.
Proof.
  intros Hc Hb fuel. induction fuel as [|fuel IH]; intros s r Hs; simpl;
    [discriminate|].
  destruct (body s) as [s'|r'] eqn:Hbody.
  - apply IH. eauto.
  - intros [= <-]. eauto.
Qed.

Lemma for_each_invariant {A S} (body : A -> S -> outcome S)
    (Inv : S -> Prop) (xs : list A) :
  (forall x s s', x ∈ xs -> Inv s -> body x s = Returned s' -> Inv s') ->
  forall s r, Inv s -> for_each xs body s = Returned r -> Inv r.
Proof.
  induction xs as [|x xs IH]; intros Hstep s r Hs; simpl.
  - by intros [= <-].
  - destruct (body x s) as [s'| |] eqn:Hb; simpl; try discriminate.
    apply IH.
    + intros y t t' Hy. apply Hstep. by right.
    + eapply Hstep; [by left | done | done].
Qed.

(** ** The chunking loops *)

(** *** Chains of windows *)

Section Chain.

Variables chunk_size overlap n : Z.
Hypothesis Hsize : 0 < chunk_size.
Hypothesis Hoverlap : 0 <= overlap < chunk_size.

Lemma chain_bounds start ws :
  chain chunk_size overlap n start ws ->
  forall w, w ∈ ws -> start <= w_start w /\ w_start w < w_end w <= n.
Proof.
  induction 1 as [start Hlt Hle | start ws Hlt Hch IH]; intros w Hw.
  - apply list_elem_of_singleton in Hw as ->. simpl. lia.
  - apply elem_of_cons in Hw as [-> | Hw]; [simpl; lia|].
    specialize (IH w Hw). lia.
Qed.

Lemma chain_covers start ws :
  chain chunk_size overlap n start ws ->
  forall p, start <= p < n -> exists w, w ∈ ws /\ covers w p.
Proof.
  induction 1 as [start Hlt Hle | start ws Hlt Hch IH]; intros p Hp.
  - exists (Window start n). split; [by left | unfold covers; simpl; lia].
  - destruct (Z.lt_ge_cases p (start + chunk_size)) as [Hin | Hout].
    + eexists. split; [by left | unfold covers; simpl; lia].
    + destruct (IH p) as (w & Hw & Hc); [lia|].
      exists w. split; [by right | done].
Qed.

Lemma chain_head start ws :
  chain chunk_size overlap n start ws ->
  exists w rest, ws = w :: rest /\ w_start w = start.
Proof. destruct 1; eauto. Qed.

Lemma chain_stride start ws :
  chain chunk_size overlap n start ws ->
  forall i a b, ws !! i = Some a -> ws !! S i = Some b ->
  w_start b = w_start a + (chunk_size - overlap)
  /\ w_end a - w_start b = overlap.
Proof.
  induction 1 as [start Hlt Hle | start ws Hlt Hch IH]; intros i a b Ha Hb.
  - by destruct i.
  - destruct i as [|i].
    + simpl in Ha, Hb. injection Ha as <-.
      destruct (chain_head _ _ Hch) as (w & rest & -> & Hw).
      simpl in Hb. injection Hb as <-. simpl. lia.
    + simpl in Ha, Hb. eauto.
Qed.

Lemma chain_last_end start ws :
  chain chunk_size overlap n start ws ->
  exists w, last ws = Some w /\ w_end w = n.
Proof.
  induction 1 as [start Hlt Hle | start ws Hlt Hch (w & Hw & He)].
  - by eexists.
  - exists w. split; [|done].
    destruct ws; [discriminate | done].
Qed.

End Chain.

(** *** The word chunker of rag_engine.py *)

Lemma word_slice_nonblank words a b :
  Forall word words -> 0 <= a < b -> b <= Z.of_nat (length words) ->
  ~ blank (join (txt " ") (py_slice words a b)).
Proof.
  intros Hw Hab Hb.
  destruct (py_slice_inside words a b) as [Heq Hlen]; [lia | lia |].
  apply join_nonblank.
  - intros Hnil. rewrite Hnil in Hlen. simpl in Hlen. lia.
  - destruct (py_slice_substring words a b) as (pre & post & Hs).
    rewrite Hs in Hw. apply Forall_app in Hw as [_ Hw].
    by apply Forall_app in Hw as [Hw _].
Qed.

(** One pass of the loop on words, for a positive chunk size. *)
Lemma word_body_pass words chunk_size overlap s :
  Forall word words -> 0 < chunk_size ->
  0 <= WordChunker.start s < Z.of_nat (length words) ->
  let n := Z.of_nat (length words) in
  let e := Z.min (WordChunker.start s + chunk_size) n in
  let w := Window (WordChunker.start s) e in
  let chunks' := WordChunker.chunks s ++ [word_chunk words w] in
  let windows' := WordChunker.windows s ++ [w] in
  WordChunker.body words chunk_size overlap s =
  if e =? n then Break (WordChunker.St (WordChunker.start s) chunks' windows')
  else Continue (WordChunker.St (Z.max (e - overlap) 0) chunks' windows').
Proof.
  intros Hw Hcs Hs n e w chunks' windows'. unfold WordChunker.body.
  fold n. destruct (Z.ltb_spec (WordChunker.start s) n); [|lia].
  fold e.
  assert (Ht : truthy (strip (join (txt " ")
                 (py_slice words (WordChunker.start s) e))) = true).
  { apply truthy_true, strip_nonblank, word_slice_nonblank; [done| |];
      subst e n; lia. }
  rewrite Ht. reflexivity.
Qed.

Lemma word_loop_chain words chunk_size overlap :
  Forall word words -> 0 <= overlap < chunk_size ->
  let n := Z.of_nat (length words) in
  forall fuel s,
    0 <= WordChunker.start s < n ->
    (Z.to_nat (n - WordChunker.start s) <= fuel)%nat ->
    exists ws s',
      while fuel (WordChunker.body words chunk_size overlap) s = Returned s'
      /\ chain chunk_size overlap n (WordChunker.start s) ws
      /\ WordChunker.windows s' = WordChunker.windows s ++ ws
      /\ WordChunker.chunks s'
         = WordChunker.chunks s ++ map (word_chunk words) ws.
Proof.
  intros Hw Hov n fuel.
  induction fuel as [|fuel IH]; intros s Hs Hfuel; [lia|].
  simpl. rewrite word_body_pass by (done || lia). fold n.
  set (e := Z.min (WordChunker.start s + chunk_size) n).
  destruct (Z.eqb_spec e n) as [He | He].
  - eexists [Window (WordChunker.start s) e], _.
    split; [reflexivity|]. split; [|done].
    rewrite He. apply chain_last; lia.
  - assert (Hlt : WordChunker.start s + chunk_size < n) by lia.
    assert (He' : e = WordChunker.start s + chunk_size) by lia.
    rewrite Z.max_l by lia.
    match goal with
    | |- context [while fuel _ ?s0] =>
        destruct (IH s0) as (ws & s' & Hrun & Hch & Hwin & Hchunks);
          [simpl; lia | simpl; lia |]
    end.
    simpl in *. exists (Window (WordChunker.start s) e :: ws), s'.
    split; [done|]. split; [|split].
    + rewrite He'. apply chain_step; [done|]. by rewrite <- He'.
    + by rewrite Hwin, <- app_assoc.
    + by rewrite Hchunks, <- app_assoc.
Qed.

(** With a valid configuration the word chunker returns, and its windows
    form a chain from offset 0. *)
Lemma word_run_chain text_ chunk_size overlap :
  0 <= overlap < chunk_size ->
  let words := split text_ in
  let n := Z.of_nat (length words) in
  exists ws s',
    WordChunker.run (S (length words)) text_ chunk_size overlap = Returned s'
    /\ WordChunker.windows s' = ws
    /\ WordChunker.chunks s' = map (word_chunk words) ws
    /\ (words = [] /\ ws = [] \/ chain chunk_size overlap n 0 ws).
Proof.
  intros Hov words n. unfold WordChunker.run. fold words.
  assert (Hw : Forall word words) by apply split_words.
  clearbody words. destruct words as [|w0 words'].
  - exists [], (WordChunker.St 0 [] []). simpl. split_and!; auto.
  - assert (Hn : 0 < n) by (subst n; simpl; lia).
    destruct (word_loop_chain (w0 :: words') chunk_size overlap Hw Hov
                (S (length (w0 :: words'))) (WordChunker.St 0 [] []))
      as (ws & s' & Hrun & Hch & Hwin & Hchunks).
    + simpl WordChunker.start. fold n. lia.
    + simpl WordChunker.start. fold n. lia.
    + exists ws, s'. simpl in Hwin, Hchunks, Hch. fold n in Hch.
      split_and!; auto.
Qed.

(** *** The character chunker of pdf_loader.py *)

(** One pass of the loop on a page, at a window that is not blank. *)
Lemma char_body_pass k pg chunk_size overlap s :
  let text := PdfLoader.text_ pg in
  let n := Z.of_nat (length text) in
  let e := Z.min (PdfLoader.start s + chunk_size) n in
  let w := Window (PdfLoader.start s) e in
  PdfLoader.start s < n ->
  ~ blank (py_slice text (PdfLoader.start s) e) ->
  exists chunk,
    PdfLoader.text_ chunk = char_chunk text w
    /\ PdfLoader.body k pg chunk_size overlap s =
       let chunks' := PdfLoader.chunks s ++ [chunk] in
       let counter' := PdfLoader.chunk_counter s + 1 in
       let windows' := PdfLoader.windows s ++ [(k, w)] in
       if e =? n
       then Break (PdfLoader.St (PdfLoader.start s) chunks' counter' windows')
       else Continue
              (PdfLoader.St (Z.max 0 (e - overlap)) chunks' counter' windows').
Proof.
  intros text n e w Hs Hnb. unfold PdfLoader.body. fold text n.
  destruct (Z.ltb_spec (PdfLoader.start s) n); [|lia]. fold e.
  apply strip_nonblank, truthy_true in Hnb. rewrite Hnb. simpl negb.
  eexists. split; [|reflexivity]. reflexivity.
Qed.

Lemma char_loop_chain k pg chunk_size overlap :
  0 <= overlap < chunk_size ->
  no_blank_window (PdfLoader.text_ pg) chunk_size overlap ->
  let text := PdfLoader.text_ pg in
  let n := Z.of_nat (length text) in
  forall fuel s j,
    0 <= j -> PdfLoader.start s = j * (chunk_size - overlap) ->
    j = 0 \/ (j - 1) * (chunk_size - overlap) + chunk_size < n ->
    PdfLoader.start s < n ->
    (Z.to_nat (n - PdfLoader.start s) <= fuel)%nat ->
    exists ws s',
      while fuel (PdfLoader.body k pg chunk_size overlap) s = Returned s'
      /\ chain chunk_size overlap n (PdfLoader.start s) ws
      /\ PdfLoader.windows s' = PdfLoader.windows s ++ map (pair k) ws
      /\ map PdfLoader.text_ (PdfLoader.chunks s')
         = map PdfLoader.text_ (PdfLoader.chunks s)
           ++ map (char_chunk text) ws.
Proof.
  intros Hov Hnb text n fuel.
  induction fuel as [|fuel IH]; intros s j Hj Hstart Hreach Hs Hfuel; [lia|].
  assert (Hpos : 0 <= PdfLoader.start s) by nia.
  destruct (char_body_pass k pg chunk_size overlap s Hs)
    as (chunk & Htext & Hbody).
  { rewrite Hstart. by apply Hnb; [|rewrite <- Hstart|]. }
  simpl. rewrite Hbody. cbv zeta. fold text n.
  set (e := Z.min (PdfLoader.start s + chunk_size) n) in *.
  destruct (Z.eqb_spec e n) as [He | He].
  - eexists [Window (PdfLoader.start s) e], _.
    split; [reflexivity|]. split; [|split].
    + rewrite He. apply chain_last; lia.
    + done.
    + simpl. rewrite map_app. simpl. by rewrite Htext.
  - assert (Hlt : PdfLoader.start s + chunk_size < n) by lia.
    assert (He' : e = PdfLoader.start s + chunk_size) by lia.
    rewrite Z.max_r by lia.
    match goal with
    | |- context [while fuel _ ?s0] =>
        destruct (IH s0 (j + 1))
          as (ws & s' & Hrun & Hch & Hwin & Hchunks);
          [lia | simpl; lia | right; fold n; lia | simpl; lia | simpl; lia |]
    end.
    simpl in *. exists (Window (PdfLoader.start s) e :: ws), s'.
    split; [done|]. split; [|split].
    + rewrite He'. apply chain_step; [done|]. by rewrite <- He'.
    + by rewrite Hwin, <- app_assoc.
    + rewrite Hchunks, map_app, <- app_assoc. simpl. by rewrite Htext.
Qed.

(** X26. For a configuration with
    [0 <= overlap < chunk_size], the word chunker of [rag_engine.py] returns,
    consecutive windows start exactly [chunk_size - overlap] words apart
    and share exactly [overlap] words, every chunk is the text of its
    window, and every word position of the text lies in a window. The
    character chunker of [pdf_loader.py] does the same on each page,
    counted in characters, provided that no window it reaches on the page
    is whitespace only. *)
Theorem chunk_windows_stride_and_cover (chunk_size overlap : Z) :
  0 <= overlap < chunk_size ->
  (forall text_,
     let words := split text_ in
     exists ws,
       WordChunker.simple_chunk_windows (S (length words)) text_
         chunk_size overlap = Returned ws
       /\ WordChunker.simple_chunk (S (length words)) text_
            chunk_size overlap = Returned (map (word_chunk words) ws)
       /\ (forall i a b, ws !! i = Some a -> ws !! S i = Some b ->
             w_start b = w_start a + (chunk_size - overlap)
             /\ w_end a - w_start b = overlap)
       /\ (forall p, 0 <= p < Z.of_nat (length words) ->
             exists w, w ∈ ws /\ covers w p))
  /\ (forall k pg s,
        no_blank_window (PdfLoader.text_ pg) chunk_size overlap ->
        let text := PdfLoader.text_ pg in
        exists ws s',
          PdfLoader.chunk_page (S (length text)) chunk_size overlap k pg s
            = Returned s'
          /\ PdfLoader.windows s' = PdfLoader.windows s ++ map (pair k) ws
          /\ map PdfLoader.text_ (PdfLoader.chunks s')
             = map PdfLoader.text_ (PdfLoader.chunks s)
               ++ map (char_chunk text) ws
          /\ (forall i a b, ws !! i = Some a -> ws !! S i = Some b ->
                w_start b = w_start a + (chunk_size - overlap)
                /\ w_end a - w_start b = overlap)
          /\ (forall p, 0 <= p < Z.of_nat (length text) ->
                exists w, w ∈ ws /\ covers w p)).
Proof.
  intros Hov. assert (Hcs : 0 < chunk_size) by lia. split.
  - intros text_ words.
    destruct (word_run_chain text_ chunk_size overlap Hov)
      as (ws & s' & Hrun & Hwin & Hchunks & Hch).
    fold words in Hrun, Hchunks, Hch.
    exists ws. unfold WordChunker.simple_chunk_windows,
      WordChunker.simple_chunk. rewrite Hrun. simpl.
    rewrite Hwin, Hchunks. split; [done|]. split; [done|].
    destruct Hch as [[Hnil ->] | Hch].
    + split; [by intros [] |]. rewrite Hnil. simpl. lia.
    + split; [by eapply chain_stride | by eapply chain_covers].
  - intros k pg s Hnb text. unfold PdfLoader.chunk_page.
    destruct (decide (length text = 0%nat)) as [Hz | Hnz].
    + exists [], (PdfLoader.St 0 (PdfLoader.chunks s)
                    (PdfLoader.chunk_counter s) (PdfLoader.windows s)).
      simpl. unfold PdfLoader.body. fold text. rewrite Hz. simpl.
      rewrite !app_nil_r. split_and!; try done. lia.
    + destruct (char_loop_chain k pg chunk_size overlap Hov Hnb
                  (S (length text))
                  (PdfLoader.St 0 (PdfLoader.chunks s)
                     (PdfLoader.chunk_counter s) (PdfLoader.windows s)) 0)
        as (ws & s' & Hrun & Hch & Hwin & Hchunks);
        [lia | simpl; lia | by left | simpl; fold text; lia
        | simpl; fold text; lia |].
      exists ws, s'. simpl in Hch, Hwin, Hchunks. fold text in Hch, Hchunks.
      split_and!; try done.
      * by eapply chain_stride.
      * by eapply chain_covers.
Qed.

Lemma blank_forallb s : blank s <-> forallb is_space s = true.
Proof.
  unfold blank. rewrite forallb_forall, List.Forall_forall. done.
Qed.

Lemma chunk_windows_stride_and_cover_witness :
  (exists ws,
     WordChunker.simple_chunk_windows 6 (txt "a b c d e") 2 1 = Returned ws
     /\ WordChunker.simple_chunk 6 (txt "a b c d e") 2 1
        = Returned (map (word_chunk (split (txt "a b c d e"))) ws)
     /\ (forall i a b, ws !! i = Some a -> ws !! S i = Some b ->
           w_start b = w_start a + (2 - 1) /\ w_end a - w_start b = 1)
     /\ (forall p, 0 <= p < 5 -> exists w, w ∈ ws /\ covers w p))
  /\ (exists ws s',
        PdfLoader.chunk_page 6 2 1 0 demo_page (PdfLoader.St 0 [] 0 [])
          = Returned s'
        /\ PdfLoader.windows s' = [] ++ map (pair 0%nat) ws
        /\ map PdfLoader.text_ (PdfLoader.chunks s')
           = [] ++ map (char_chunk (txt "abcde")) ws
        /\ (forall i a b, ws !! i = Some a -> ws !! S i = Some b ->
              w_start b = w_start a + (2 - 1) /\ w_end a - w_start b = 1)
        /\ (forall p, 0 <= p < 5 -> exists w, w ∈ ws /\ covers w p))
  /\ (exists ws s',
        PdfLoader.chunk_page 6 4 3 0 tail_page (PdfLoader.St 0 [] 0 [])
          = Returned s'
        /\ PdfLoader.windows s' = [] ++ map (pair 0%nat) ws
        /\ map PdfLoader.text_ (PdfLoader.chunks s')
           = [] ++ map (char_chunk (txt "abcd ")) ws
        /\ (forall i a b, ws !! i = Some a -> ws !! S i = Some b ->
              w_start b = w_start a + (4 - 3) /\ w_end a - w_start b = 3)
        /\ (forall p, 0 <= p < 5 -> exists w, w ∈ ws /\ covers w p)).
Proof.
  destruct (chunk_windows_stride_and_cover 2 1) as [Hword Hchar]; [lia|].
  destruct (chunk_windows_stride_and_cover 4 3) as [_ Htail]; [lia|].
  split_and!.
  - exact (Hword (txt "a b c d e")).
  - apply (Hchar 0%nat demo_page (PdfLoader.St 0 [] 0 [])).
    intros j Hj Hlt _. simpl in Hlt.
    assert (Hcases : j = 0 \/ j = 1 \/ j = 2 \/ j = 3 \/ j = 4) by lia.
    rewrite blank_forallb.
    destruct Hcases as [-> | [-> | [-> | [-> | ->]]]];
      vm_compute; discriminate.
  - apply (Htail 0%nat tail_page (PdfLoader.St 0 [] 0 [])).
    intros j Hj Hlt Hreach. simpl in Hlt, Hreach.
    assert (Hcases : j = 0 \/ j = 1) by lia.
    rewrite blank_forallb.
    destruct Hcases as [-> | ->]; vm_compute; discriminate.
Defined.

(** Outside these configurations the windows need not cover the text:
    [overlap = -1] is below [chunk_size = 2], and both chunkers then step
    over one unit between consecutive windows. The word ["c"] and the
    character ['c'] at position 2 lie in no window and in no chunk. *)
Example negative_overlap_leaves_gap :
  WordChunker.simple_chunk_windows 10 (txt "a b c d e") 2 (-1)
    = Returned [Window 0 2; Window 3 5]
  /\ WordChunker.simple_chunk 10 (txt "a b c d e") 2 (-1)
    = Returned [txt "a b"; txt "d e"]
  /\ PdfLoader.simple_chunk_windows 10 [demo_page] 2 (-1)
    = Returned [(0%nat, Window 0 2); (0%nat, Window 3 5)]
  /\ map PdfLoader.text_ <$> PdfLoader.simple_chunk 10 [demo_page] 2 (-1)
    = Returned [txt "ab"; txt "de"]
  /\ ~ (exists w, w ∈ [Window 0 2; Window 3 5] /\ covers w 2).
Proof.
  split_and!; try (vm_compute; reflexivity).
  intros (w & Hw & Hc). unfold covers in Hc.
  apply elem_of_cons in Hw as [-> | Hw]; [simpl in Hc; lia|].
  apply list_elem_of_singleton in Hw as ->. simpl in Hc. lia.
Qed.

(** C2 on [pdf_loader.simple_chunk], within the valid configurations: on
    the page ["a    b"] with [chunk_size = 2] and [overlap = 0] the loop
    takes the window [[0, 2)], finds the next one, [[2, 4)], whitespace
    only, and leaves the loop there ([break]). The character ['b'] at
    position 5 lies in no window and in no chunk: the windows do not cover
    the page. The word chunker of [rag_engine.py] has the same test and
    goes on after it: on the same text, one word per chunk, it covers both
    words. *)
Theorem char_chunker_stops_at_blank_window :
  let text := txt "a    b" in
  PdfLoader.text_ gap_page = text
  /\ PdfLoader.simple_chunk_windows 10 [gap_page] 2 0
     = Returned [(0%nat, Window 0 2)]
  /\ map PdfLoader.text_ <$> PdfLoader.simple_chunk 10 [gap_page] 2 0
     = Returned [txt "a"]
  /\ blank (py_slice text 2 4)
  /\ text !! 5%nat = Some "b"%char
  /\ ~ (exists w, w ∈ [Window 0 2] /\ covers w 5)
  /\ WordChunker.simple_chunk_windows 10 text 1 0
     = Returned [Window 0 1; Window 1 2]
  /\ WordChunker.simple_chunk 10 text 1 0 = Returned [txt "a"; txt "b"].
Proof.
  split_and!; try (vm_compute; reflexivity).
  - apply blank_forallb. vm_compute. reflexivity.
  - intros (w & Hw & Hc). unfold covers in Hc.
    apply list_elem_of_singleton in Hw as ->. simpl in Hc. lia.
Qed.

(** *** Progress and termination *)

Lemma word_body_continue words chunk_size overlap s s' :
  WordChunker.body words chunk_size overlap s = Continue s' ->
  WordChunker.start s + chunk_size < Z.of_nat (length words)
  /\ WordChunker.start s'
     = Z.max (WordChunker.start s + chunk_size - overlap) 0.
Proof.
  unfold WordChunker.body.
  set (n := Z.of_nat (length words)).
  destruct (Z.ltb_spec (WordChunker.start s) n); [|discriminate].
  destruct (Z.eqb_spec (Z.min (WordChunker.start s + chunk_size) n) n)
    as [He | He]; [discriminate|].
  intros [= <-]. simpl. split; [lia|]. f_equal. lia.
Qed.

Lemma char_body_continue k pg chunk_size overlap s s' :
  PdfLoader.body k pg chunk_size overlap s = Continue s' ->
  PdfLoader.start s + chunk_size < Z.of_nat (length (PdfLoader.text_ pg))
  /\ PdfLoader.start s'
     = Z.max 0 (PdfLoader.start s + chunk_size - overlap).
Proof.
  unfold PdfLoader.body.
  set (n := Z.of_nat (length (PdfLoader.text_ pg))).
  destruct (Z.ltb_spec (PdfLoader.start s) n); [|discriminate].
  destruct (negb _); [discriminate|].
  destruct (Z.eqb_spec (Z.min (PdfLoader.start s + chunk_size) n) n)
    as [He | He]; [discriminate|].
  intros [= <-]. simpl. split; [lia|]. f_equal. lia.
Qed.

Lemma for_each_returns {A S} (body : A -> S -> outcome S) (xs : list A) :
  (forall x s, x ∈ xs -> exists s', body x s = Returned s') ->
  forall s, exists r, for_each xs body s = Returned r.
Proof.
  induction xs as [|x xs IH]; intros Hbody s; simpl; [by eexists|].
  destruct (Hbody x s) as [s' Hs']; [by left|]. rewrite Hs'. simpl.
  apply IH. intros y t Hy. apply Hbody. by right.
Qed.

Lemma for_each_not_raised {A S} (body : A -> S -> outcome S) (xs : list A) :
  (forall x s e, body x s <> Raised e) ->
  forall s e, for_each xs body s <> Raised e.
Proof.
  intros Hbody. induction xs as [|x xs IH]; intros s e; simpl; [done|].
  destruct (body x s) as [s'|e'|] eqn:Hb; simpl; [apply IH | | done].
  by destruct (Hbody x s e').
Qed.

(** With a valid configuration the loop on one page returns. *)
Lemma char_page_returns chunk_size overlap fuel k pg s :
  0 <= overlap < chunk_size ->
  (length (PdfLoader.text_ pg) < fuel)%nat ->
  exists s', PdfLoader.chunk_page fuel chunk_size overlap k pg s = Returned s'.
Proof.
  intros Hov Hfuel. unfold PdfLoader.chunk_page.
  apply (while_terminates (PdfLoader.body k pg chunk_size overlap)
           (fun t => 0 <= PdfLoader.start t)
           (fun t => Z.to_nat (Z.of_nat (length (PdfLoader.text_ pg))
                               - PdfLoader.start t))).
  - intros t t' Ht [Hlt Hnext]%char_body_continue. lia.
  - simpl. lia.
  - simpl. lia.
Qed.

Lemma char_chunker_returns chunk_size overlap fuel pages :
  0 <= overlap < chunk_size ->
  (forall pg, pg ∈ pages -> (length (PdfLoader.text_ pg) < fuel)%nat) ->
  exists chunks,
    PdfLoader.simple_chunk fuel pages chunk_size overlap = Returned chunks.
Proof.
  intros Hov Hfuel. unfold PdfLoader.simple_chunk, PdfLoader.run.
  edestruct (for_each_returns
               (fun '(k, pg) s =>
                  PdfLoader.chunk_page fuel chunk_size overlap k pg s)
               (zip (seq 0 (length pages)) pages)) as [r Hr].
  - intros [k pg] s Hin. apply char_page_returns; [done|].
    apply Hfuel. by eapply elem_of_zip_r.
  - rewrite Hr. by eexists.
Qed.

Lemma word_chunker_returns chunk_size overlap text_ :
  0 <= overlap < chunk_size ->
  exists chunks,
    WordChunker.simple_chunk (S (length (split text_))) text_
      chunk_size overlap = Returned chunks.
Proof.
  intros Hov.
  destruct (word_run_chain text_ chunk_size overlap Hov)
    as (ws & s' & Hrun & _).
  unfold WordChunker.simple_chunk. rewrite Hrun. by eexists.
Qed.

(** C4. With [chunk_size > 0] and [0 <= overlap < chunk_size] both chunking
    loops terminate on every text: each pass that goes round again moves
    the start offset forward by exactly [chunk_size - overlap], which is at
    least 1, so a number of passes above the length of the text is never
    exceeded. *)
Theorem chunking_loop_terminates (chunk_size overlap : Z) :
  0 < chunk_size -> 0 <= overlap < chunk_size ->
  (forall text_, exists chunks,
     WordChunker.simple_chunk (S (length (split text_))) text_
       chunk_size overlap = Returned chunks)
  /\ (forall fuel pages,
        (forall pg, pg ∈ pages -> (length (PdfLoader.text_ pg) < fuel)%nat) ->
        exists chunks,
          PdfLoader.simple_chunk fuel pages chunk_size overlap
            = Returned chunks)
  /\ (forall words s s',
        0 <= WordChunker.start s ->
        WordChunker.body words chunk_size overlap s = Continue s' ->
        WordChunker.start s'
          = WordChunker.start s + (chunk_size - overlap)
        /\ 1 <= chunk_size - overlap)
  /\ (forall k pg s s',
        0 <= PdfLoader.start s ->
        PdfLoader.body k pg chunk_size overlap s = Continue s' ->
        PdfLoader.start s' = PdfLoader.start s + (chunk_size - overlap)
        /\ 1 <= chunk_size - overlap).
Proof.
  intros Hcs Hov. split_and!.
  - intros text_. by apply word_chunker_returns.
  - intros fuel pages Hfuel. by apply char_chunker_returns.
  - intros words s s' Hs [_ Hnext]%word_body_continue. lia.
  - intros k pg s s' Hs [_ Hnext]%char_body_continue. lia.
Qed.

Lemma chunking_loop_terminates_witness :
  (exists chunks,
     WordChunker.simple_chunk 6 (txt "a b c d e") 2 1 = Returned chunks)
  /\ (exists chunks,
        PdfLoader.simple_chunk 7 [demo_page; gap_page] 2 1
          = Returned chunks).
Proof.
  destruct (chunking_loop_terminates 2 1) as (Hword & Hchar & _);
    [lia | lia |].
  split.
  - exact (Hword (txt "a b c d e")).
  - apply Hchar. intros pg Hpg.
    apply elem_of_cons in Hpg as [-> | Hpg]; [simpl; lia|].
    apply list_elem_of_singleton in Hpg as ->. simpl. lia.
Defined.

(** *** No validation of the configuration *)

Lemma word_chunker_not_raised fuel text_ chunk_size overlap e :
  WordChunker.simple_chunk fuel text_ chunk_size overlap <> Raised e.
Proof.
  unfold WordChunker.simple_chunk, WordChunker.run.
  destruct (while fuel _ _) as [s|e'|] eqn:Hw; simpl; try done.
  by apply while_not_raised in Hw.
Qed.

Lemma char_chunker_not_raised fuel pages chunk_size overlap e :
  PdfLoader.simple_chunk fuel pages chunk_size overlap <> Raised e.
Proof.
  unfold PdfLoader.simple_chunk, PdfLoader.run.
  destruct (for_each _ _ _) as [s|e'|] eqn:Hf; simpl; try done.
  apply for_each_not_raised in Hf; [done|].
  intros [k pg] s e0. apply while_not_raised.
Qed.

(** C3, as the code has it. Neither chunker checks its configuration and
    neither ever raises, whatever [chunk_size] and [overlap] are; with
    [chunk_size > 0] and [0 <= overlap < chunk_size] both return a list of
    chunks. *)
Theorem chunking_never_raises (chunk_size overlap : Z) :
  (forall fuel text_ e,
     WordChunker.simple_chunk fuel text_ chunk_size overlap <> Raised e)
  /\ (forall fuel pages e,
        PdfLoader.simple_chunk fuel pages chunk_size overlap <> Raised e)
  /\ (0 < chunk_size -> 0 <= overlap < chunk_size ->
      (forall text_, exists chunks,
         WordChunker.simple_chunk (S (length (split text_))) text_
           chunk_size overlap = Returned chunks)
      /\ (forall fuel pages,
            (forall pg, pg ∈ pages ->
                        (length (PdfLoader.text_ pg) < fuel)%nat) ->
            exists chunks,
              PdfLoader.simple_chunk fuel pages chunk_size overlap
                = Returned chunks)).
Proof.
  split_and!.
  - intros. apply word_chunker_not_raised.
  - intros. apply char_chunker_not_raised.
  - intros Hcs Hov. split.
    + intros text_. by apply word_chunker_returns.
    + intros fuel pages Hfuel. by apply char_chunker_returns.
Qed.

Lemma chunking_never_raises_witness :
  (exists chunks,
     WordChunker.simple_chunk 4 (txt "a b c") 800 200 = Returned chunks)
  /\ (exists chunks,
        PdfLoader.simple_chunk 6 [demo_page] 800 100 = Returned chunks).
Proof.
  destruct (chunking_never_raises 800 200) as (_ & _ & Hvalid).
  destruct (chunking_never_raises 800 100) as (_ & _ & Hvalid').
  split.
  - apply Hvalid; lia.
  - apply Hvalid'; [lia | lia |]. intros pg Hpg.
    apply list_elem_of_singleton in Hpg as ->. simpl. lia.
Defined.

Lemma word_chunker_loops_forever fuel s :
  WordChunker.start s = 0 ->
  while fuel (WordChunker.body (split (txt "a b c")) 2 2) s = OutOfFuel.
Proof.
  revert s. induction fuel as [|fuel IH]; intros s Hs; [done|].
  simpl. unfold WordChunker.body at 1. rewrite Hs.
  change (split (txt "a b c")) with [txt "a"; txt "b"; txt "c"].
  cbn -[while WordChunker.body]. by apply IH.
Qed.

(** C3, as stated, fails: no configuration is rejected. With a negative
    overlap the word chunker returns chunks, with [chunk_size = 0] it
    returns none, and with [overlap = chunk_size] on a text longer than one
    chunk it appends the first chunk again and again and never returns. *)
Lemma invalid_configuration_is_not_rejected :
  WordChunker.simple_chunk 10 (txt "a b c d e") 2 (-1)
    = Returned [txt "a b"; txt "d e"]
  /\ WordChunker.simple_chunk 10 (txt "a b c") 0 (-1) = Returned []
  /\ map PdfLoader.text_ <$> PdfLoader.simple_chunk 10 [demo_page] 2 (-1)
    = Returned [txt "ab"; txt "de"]
  /\ PdfLoader.simple_chunk 10 [demo_page] 0 (-1) = Returned []
  /\ (forall fuel,
        WordChunker.simple_chunk fuel (txt "a b c") 2 2 = OutOfFuel).
Proof.
  split_and!; try (vm_compute; reflexivity).
  intros fuel. unfold WordChunker.simple_chunk, WordChunker.run.
  by rewrite word_chunker_loops_forever.
Qed.

(** ** What a chunk is made of *)

(** A pass of the character loop appends at most one chunk, cut from the
    page. *)
Lemma char_body_chunks k pg chunk_size overlap s :
  forall s',
    (PdfLoader.body k pg chunk_size overlap s = Continue s'
     \/ PdfLoader.body k pg chunk_size overlap s = Break s') ->
    PdfLoader.chunks s' = PdfLoader.chunks s
    \/ exists c, PdfLoader.chunks s' = PdfLoader.chunks s ++ [c]
                 /\ cut_from pg c.
Proof.
  intros s'. unfold PdfLoader.body.
  set (n := Z.of_nat (length (PdfLoader.text_ pg))).
  destruct (PdfLoader.start s <? n); [|intros [[=] | [= <-]]; by left].
  set (e := Z.min (PdfLoader.start s + chunk_size) n).
  destruct (truthy (strip (py_slice (PdfLoader.text_ pg)
                             (PdfLoader.start s) e))) eqn:Ht; simpl.
  - apply truthy_true in Ht.
    assert (Hsub : substring_of
                     (strip (py_slice (PdfLoader.text_ pg)
                               (PdfLoader.start s) e)) (PdfLoader.text_ pg)).
    { eapply substring_trans;
        [apply strip_substring | apply py_slice_substring]. }
    destruct (e =? n); intros [[= <-] | [= <-]]; right;
      eexists; (split; [reflexivity | by split]).
  - intros [[=] | [= <-]]. by left.
Qed.

Lemma char_page_chunks (P : PdfLoader.entry -> Prop) fuel chunk_size overlap
    k pg s s' :
  (forall c, cut_from pg c -> P c) ->
  Forall P (PdfLoader.chunks s) ->
  PdfLoader.chunk_page fuel chunk_size overlap k pg s = Returned s' ->
  Forall P (PdfLoader.chunks s').
Proof.
  intros HP Hs. unfold PdfLoader.chunk_page.
  apply (while_invariant (PdfLoader.body k pg chunk_size overlap)
           (fun t => Forall P (PdfLoader.chunks t))
           (fun t => Forall P (PdfLoader.chunks t))); [| |done].
  - intros t t' Ht Hb.
    destruct (char_body_chunks k pg chunk_size overlap t t')
      as [-> | (c & -> & Hc)]; [by left | done |].
    apply Forall_app. split; [done|]. constructor; [by apply HP | constructor].
  - intros t t' Ht Hb.
    destruct (char_body_chunks k pg chunk_size overlap t t')
      as [-> | (c & -> & Hc)]; [by right | done |].
    apply Forall_app. split; [done|]. constructor; [by apply HP | constructor].
Qed.

Lemma char_chunker_chunks fuel pages chunk_size overlap chunks :
  PdfLoader.simple_chunk fuel pages chunk_size overlap = Returned chunks ->
  Forall (fun c => exists pg, pg ∈ pages /\ cut_from pg c) chunks.
Proof.
  unfold PdfLoader.simple_chunk, PdfLoader.run.
  destruct (for_each _ _ _) as [r| |] eqn:Hf; simpl; try discriminate.
  intros [= <-].
  revert Hf.
  apply (for_each_invariant
           (fun '(k, pg) s =>
              PdfLoader.chunk_page fuel chunk_size overlap k pg s)
           (fun t => Forall (fun c => exists pg, pg ∈ pages /\ cut_from pg c)
                       (PdfLoader.chunks t))); [|constructor].
  intros [k pg] s s' Hin Hs Hrun.
  eapply char_page_chunks; [|exact Hs|exact Hrun].
  intros c Hc. exists pg. split; [by eapply elem_of_zip_r | done].
Qed.

(** A blank page goes through the character chunker without a chunk. *)
Lemma char_chunker_blank_page fuel pg chunk_size overlap :
  blank (PdfLoader.text_ pg) -> (0 < fuel)%nat ->
  PdfLoader.simple_chunk fuel [pg] chunk_size overlap = Returned [].
Proof.
  intros Hb Hfuel. destruct fuel as [|fuel]; [lia|].
  unfold PdfLoader.simple_chunk, PdfLoader.run, PdfLoader.chunk_page.
  simpl. unfold PdfLoader.body at 1. simpl.
  destruct (0 <? _); [|reflexivity].
  rewrite strip_blank; [reflexivity|].
  eapply blank_substring; [apply py_slice_substring | done].
Qed.

(** *** The word chunkers *)

Lemma py_range_elements start stop step starts i :
  py_range start stop step = Returned starts -> i ∈ starts ->
  0 < step -> start <= i < stop.
Proof.
  unfold py_range. destruct (Z.eqb_spec step 0); [discriminate|].
  intros [= <-] Hi Hstep.
  destruct (Z.ltb_spec 0 step); [|lia].
  apply list_elem_of_fmap in Hi as (j & -> & Hj).
  apply elem_of_seq in Hj.
  assert (Hc : Z.of_nat j < (stop - start + step - 1) / step) by lia.
  assert (Z.of_nat j + 1 <= (stop - start + step - 1) / step) by lia.
  assert (Hm : (Z.of_nat j + 1) * step
               <= ((stop - start + step - 1) / step) * step) by nia.
  pose proof (Z.mul_div_le (stop - start + step - 1) step ltac:(lia)).
  nia.
Qed.

Lemma py_range_negative start stop step starts :
  py_range start stop step = Returned starts -> step < 0 -> start <= stop ->
  starts = [].
Proof.
  unfold py_range. destruct (Z.eqb_spec step 0); [discriminate|].
  intros [= <-] Hstep Hle. destruct (Z.ltb_spec 0 step); [lia|].
  assert (Hneg : (start - stop - step - 1) / (- step) <= 0).
  { destruct (Z.eq_dec start stop) as [-> | Hne].
    - replace (stop - stop - step - 1) with (- step - 1) by lia.
      rewrite Z.div_small; lia.
    - apply Z.lt_succ_r. apply Z.div_lt_upper_bound; lia. }
  destruct ((start - stop - step - 1) / (- step)) eqn:Hq; simpl; try done.
Qed.

Lemma chunk2_chunks texts size chunks :
  RagEngine2.chunk texts size = Returned chunks ->
  Forall (fun c => exists t, t ∈ texts /\ joined_from t c) chunks.
Proof.
  unfold RagEngine2.chunk.
  apply (for_each_invariant _
           (fun cs => Forall (fun c => exists t, t ∈ texts /\ joined_from t c)
                        cs)); [|constructor].
  intros t cs cs' Ht Hcs.
  destruct (py_range 0 _ size) as [starts| |] eqn:Hr; simpl; try discriminate.
  intros [= <-]. apply Forall_app. split; [done|].
  apply List.Forall_forall. intros c Hc.
  apply in_map_iff in Hc as (i & <- & Hi). apply list_elem_of_In in Hi.
  exists t. split; [done|]. split; [|eauto].
  destruct (Z.lt_trichotomy size 0) as [Hneg | [-> | Hpos]].
  - apply py_range_negative in Hr; [|done|lia]. subst. by apply elem_of_nil in Hi.
  - discriminate.
  - pose proof (py_range_elements _ _ _ _ _ Hr Hi Hpos) as Hbound.
    apply join_nonempty.
    + unfold py_slice, clamp_index.
      destruct (Z.ltb_spec i 0); [lia|].
      destruct (Z.ltb_spec (i + size) 0); [lia|].
      intros Hnil. apply (f_equal length) in Hnil.
      rewrite length_take, length_drop in Hnil. simpl in Hnil. lia.
    + destruct (py_slice_substring (split t) i (i + size))
        as (pre & post & Hs).
      pose proof (split_words t) as Hw. rewrite Hs in Hw.
      apply Forall_app in Hw as [_ Hw]. by apply Forall_app in Hw as [Hw _].
Qed.

Lemma chunk2_blank t size :
  blank t -> size <> 0 -> RagEngine2.chunk [t] size = Returned [].
Proof.
  intros Hb Hsize. unfold RagEngine2.chunk. cbn [for_each].
  rewrite (split_blank t Hb). unfold py_range. cbn [length].
  destruct (Z.eqb_spec size 0); [done|].
  destruct (Z.ltb_spec 0 size).
  - replace ((Z.of_nat 0 - 0 + size - 1) / size) with 0; [reflexivity|].
    symmetry. apply Z.div_small. lia.
  - replace ((0 - Z.of_nat 0 - size - 1) / - size) with 0; [reflexivity|].
    symmetry. apply Z.div_small. lia.
Qed.

Lemma word_chunker_chunks fuel t chunk_size overlap chunks :
  WordChunker.simple_chunk fuel t chunk_size overlap = Returned chunks ->
  Forall (joined_from t) chunks.
Proof.
  unfold WordChunker.simple_chunk, WordChunker.run.
  destruct (while fuel _ _) as [r| |] eqn:Hw; simpl; try discriminate.
  intros [= <-]. revert Hw.
  assert (Hbody : forall s s',
            Forall (joined_from t) (WordChunker.chunks s) ->
            (WordChunker.body (split t) chunk_size overlap s = Continue s'
             \/ WordChunker.body (split t) chunk_size overlap s = Break s') ->
            Forall (joined_from t) (WordChunker.chunks s')).
  { intros s s' Hs. unfold WordChunker.body.
    destruct (WordChunker.start s <? _); [|by intros [[=] | [= <-]]].
    set (e := Z.min _ _).
    destruct (truthy (strip (join (txt " ")
                (py_slice (split t) (WordChunker.start s) e)))) eqn:Ht.
    - assert (Hc : joined_from t
                (join (txt " ") (py_slice (split t) (WordChunker.start s) e))).
      { split; [|eauto]. intros Hnil. by rewrite Hnil in Ht. }
      destruct (e =? _); intros [[= <-] | [= <-]]; simpl;
        apply Forall_app; (split; [done | by constructor]).
    - destruct (e =? _); by intros [[= <-] | [= <-]]. }
  apply (while_invariant (WordChunker.body (split t) chunk_size overlap)
           (fun s => Forall (joined_from t) (WordChunker.chunks s))
           (fun s => Forall (joined_from t) (WordChunker.chunks s)));
    [eauto | eauto | constructor].
Qed.

(** C7, as the code has it. Every chunk of the character chunker of
    [pdf_loader.py] is non-empty and its text is a contiguous substring of
    the text of one of the pages. Every chunk of the word chunkers
    ([RAGEngine.chunk] and [simple_chunk] of [rag_engine.py]) is non-empty
    and is a run of consecutive words of one text joined by single spaces.
    A page of whitespace only yields no chunk in either. *)
Theorem chunks_come_from_pages :
  (forall fuel pages chunk_size overlap chunks c,
     PdfLoader.simple_chunk fuel pages chunk_size overlap = Returned chunks ->
     c ∈ chunks ->
     exists pg, pg ∈ pages /\ PdfLoader.text_ c <> []
                /\ substring_of (PdfLoader.text_ c) (PdfLoader.text_ pg))
  /\ (forall fuel pg chunk_size overlap,
        blank (PdfLoader.text_ pg) -> (0 < fuel)%nat ->
        PdfLoader.simple_chunk fuel [pg] chunk_size overlap = Returned [])
  /\ (forall texts size chunks c,
        RagEngine2.chunk texts size = Returned chunks -> c ∈ chunks ->
        exists t, t ∈ texts /\ joined_from t c)
  /\ (forall t size,
        blank t -> size <> 0 -> RagEngine2.chunk [t] size = Returned [])
  /\ (forall fuel t chunk_size overlap chunks c,
        WordChunker.simple_chunk fuel t chunk_size overlap = Returned chunks ->
        c ∈ chunks -> joined_from t c).
Proof.
  split_and!.
  - intros fuel pages chunk_size overlap chunks c Hrun Hc.
    apply char_chunker_chunks in Hrun.
    rewrite Forall_forall in Hrun.
    destruct (Hrun c Hc) as (pg & Hpg & Hne & Hsub). eauto.
  - intros. by apply char_chunker_blank_page.
  - intros texts size chunks c Hrun Hc.
    apply chunk2_chunks in Hrun. rewrite Forall_forall in Hrun. eauto.
  - intros. by apply chunk2_blank.
  - intros fuel t chunk_size overlap chunks c Hrun Hc.
    apply word_chunker_chunks in Hrun. rewrite Forall_forall in Hrun. eauto.
Qed.

Lemma chunks_come_from_pages_witness :
  (forall c,
     c ∈ [PdfLoader.Entry (txt "a.pdf_p1_c0") (txt "a")
            (PdfLoader.Metadata (txt "/docs/a.pdf") 1 (txt "a.pdf"))] ->
     exists pg, pg ∈ [gap_page] /\ PdfLoader.text_ c <> []
                /\ substring_of (PdfLoader.text_ c) (PdfLoader.text_ pg))
  /\ PdfLoader.simple_chunk 1 [page_of "   "] 800 100 = Returned []
  /\ (forall c, c ∈ [txt "a b"; txt "c"] ->
        exists t, t ∈ [txt "a  b
c"] /\ joined_from t c)
  /\ RagEngine2.chunk [txt "  "] 500 = Returned [].
Proof.
  destruct chunks_come_from_pages as (Hchar & Hblank & Hword & Hblank2 & _).
  split_and!.
  - intros c. apply (Hchar 10%nat [gap_page] 2 0). vm_compute. reflexivity.
  - apply Hblank; [|lia]. apply blank_forallb. reflexivity.
  - intros c. apply (Hword _ 2). vm_compute. reflexivity.
  - apply Hblank2; [|lia]. apply blank_forallb. reflexivity.
Defined.

(** C7, as stated, fails for the word chunker: the words of a page are
    joined by single spaces whatever separated them, so the chunk of the
    two-line page below occurs nowhere in the page. *)
Lemma word_chunk_is_not_a_substring :
  RagEngine2.chunk [txt "a
b"] RagEngine2.DEFAULT_SIZE = Returned [txt "a b"]
  /\ ~ substring_of (txt "a b") (txt "a
b")
  /\ WordChunker.simple_chunk 10 (txt "a
b") RagEngine.DEFAULT_CHUNK_SIZE RagEngine.DEFAULT_OVERLAP
     = Returned [txt "a b"].
Proof.
  split_and!; try (vm_compute; reflexivity).
  intros H%is_substring_spec. vm_compute in H. discriminate.
Qed.

(** ** Retrieval *)

(** *** The ranking of the index *)

Lemma insert_hit_perm h l : Permutation (Faiss.insert_hit h l) (h :: l).
Proof.
  induction l as [|h' l IH]; simpl; [done|].
  destruct (h.1 <=? h'.1); [done|].
  rewrite IH. apply perm_swap.
Qed.

Lemma insert_hit_sorted h l :
  Sorted nearer l -> Sorted nearer (Faiss.insert_hit h l).
Proof.
  induction 1 as [|h' l Hl IH Hhd]; simpl.
  - repeat constructor.
  - destruct (Z.leb_spec h.1 h'.1) as [Hle | Hgt].
    + constructor; [by constructor | by constructor].
    + constructor; [done|].
      destruct l as [|h'' l]; simpl.
      * constructor. unfold nearer. lia.
      * destruct (h.1 <=? h''.1).
        -- constructor. unfold nearer. lia.
        -- constructor. by inversion Hhd.
Qed.

Lemma isort_hits_perm l : Permutation (foldr Faiss.insert_hit [] l) l.
Proof.
  induction l as [|h l IH]; simpl; [done|].
  by rewrite insert_hit_perm, IH.
Qed.

Lemma isort_hits_sorted l : Sorted nearer (foldr Faiss.insert_hit [] l).
Proof.
  induction l as [|h l IH]; simpl; [constructor | by apply insert_hit_sorted].
Qed.

Lemma Sorted_take {A} (R : A -> A -> Prop) k l :
  Sorted R l -> Sorted R (take k l).
Proof.
  intros Hl. revert k. induction Hl as [|x l Hl IH Hhd]; intros [|k]; simpl;
    try constructor.
  - apply IH.
  - destruct Hhd as [|y l' Hxy]; [destruct k; constructor|].
    destruct k; simpl; by constructor.
Qed.

Lemma enumerate_lookup {A} (xs : list A) i :
  enumerate xs !! i = (fun x => (Z.of_nat i, x)) <$> xs !! i.
Proof.
  unfold enumerate. rewrite lookup_zip_with.
  rewrite list_lookup_fmap.
  destruct (xs !! i) as [x|] eqn:Hx.
  - rewrite lookup_seq_lt by (by eapply lookup_lt_Some). done.
  - simpl. by destruct (seq 0 (length xs) !! i).
Qed.

Lemma enumerate_fst {A} (xs : list A) :
  (enumerate xs).*1 = map Z.of_nat (seq 0 (length xs)).
Proof. unfold enumerate. apply fst_zip. by rewrite length_map, length_seq. Qed.

(** The hits of a query against an index: the index positions, each once,
    each with its distance. *)
Lemma ranked_perm idx q :
  Permutation (Faiss.ranked idx q)
    (map (fun '(i, x) => (Faiss.l2sq q x, i)) (enumerate (Faiss.xb idx))).
Proof. apply isort_hits_perm. Qed.

Lemma ranked_length idx q :
  length (Faiss.ranked idx q) = length (Faiss.xb idx).
Proof.
  rewrite (Permutation_length (ranked_perm idx q)), length_map.
  unfold enumerate. rewrite length_zip_with_r_eq; [done|].
  by rewrite length_map, length_seq.
Qed.

Lemma ranked_labels idx q :
  Permutation (Faiss.ranked idx q).*2
    (map Z.of_nat (seq 0 (length (Faiss.xb idx)))).
Proof.
  rewrite (ranked_perm idx q). rewrite <- enumerate_fst.
  assert (Heq : forall l : list (Z * Faiss.vec),
            (map (fun '(i, x) => (Faiss.l2sq q x, i)) l).*2 = l.*1).
  { induction l as [|[i x] l IH]; [done|]. cbn. f_equal. apply IH. }
  by rewrite Heq.
Qed.

Lemma ranked_nodup idx q : NoDup (Faiss.ranked idx q).*2.
Proof.
  rewrite ranked_labels. apply NoDup_fmap_2; [apply _ | apply NoDup_seq].
Qed.

Lemma ranked_hit idx q h :
  h ∈ Faiss.ranked idx q ->
  0 <= h.2 /\ exists x, Faiss.xb idx !! Z.to_nat h.2 = Some x
                       /\ h.1 = Faiss.l2sq q x.
Proof.
  rewrite (ranked_perm idx q). intros Hh.
  apply list_elem_of_fmap in Hh as ([i x] & -> & Hin).
  apply list_elem_of_lookup in Hin as [j Hj].
  rewrite enumerate_lookup in Hj.
  destruct (Faiss.xb idx !! j) as [y|] eqn:Hy; [|discriminate].
  injection Hj as <- <-. simpl. split; [lia|].
  exists y. by rewrite Nat2Z.id.
Qed.

(** *** RAGEngine.query *)

(** The label filter of [query]: [chunks[idx]] if [0 <= idx < len(chunks)]. *)
Lemma omap_padding {A} (f : Z -> option A) pad :
  f (-1) = None -> omap f (replicate pad (-1)) = [].
Proof. intros Hf. induction pad as [|pad IH]; simpl; [done|by rewrite Hf]. Qed.

Lemma omap_labels {A} (f : Z -> option A) (hits : list Faiss.hit) :
  (forall h, h ∈ hits -> is_Some (f h.2)) ->
  exists selected,
    omap f hits.*2 = selected
    /\ length selected = length hits
    /\ forall i h, hits !! i = Some h -> selected !! i = f h.2.
Proof.
  induction hits as [|h hits IH]; intros Hvalid.
  - exists []. by split_and!.
  - destruct IH as (sel & Hsel & Hlen & Hlook).
    { intros h' Hh'. apply Hvalid. by right. }
    destruct (Hvalid h) as [c Hc]; [by left|].
    exists (c :: sel). cbn. rewrite Hc, Hsel. split; [done|].
    split; [simpl; lia|].
    intros [|i] h'; simpl; [by intros [= <-] | apply Hlook].
Qed.

(** For a collection stored by [build_index] and [top_k >= 1], [query]
    returns [min(top_k, n)] chunks, nearest first: the [i]-th chunk is the
    one at the position of the [i]-th hit, the hits are at distinct
    positions and their distances to the question do not decrease. *)
Lemma query_selects_nearest encode name question top_k self data :
  RagEngine.indexes self !! name = Some data ->
  built encode data ->
  1 <= top_k ->
  let n := length (RagEngine.chunks data) in
  let q := encode (SStr question) in
  exists hits selected,
    (RagEngine.query encode name question top_k self).2
      = Returned (join RagEngine.SEPARATOR selected, selected)
    /\ length selected = Nat.min (Z.to_nat top_k) n
    /\ length hits = length selected
    /\ Sorted nearer hits
    /\ NoDup hits.*2
    /\ forall i h, hits !! i = Some h ->
         exists c, selected !! i = Some c
                   /\ RagEngine.chunks data !! Z.to_nat h.2 = Some c
                   /\ 0 <= h.2
                   /\ h.1 = Faiss.l2sq q (encode (SStr c)).
Proof.
  intros Hdata [Hemb Hxb] Hk n q.
  set (ranked := Faiss.ranked (RagEngine.index data) q).
  set (hits := take (Z.to_nat top_k) ranked).
  set (f := fun idx : Z =>
              if (0 <=? idx) && (idx <? Z.of_nat n)
              then RagEngine.chunks data !! Z.to_nat idx else None).
  assert (Hlenxb : length (Faiss.xb (RagEngine.index data)) = n).
  { by rewrite Hxb, Hemb, length_map. }
  assert (Hhit : forall h, h ∈ hits ->
            0 <= h.2 /\ exists c,
              RagEngine.chunks data !! Z.to_nat h.2 = Some c
              /\ h.1 = Faiss.l2sq q (encode (SStr c))).
  { intros h Hh. apply elem_of_take in Hh as (i & Hi & _).
    apply list_elem_of_lookup_2 in Hi.
    apply ranked_hit in Hi as (Hpos & x & Hx & Hd). split; [done|].
    rewrite Hxb, Hemb, list_lookup_fmap in Hx.
    destruct (RagEngine.chunks data !! Z.to_nat h.2) as [c|]; [|done].
    injection Hx as <-. eauto. }
  assert (Hf : forall h, h ∈ hits ->
            f h.2 = RagEngine.chunks data !! Z.to_nat h.2
            /\ is_Some (f h.2)).
  { intros h Hh. destruct (Hhit h Hh) as (Hpos & c & Hc & _).
    pose proof (lookup_lt_Some _ _ _ Hc) as Hlt. fold n in Hlt.
    unfold f. destruct (Z.leb_spec 0 h.2); [|lia].
    destruct (Z.ltb_spec h.2 (Z.of_nat n)); [|lia]. simpl. by rewrite Hc. }
  destruct (omap_labels f hits) as (selected & Hsel & Hlen & Hlook).
  { intros h Hh. by apply Hf. }
  exists hits, selected. split_and!.
  - rewrite query_unfold, Hdata. cbn [snd]. unfold Faiss.search.
    destruct (Z.leb_spec top_k 0); [lia|]. cbn.
    fold q ranked hits. fold n. fold f.
    change (map snd hits) with (hits.*2).
    rewrite omap_app, omap_padding, app_nil_r, Hsel; [done|].
    unfold f. simpl. done.
  - rewrite Hlen. unfold hits. rewrite length_take.
    unfold ranked. by rewrite ranked_length, Hlenxb.
  - done.
  - apply Sorted_take, isort_hits_sorted.
  - unfold hits. rewrite fmap_take.
    eapply sublist_NoDup; [apply ranked_nodup | apply sublist_take].
  - intros i h Hi.
    assert (Hin : h ∈ hits) by (by eapply list_elem_of_lookup_2).
    destruct (Hhit h Hin) as (Hpos & c & Hc & Hd).
    destruct (Hf h Hin) as [Hfh _].
    exists c. rewrite (Hlook i h Hi), Hfh. done.
Qed.

(** [build_index] stores collections that are [built]. *)
Lemma build_index_built os encode fuel name folder self self' count :
  RagEngine.build_index os encode fuel name folder self
    = (self', Returned count) ->
  exists data,
    RagEngine.indexes self' !! name = Some data
    /\ built encode data
    /\ count = Z.of_nat (length (RagEngine.chunks data))
    /\ RagEngine.chunks data <> [].
Proof.
  rewrite rag_build_unfold. cbv zeta.
  repeat (case_match; try discriminate).
  intros [= <- <-]. eexists. cbn [RagEngine.indexes].
  rewrite lookup_insert_eq.
  split; [reflexivity|]. split; [by split|]. split; [done|].
  by apply truthy_true.
Qed.

(** After a successful [build_index] that stored [count] chunks, [query]
    with [top_k >= 1] returns [min(top_k, count)] chunks. *)
Lemma query_after_build
    os encode fuel name folder self self' count question top_k :
  RagEngine.build_index os encode fuel name folder self
    = (self', Returned count) ->
  1 <= top_k ->
  exists selected,
    (RagEngine.query encode name question top_k self').2
      = Returned (join RagEngine.SEPARATOR selected, selected)
    /\ Z.of_nat (length selected) = Z.min top_k count.
Proof.
  intros Hbuild Hk.
  destruct (build_index_built _ _ _ _ _ _ _ _ Hbuild)
    as (data & Hdata & Hbuilt & -> & _).
  destruct (query_selects_nearest encode name question top_k self' data
              Hdata Hbuilt Hk) as (hits & selected & Hq & Hlen & _).
  exists selected. split; [done|]. lia.
Qed.

(** *** Retrieval without chunks *)

(** C9, as the code has it. [RAGEngine.answer] has no note for a missing
    context, and on a collection stored by [build_index] retrieval never
    comes back empty-handed. With [top_k <= 0] the similarity index
    rejects the request: [answer] raises [AssertionError] and the backend is
    not called. With [top_k >= 1] [query] selects at least one chunk, and
    [answer] is one call of the backend with the usual prompt around
    them. *)
Theorem answer_has_context_or_raises
    (os : os_env) (encode : sentence -> Faiss.vec)
    (requests_post : LlmClient.request -> outcome LlmClient.response)
    (fuel : nat) (name folder : text) (self self' : RagEngine.t) (count : Z)
    (question : text) (top_k : Z) :
  RagEngine.build_index os encode fuel name folder self
    = (self', Returned count) ->
  (top_k <= 0 ->
     RagEngine.answer encode requests_post name question top_k self'
     = (self', Raised (Exn AssertionError [])))
  /\ (1 <= top_k ->
      exists selected,
        selected <> []
        /\ RagEngine.query encode name question top_k self'
           = (self', Returned (join RagEngine.SEPARATOR selected, selected))
        /\ RagEngine.answer encode requests_post name question top_k self'
           = (self',
              LlmClient.call_ollama requests_post
                (RagEngine.make_prompt question
                   (join RagEngine.SEPARATOR selected))
                LlmClient.OLLAMA_MODEL_NAME)).
Proof.
  intros Hbuild. split.
  - intros Hk.
    destruct (build_index_built _ _ _ _ _ _ _ _ Hbuild)
      as (data & Hdata & _).
    rewrite answer_unfold, query_unfold, Hdata. cbn [snd].
    unfold Faiss.search. destruct (Z.leb_spec top_k 0); [done|lia].
  - intros Hk.
    destruct (query_after_build _ _ _ _ _ _ _ _ question top_k Hbuild Hk)
      as (selected & Hq & Hlen).
    destruct (build_index_built _ _ _ _ _ _ _ _ Hbuild)
      as (data & _ & _ & Hcount & Hne).
    exists selected. split_and!.
    + intros ->. destruct (RagEngine.chunks data); [done|].
      simpl in Hlen, Hcount. lia.
    + rewrite query_unfold. rewrite query_unfold in Hq. cbn [snd] in Hq.
      by f_equal.
    + by rewrite answer_unfold, Hq.
Qed.

Lemma answer_has_context_or_raises_witness :
  RagEngine.answer demo_encode timeout_backend (txt "docs")
    (txt "What are cats?") 0 docs_engine
  = (docs_engine, Raised (Exn AssertionError []))
  /\ exists selected,
       selected <> []
       /\ RagEngine.query demo_encode (txt "docs") (txt "What are cats?") 1
            docs_engine
          = (docs_engine,
             Returned (join RagEngine.SEPARATOR selected, selected))
       /\ RagEngine.answer demo_encode timeout_backend (txt "docs")
            (txt "What are cats?") 1 docs_engine
          = (docs_engine,
             LlmClient.call_ollama timeout_backend
               (RagEngine.make_prompt (txt "What are cats?")
                  (join RagEngine.SEPARATOR selected))
               LlmClient.OLLAMA_MODEL_NAME).
Proof.
  split.
  - apply (proj1 (answer_has_context_or_raises
                    (two_pdf_os [txt "b.pdf"; txt "a.pdf"]) demo_encode
                    timeout_backend 30 (txt "docs") (txt "/docs")
                    RagEngine.init docs_engine 2 (txt "What are cats?") 0
                    ltac:(vm_compute; reflexivity))).
    lia.
  - apply (proj2 (answer_has_context_or_raises
                    (two_pdf_os [txt "b.pdf"; txt "a.pdf"]) demo_encode
                    timeout_backend 30 (txt "docs") (txt "/docs")
                    RagEngine.init docs_engine 2 (txt "What are cats?") 1
                    ltac:(vm_compute; reflexivity))).
    lia.
Defined.

(** C9, as stated, fails. On the collection that [build_index] stores for
    the two-PDF folder, [answer] with [top_k = 0] raises [AssertionError]
    whatever the backend is: it fails, and the backend is not called. The
    prompt template has no place for a note either: around an empty
    context it is the usual text, which nowhere says that no context is
    available, and that is what the backend gets for a collection without
    chunks, which only a caller that writes to [indexes] itself can
    register. *)
Lemma answer_with_top_k_zero_raises :
  let question := txt "What are cats?" in
  let prompt := RagEngine.make_prompt question [] in
  RagEngine.has_index (txt "docs") docs_engine = true
  /\ (forall requests_post,
        RagEngine.answer demo_encode requests_post (txt "docs") question 0
          docs_engine
        = (docs_engine, Raised (Exn AssertionError [])))
  /\ (forall requests_post,
        RagEngine.answer demo_encode requests_post (txt "void") question 5
          void_engine
        = (void_engine,
           LlmClient.call_ollama requests_post prompt
             LlmClient.OLLAMA_MODEL_NAME))
  /\ prompt = RagEngine.prompt_head ++ question ++ txt "

[CONTEXT]


Now provide a clear, detailed, well-structured answer grounded in this context.
"
  /\ ~ substring_of (txt "no context") (lower prompt)
  /\ ~ substring_of (txt "available") (lower prompt).
Proof.
  intros question prompt.
  assert (Hq1 : (RagEngine.query demo_encode (txt "docs") question 0
                   docs_engine).2 = Raised (Exn AssertionError []))
    by (vm_compute; reflexivity).
  assert (Hq2 : (RagEngine.query demo_encode (txt "void") question 5
                   void_engine).2 = Returned ([], []))
    by (vm_compute; reflexivity).
  split; [vm_compute; reflexivity|].
  split; [intros rp; by rewrite answer_unfold, Hq1|].
  split; [intros rp; by rewrite answer_unfold, Hq2|].
  split; [reflexivity|]. split.
  - intros H%is_substring_spec. vm_compute in H. discriminate.
  - intros H%is_substring_spec. vm_compute in H. discriminate.
Qed.

(** *** VectorStore.search *)

(** C1 on [VectorStore.search]: a store built from three chunks and asked
    for five results returns five entries, not [min(5, 3) = 3]: faiss fills
    the two missing labels with [-1], and [self.texts[-1]] is the last
    chunk, which comes back three times. [RAGEngine.query] on the same
    chunks drops the [-1] labels and returns the three chunks. *)
Theorem vector_store_search_pads_with_last_chunk :
  let chunks := [txt "a"; txt "bbb"; txt "cc"] in
  let store := (VectorStore.build demo_encode (map SStr chunks)
                  VectorStore.init).1 in
  let engine := RagEngine.Engine
                  {[ txt "abc" := collection_of demo_encode chunks ]} in
  (VectorStore.search demo_encode (txt "q") 5 store).2
    = Returned [SStr (txt "a"); SStr (txt "cc"); SStr (txt "bbb");
                SStr (txt "cc"); SStr (txt "cc")]
  /\ Faiss.search (Faiss.add (Faiss.new 1) (map demo_encode (map SStr chunks)))
       (demo_encode (SStr (txt "q"))) 5
     = Returned ([0; 1; 4; Faiss.FLT_MAX; Faiss.FLT_MAX], [0; 2; 1; -1; -1])
  /\ (RagEngine.query demo_encode (txt "abc") (txt "q") 5 engine).2
     = Returned (join RagEngine.SEPARATOR [txt "a"; txt "cc"; txt "bbb"],
                 [txt "a"; txt "cc"; txt "bbb"]).
Proof. split_and!; vm_compute; reflexivity. Qed.

(** ** Rebuilding an index *)

(** *** The order of [str] and [sorted] *)

Lemma N_of_ascii_inj x y : N_of_ascii x = N_of_ascii y -> x = y.
Proof.
  intros H. rewrite <- (ascii_N_embedding x), <- (ascii_N_embedding y).
  by rewrite H.
Qed.

#[local] Instance text_le_trans : Transitive text_le.
Proof.
  unfold text_le. intros a. induction a as [|x a IH]; intros b c; [done|].
  destruct b as [|y b]; [done|]. destruct c as [|z c]; [done|]. simpl.
  destruct (N.ltb_spec (N_of_ascii x) (N_of_ascii y)) as [Hxy | Hxy].
  - intros _.
    destruct (N.ltb_spec (N_of_ascii y) (N_of_ascii z)) as [Hyz | Hyz].
    + intros _. destruct (N.ltb_spec (N_of_ascii x) (N_of_ascii z)); [done|lia].
    + destruct (N.eqb_spec (N_of_ascii y) (N_of_ascii z)) as [Heq | Hne];
        [|done].
      intros _. destruct (N.ltb_spec (N_of_ascii x) (N_of_ascii z)); [done|lia].
  - destruct (N.eqb_spec (N_of_ascii x) (N_of_ascii y)) as [Heq | Hne];
      [|done].
    rewrite Heq. intros Hab.
    destruct (N.ltb_spec (N_of_ascii y) (N_of_ascii z)); [done|].
    destruct (N.eqb_spec (N_of_ascii y) (N_of_ascii z)); [|done].
    by apply IH.
Qed.

#[local] Instance text_le_antisym : AntiSymm (=) text_le.
Proof.
  unfold text_le. intros a. induction a as [|x a IH]; intros b.
  - by destruct b.
  - destruct b as [|y b]; [done|]. simpl.
    destruct (N.ltb_spec (N_of_ascii x) (N_of_ascii y)) as [Hxy | Hxy].
    + destruct (N.ltb_spec (N_of_ascii y) (N_of_ascii x)); [lia|].
      destruct (N.eqb_spec (N_of_ascii y) (N_of_ascii x)); [lia|done].
    + destruct (N.eqb_spec (N_of_ascii x) (N_of_ascii y)) as [Heq | Hne];
        [|done].
      rewrite Heq, N.ltb_irrefl, N.eqb_refl. intros Hab Hba.
      f_equal; [by apply N_of_ascii_inj | by apply IH].
Qed.

Lemma text_leb_total a b : text_leb a b = true \/ text_leb b a = true.
Proof.
  revert b. induction a as [|x a IH]; intros b; [by left|].
  destruct b as [|y b]; [by right|]. simpl.
  destruct (N.ltb_spec (N_of_ascii x) (N_of_ascii y)); [by left|].
  destruct (N.ltb_spec (N_of_ascii y) (N_of_ascii x)); [by right|].
  assert (Heq : N_of_ascii x = N_of_ascii y) by lia.
  rewrite Heq, N.eqb_refl. apply IH.
Qed.

Lemma insert_sorted_perm x l : Permutation (insert_sorted x l) (x :: l).
Proof.
  induction l as [|y l IH]; simpl; [done|].
  destruct (text_leb x y); [done|]. rewrite IH. apply perm_swap.
Qed.

Lemma insert_sorted_sorted x l :
  Sorted text_le l -> Sorted text_le (insert_sorted x l).
Proof.
  induction 1 as [|y l Hl IH Hhd]; simpl.
  - repeat constructor.
  - destruct (text_leb x y) eqn:Hxy.
    + constructor; [by constructor | by constructor].
    + assert (Hyx : text_le y x).
      { destruct (text_leb_total x y) as [H | H]; [congruence | done]. }
      constructor; [done|].
      destruct l as [|z l]; simpl; [by constructor|].
      destruct (text_leb x z); constructor; [done|]. by inversion Hhd.
Qed.

Lemma sorted_perm l : Permutation (sorted l) l.
Proof.
  unfold sorted. induction l as [|x l IH]; simpl; [done|].
  by rewrite insert_sorted_perm, IH.
Qed.

Lemma sorted_sorted l : Sorted text_le (sorted l).
Proof.
  unfold sorted. induction l as [|x l IH]; simpl;
    [constructor | by apply insert_sorted_sorted].
Qed.

(** [sorted] does not depend on the order of its argument. *)
Lemma sorted_permutation l1 l2 :
  Permutation l1 l2 -> sorted l1 = sorted l2.
Proof.
  intros Hp. apply (Sorted_unique text_le); [apply sorted_sorted..|].
  by rewrite !sorted_perm.
Qed.

(** *** Listing and loading *)

Lemma for_each_appends {A B} (g : A -> option B)
    (body : A -> list B -> outcome (list B)) xs acc :
  (forall x s, body x s = Returned (s ++ option_list (g x))) ->
  for_each xs body acc = Returned (acc ++ omap g xs).
Proof.
  intros Hbody. revert acc.
  induction xs as [|x xs IH]; intros acc; cbn [for_each].
  - by rewrite app_nil_r.
  - rewrite Hbody. simpl. rewrite IH. cbn [omap list_omap].
    destruct (g x); simpl; by rewrite <- ?app_assoc, ?app_nil_r.
Qed.

Lemma list_pdfs_loop os folder names acc :
  for_each names
    (fun name pdfs =>
       if endswith (lower name) (txt ".pdf")
       then let full := path_join folder name in
            if isfile os full then mret (pdfs ++ [full]) else mret pdfs
       else mret pdfs) acc
  = Returned (acc ++ omap (pdf_path os folder) names).
Proof.
  apply for_each_appends. intros name pdfs. unfold pdf_path.
  destruct (endswith (lower name) (txt ".pdf")); cbv zeta.
  - destruct (isfile os (path_join folder name)); simpl;
      by rewrite ?app_nil_r.
  - simpl. by rewrite app_nil_r.
Qed.

Lemma list_pdfs_unfold os folder :
  PdfLoader.list_pdfs os folder =
  let folder := abspath os folder in
  if isdir os folder then
    names ← listdir os folder;
    mret (sorted (omap (pdf_path os folder) names))
  else raise ValueError
         (txt "Folder does not exist or is not a directory: " ++ folder).
Proof.
  unfold PdfLoader.list_pdfs. cbv zeta.
  destruct (isdir os (abspath os folder)); [|reflexivity]. simpl.
  destruct (listdir os (abspath os folder)) as [names| |]; [|reflexivity..].
  simpl. by rewrite list_pdfs_loop.
Qed.

Lemma for_each_ext {A S} (body1 body2 : A -> S -> outcome S) xs s :
  (forall x t, body1 x t = body2 x t) ->
  for_each xs body1 s = for_each xs body2 s.
Proof.
  intros Hext. revert s. induction xs as [|x xs IH]; intros s; simpl; [done|].
  rewrite Hext. destruct (body2 x s); simpl; [apply IH | done..].
Qed.

(** The sorted list of PDFs does not depend on the order of the directory
    listing. *)
Lemma list_pdfs_same_folder os1 os2 folder :
  same_folder os1 os2 ->
  PdfLoader.list_pdfs os1 folder = PdfLoader.list_pdfs os2 folder.
Proof.
  intros [Habs Hdir Hfile Hreader Hlist]. rewrite !list_pdfs_unfold. cbv zeta.
  rewrite <- Habs, <- Hdir.
  destruct (isdir os1 (abspath os1 folder)); [|done].
  specialize (Hlist (abspath os1 folder)). unfold listing_equiv in Hlist.
  destruct (listdir os1 (abspath os1 folder)) as [l1|e1|],
           (listdir os2 (abspath os1 folder)) as [l2|e2|]; try done.
  - simpl. f_equal. apply sorted_permutation.
    assert (Hext : forall name,
              pdf_path os1 (abspath os1 folder) name
              = pdf_path os2 (abspath os1 folder) name).
    { intros name. unfold pdf_path. by rewrite Hfile. }
    rewrite (list_omap_ext _ (pdf_path os2 (abspath os1 folder)) l1 l1)
      by (apply Forall2_same_length_lookup_2; [done|];
          intros i x y Hx Hy; rewrite Hext; congruence).
    by apply omap_Permutation.
  - simpl. by subst.
Qed.

Lemma load_pdfs_same_folder os1 os2 folder :
  same_folder os1 os2 ->
  PdfLoader.load_pdfs_from_folder os1 folder
  = PdfLoader.load_pdfs_from_folder os2 folder.
Proof.
  intros Hsame. unfold PdfLoader.load_pdfs_from_folder, PdfLoader.load_pdfs.
  rewrite (list_pdfs_same_folder os1 os2 folder Hsame).
  destruct (PdfLoader.list_pdfs os2 folder) as [paths| |]; [|done..].
  simpl. destruct (truthy paths); [|done]. simpl.
  apply for_each_ext. intros path pages.
  by rewrite (sf_reader _ _ Hsame).
Qed.

(** X27. Rebuilding with [AutoResearcher.build_index] is deterministic
    and idempotent. For two runs on the same folder, even if [os.listdir]
    enumerates it in different orders, the outcome and the registry are the
    same and the chunk id sequences are identical; a second successful build
    under the same name leaves the registry as the first one left it. *)
Theorem rebuild_is_deterministic
    (os1 os2 : os_env) (encode : sentence -> Faiss.vec) (fuel : nat)
    (name folder : text) :
  same_folder os1 os2 ->
  (forall self,
     Orchestrator.build_index os1 encode fuel name folder self
     = Orchestrator.build_index os2 encode fuel name folder self)
  /\ built_chunk_ids os1 fuel folder = built_chunk_ids os2 fuel folder
  /\ (forall self self1,
        Orchestrator.build_index os1 encode fuel name folder self
          = (self1, Returned tt) ->
        Orchestrator.build_index os2 encode fuel name folder self1
          = (self1, Returned tt)).
Proof.
  intros Hsame.
  pose proof (load_pdfs_same_folder os1 os2 folder Hsame) as Hload.
  assert (Hbuild : forall self,
            Orchestrator.build_index os1 encode fuel name folder self
            = Orchestrator.build_index os2 encode fuel name folder self).
  { intros self. by rewrite !orchestrator_build_unfold, Hload. }
  split; [done|]. split.
  - unfold built_chunk_ids. by rewrite Hload.
  - intros self self1. rewrite <- Hbuild, !orchestrator_build_unfold.
    repeat (case_match; try discriminate).
    intros [= <-]. cbn [Orchestrator.indexes Orchestrator.vectorstores].
    by rewrite !insert_insert_eq.
Qed.

Lemma two_pdf_same_folder l1 l2 :
  Permutation l1 l2 -> same_folder (two_pdf_os l1) (two_pdf_os l2).
Proof.
  intros Hp. split; intros p; try reflexivity.
  unfold two_pdf_os. cbn [listdir].
  destruct (text_eqb p (txt "/docs")); [exact Hp | reflexivity].
Qed.

Lemma rebuild_is_deterministic_witness :
  let os1 := two_pdf_os [txt "b.pdf"; txt "a.pdf"] in
  let os2 := two_pdf_os [txt "a.pdf"; txt "b.pdf"] in
  Orchestrator.build_index os1 demo_encode 30 (txt "pets") (txt "/docs")
    Orchestrator.init
  = Orchestrator.build_index os2 demo_encode 30 (txt "pets") (txt "/docs")
      Orchestrator.init
  /\ built_chunk_ids os1 30 (txt "/docs") = built_chunk_ids os2 30 (txt "/docs")
  /\ built_chunk_ids os2 30 (txt "/docs")
     = Returned [txt "a.pdf_p1_c0"; txt "b.pdf_p1_c1"].
Proof.
  intros os1 os2.
  destruct (rebuild_is_deterministic os1 os2 demo_encode 30 (txt "pets")
              (txt "/docs")) as (Hbuild & Hids & _).
  - apply two_pdf_same_folder, perm_swap.
  - split; [apply Hbuild|]. split; [exact Hids|].
    vm_compute. reflexivity.
Defined.

(** C6 on [RAGEngine.build_index]: [RAGEngine.list_pdfs] of
    [rag_engine.py] does not sort, so the chunks of a build follow the order
    in which [os.listdir] enumerates the folder. Two builds of the same two
    PDFs, enumerated as [b.pdf, a.pdf] and as [a.pdf, b.pdf], store the same
    chunks in different orders. [list_pdfs] of [pdf_loader.py] sorts the
    same listing, and the chunk ids of [AutoResearcher.build_index] are the
    same for both. *)
Theorem rag_engine_follows_listing_order :
  let os1 := two_pdf_os [txt "b.pdf"; txt "a.pdf"] in
  let os2 := two_pdf_os [txt "a.pdf"; txt "b.pdf"] in
  let chunks_of os :=
    RagEngine.chunks <$>
      (RagEngine.build_index os demo_encode 30 (txt "pets") (txt "/docs")
         RagEngine.init).1.(RagEngine.indexes) !! txt "pets" in
  same_folder os1 os2
  /\ chunks_of os1
     = Some [txt "Dogs are mammals too."; txt "Cats are mammals."]
  /\ chunks_of os2
     = Some [txt "Cats are mammals."; txt "Dogs are mammals too."]
  /\ RagEngine.list_pdfs os1 (txt "/docs")
     = Returned [txt "/docs/b.pdf"; txt "/docs/a.pdf"]
  /\ PdfLoader.list_pdfs os1 (txt "/docs")
     = Returned [txt "/docs/a.pdf"; txt "/docs/b.pdf"]
  /\ built_chunk_ids os1 30 (txt "/docs")
     = Returned [txt "a.pdf_p1_c0"; txt "b.pdf_p1_c1"]
  /\ built_chunk_ids os2 30 (txt "/docs")
     = Returned [txt "a.pdf_p1_c0"; txt "b.pdf_p1_c1"].
Proof.
  split_and!; try (vm_compute; reflexivity).
  apply two_pdf_same_folder, perm_swap.
Qed.

(** * Further properties *)

(** ** rag_engine.py: the registry *)

(** X1. [query] and [answer] on a name that is not registered raise the
    "not found" [ValueError], leave the engine as it is, and [answer] does
    not go to the backend; on a registered name [query] returns for
    [top_k >= 1], and for [top_k <= 0] it raises the [AssertionError] of the
    similarity index. *)
Theorem query_needs_a_registered_name
    (encode : sentence -> Faiss.vec)
    (requests_post : LlmClient.request -> outcome LlmClient.response)
    (name question : text) (top_k : Z) (self : RagEngine.t) :
  (RagEngine.has_index name self = false ->
     let not_found :=
       Exn ValueError
         (txt "Index '" ++ name ++ txt "' not found. Build it first.") in
     RagEngine.query encode name question top_k self
       = (self, Raised not_found)
     /\ RagEngine.answer encode requests_post name question top_k self
       = (self, Raised not_found))
  /\ (RagEngine.has_index name self = true ->
      (1 <= top_k ->
       exists context selected,
         RagEngine.query encode name question top_k self
           = (self, Returned (context, selected)))
      /\ (top_k <= 0 ->
          RagEngine.query encode name question top_k self
            = (self, Raised (Exn AssertionError [])))).
Proof.
  unfold RagEngine.has_index. split.
  - intros Hno. apply bool_decide_eq_false in Hno.
    assert (Hnone : RagEngine.indexes self !! name = None).
    { destruct (RagEngine.indexes self !! name) eqn:H; [|done].
      destruct Hno. eauto. }
    cbv zeta. rewrite answer_unfold, query_unfold, Hnone. done.
  - intros [data Hdata]%bool_decide_eq_true.
    rewrite query_unfold, Hdata. unfold Faiss.search.
    split; intros Hk; destruct (Z.leb_spec top_k 0); try lia; simpl; eauto.
Qed.

Lemma query_needs_a_registered_name_witness :
  RagEngine.query demo_encode (txt "dogs") (txt "q") 5 pets_engine
    = (pets_engine,
       Raised (Exn ValueError (txt "Index 'dogs' not found. Build it first.")))
  /\ (exists context selected,
        RagEngine.query demo_encode (txt "pets") (txt "q") 5 pets_engine
          = (pets_engine, Returned (context, selected)))
  /\ RagEngine.query demo_encode (txt "pets") (txt "q") 0 pets_engine
     = (pets_engine, Raised (Exn AssertionError [])).
Proof.
  split_and!.
  - apply (proj1 (query_needs_a_registered_name demo_encode timeout_backend
                    (txt "dogs") (txt "q") 5 pets_engine)).
    vm_compute. reflexivity.
  - apply (proj1 (proj2 (query_needs_a_registered_name demo_encode
                           timeout_backend (txt "pets") (txt "q") 5
                           pets_engine)
                    ltac:(vm_compute; reflexivity))).
    lia.
  - apply (proj2 (proj2 (query_needs_a_registered_name demo_encode
                           timeout_backend (txt "pets") (txt "q") 0
                           pets_engine)
                    ltac:(vm_compute; reflexivity))).
    lia.
Defined.

(** X2. A successful [build_index] registers the collection under [name]
    and touches no other name: the count it returns is the number of stored
    chunks, which is at least one, there is one embedding per chunk, and the
    index holds exactly these embeddings. *)
Theorem build_index_registers_collection
    (os : os_env) (encode : sentence -> Faiss.vec) (fuel : nat)
    (name folder : text) (self self' : RagEngine.t) (count : Z) :
  RagEngine.build_index os encode fuel name folder self
    = (self', Returned count) ->
  RagEngine.has_index name self' = true
  /\ (forall other, other <> name ->
        RagEngine.indexes self' !! other = RagEngine.indexes self !! other)
  /\ exists data,
       RagEngine.indexes self' !! name = Some data
       /\ count = Z.of_nat (length (RagEngine.chunks data))
       /\ 1 <= count
       /\ RagEngine.embeddings data
          = map (fun c => encode (SStr c)) (RagEngine.chunks data)
       /\ Faiss.xb (RagEngine.index data) = RagEngine.embeddings data.
Proof.
  intros Hbuild.
  destruct (build_index_built _ _ _ _ _ _ _ _ Hbuild)
    as (data & Hdata & [Hemb Hxb] & Hcount & Hne).
  split; [|split].
  - unfold RagEngine.has_index. apply bool_decide_eq_true. eauto.
  - intros other Hother. revert Hbuild. rewrite rag_build_unfold. cbv zeta.
    repeat (case_match; try discriminate).
    intros [= <- _]. cbn [RagEngine.indexes]. by rewrite lookup_insert_ne.
  - exists data. split_and!; try done.
    subst count. destruct (RagEngine.chunks data); [done | simpl; lia].
Qed.

Lemma build_index_registers_collection_witness :
  let os := two_pdf_os [txt "b.pdf"; txt "a.pdf"] in
  RagEngine.has_index (txt "docs")
    (RagEngine.build_index os demo_encode 30 (txt "docs") (txt "/docs")
       pets_engine).1 = true
  /\ forall other, other <> txt "docs" ->
       RagEngine.indexes
         (RagEngine.build_index os demo_encode 30 (txt "docs") (txt "/docs")
            pets_engine).1 !! other
       = RagEngine.indexes pets_engine !! other.
Proof.
  intros os.
  destruct (build_index_registers_collection os demo_encode 30 (txt "docs")
              (txt "/docs") pets_engine
              (RagEngine.build_index os demo_encode 30 (txt "docs")
                 (txt "/docs") pets_engine).1 2) as (Hhas & Hother & _).
  - vm_compute. reflexivity.
  - split; [exact Hhas | exact Hother].
Defined.

(** ** rag_engine.py: retrieval *)

#[local] Instance nearer_trans : Transitive nearer.
Proof. unfold nearer. intros a b c. lia. Qed.

Lemma ranked_prefix_nearest idx q k h h' :
  h ∈ take k (Faiss.ranked idx q) -> h' ∈ drop k (Faiss.ranked idx q) ->
  h.1 <= h'.1.
Proof.
  intros Hh Hh'.
  pose proof (isort_hits_sorted
                (map (fun '(i, x) => (Faiss.l2sq q x, i))
                   (enumerate (Faiss.xb idx)))) as Hs.
  change (Sorted nearer (Faiss.ranked idx q)) in Hs.
  apply Sorted_StronglySorted in Hs; [|apply _].
  rewrite <- (take_drop k (Faiss.ranked idx q)) in Hs.
  by apply (StronglySorted_app_1_elem_of nearer _ _ h h' Hs).
Qed.

Lemma ranked_complete idx q j x :
  Faiss.xb idx !! j = Some x ->
  (Faiss.l2sq q x, Z.of_nat j) ∈ Faiss.ranked idx q.
Proof.
  intros Hx. rewrite (ranked_perm idx q).
  apply list_elem_of_fmap. exists (Z.of_nat j, x). split; [done|].
  apply list_elem_of_lookup. exists j. by rewrite enumerate_lookup, Hx.
Qed.

(** The chunks that [query] selects are those at the positions of the
    first [top_k] hits of the ranking. *)
Lemma query_ranked_prefix encode name question top_k self data :
  RagEngine.indexes self !! name = Some data ->
  built encode data ->
  1 <= top_k ->
  let q := encode (SStr question) in
  exists selected,
    (RagEngine.query encode name question top_k self).2
      = Returned (join RagEngine.SEPARATOR selected, selected)
    /\ Forall2
         (fun (h : Faiss.hit) c =>
            0 <= h.2
            /\ RagEngine.chunks data !! Z.to_nat h.2 = Some c
            /\ h.1 = Faiss.l2sq q (encode (SStr c)))
         (take (Z.to_nat top_k) (Faiss.ranked (RagEngine.index data) q))
         selected.
Proof.
  intros Hdata [Hemb Hxb] Hk q.
  set (n := length (RagEngine.chunks data)).
  set (hits := take (Z.to_nat top_k)
                 (Faiss.ranked (RagEngine.index data) q)).
  set (f := fun idx : Z =>
              if (0 <=? idx) && (idx <? Z.of_nat n)
              then RagEngine.chunks data !! Z.to_nat idx else None).
  assert (Hhit : forall h, h ∈ hits ->
            0 <= h.2 /\ exists c,
              RagEngine.chunks data !! Z.to_nat h.2 = Some c
              /\ h.1 = Faiss.l2sq q (encode (SStr c))
              /\ f h.2 = Some c).
  { intros h Hh. apply elem_of_take in Hh as (i & Hi & _).
    apply list_elem_of_lookup_2 in Hi.
    apply ranked_hit in Hi as (Hpos & x & Hx & Hd). split; [done|].
    rewrite Hxb, Hemb, list_lookup_fmap in Hx.
    destruct (RagEngine.chunks data !! Z.to_nat h.2) as [c|] eqn:Hc; [|done].
    injection Hx as <-. exists c. split_and!; try done.
    pose proof (lookup_lt_Some _ _ _ Hc) as Hlt. fold n in Hlt.
    unfold f. destruct (Z.leb_spec 0 h.2); [|lia].
    destruct (Z.ltb_spec h.2 (Z.of_nat n)); [|lia]. done. }
  destruct (omap_labels f hits) as (selected & Hsel & Hlen & Hlook).
  { intros h Hh. destruct (Hhit h Hh) as (_ & c & _ & _ & Hf). eauto. }
  exists selected. split.
  - rewrite query_unfold, Hdata. cbn [snd]. unfold Faiss.search.
    destruct (Z.leb_spec top_k 0); [lia|]. cbn.
    fold q hits. fold n. fold f.
    change (map snd hits) with (hits.*2).
    rewrite omap_app, omap_padding, app_nil_r, Hsel; done.
  - apply Forall2_same_length_lookup_2; [done|].
    intros i h c Hh Hc.
    assert (Hin : h ∈ hits) by (by eapply list_elem_of_lookup_2).
    destruct (Hhit h Hin) as (Hpos & c' & Hc' & Hd & Hf).
    rewrite (Hlook i h Hh), Hf in Hc. injection Hc as ->. done.
Qed.

(** X3. On a collection stored by [build_index], [query] with [top_k >= 1]
    returns the [min(top_k, n)] chunks nearest to the question, nearest
    first: the chunks come from distinct positions of the collection, their
    distances do not decrease, and no chunk that was left out is nearer
    than a returned one. *)
Theorem query_returns_the_nearest_chunks
    (encode : sentence -> Faiss.vec) (name question : text) (top_k : Z)
    (self : RagEngine.t) (data : RagEngine.collection) :
  RagEngine.indexes self !! name = Some data ->
  built encode data ->
  1 <= top_k ->
  let dist c := Faiss.l2sq (encode (SStr question)) (encode (SStr c)) in
  exists (positions : list nat) (selected : list text),
    RagEngine.query encode name question top_k self
      = (self, Returned (join RagEngine.SEPARATOR selected, selected))
    /\ length selected
       = Nat.min (Z.to_nat top_k) (length (RagEngine.chunks data))
    /\ NoDup positions
    /\ Forall2 (fun p c => RagEngine.chunks data !! p = Some c)
         positions selected
    /\ Sorted Z.le (map dist selected)
    /\ forall j c' c,
         RagEngine.chunks data !! j = Some c' -> j ∉ positions ->
         c ∈ selected -> dist c <= dist c'.
Proof.
  intros Hdata Hbuilt Hk dist.
  destruct (query_ranked_prefix encode name question top_k self data
              Hdata Hbuilt ltac:(lia)) as (selected & Hq & Hsel).
  assert (Hq' : RagEngine.query encode name question top_k self
                = (self, Returned (join RagEngine.SEPARATOR selected,
                                   selected))).
  { rewrite query_unfold. rewrite query_unfold in Hq. cbn [snd] in Hq.
    by f_equal. }
  clear Hq. destruct Hbuilt as [Hemb Hxb].
  set (q := encode (SStr question)) in *.
  set (ranked := Faiss.ranked (RagEngine.index data) q) in *.
  set (hits := take (Z.to_nat top_k) ranked) in *.
  exists (map (fun h : Faiss.hit => Z.to_nat h.2) hits), selected.
  assert (Hdist : map dist selected = hits.*1).
  { clear -Hsel. induction Hsel as [|h c hs cs (_ & _ & Hd) _ IH]; [done|].
    cbn. by rewrite IH, Hd. }
  split_and!.
  - exact Hq'.
  - rewrite <- (Forall2_length _ _ _ Hsel). unfold hits.
    rewrite length_take. unfold ranked.
    by rewrite ranked_length, Hxb, Hemb, length_map.
  - assert (Hnd : NoDup hits.*2).
    { unfold hits. rewrite fmap_take.
      eapply sublist_NoDup; [apply ranked_nodup | apply sublist_take]. }
    assert (Hpos : Forall (fun h : Faiss.hit => 0 <= h.2) hits).
    { clear -Hsel. induction Hsel as [|h c hs cs (Hp & _) _ IH];
        by constructor. }
    clear -Hnd Hpos. induction hits as [|h hs IH]; [constructor|].
    apply Forall_cons in Hpos as [Hh Hhs].
    apply NoDup_cons in Hnd as [Hnotin Hnd]. cbn. constructor; [|by apply IH].
    intros Hin. apply Hnotin.
    apply list_elem_of_fmap in Hin as (h' & Heq & Hh').
    apply list_elem_of_fmap. exists h'. split; [|done].
    rewrite Forall_forall in Hhs. specialize (Hhs h' Hh'). lia.
  - clear -Hsel. induction Hsel as [|h c hs cs (_ & Hc & _) _ IH];
      by constructor.
  - rewrite Hdist. unfold hits. rewrite fmap_take.
    apply Sorted_take.
    pose proof (isort_hits_sorted
                  (map (fun '(i, x) => (Faiss.l2sq q x, i))
                     (enumerate (Faiss.xb (RagEngine.index data))))) as Hs.
    change (Sorted nearer ranked) in Hs.
    clear -Hs. induction Hs as [|h l Hl IH Hhd]; [constructor|].
    cbn. constructor; [done|]. destruct Hhd; constructor. done.
  - intros j c' c Hc' Hj Hc.
    assert (Hx : Faiss.xb (RagEngine.index data) !! j
                 = Some (encode (SStr c'))).
    { by rewrite Hxb, Hemb, list_lookup_fmap, Hc'. }
    pose proof (ranked_complete (RagEngine.index data) q j _ Hx) as Hin.
    fold ranked in Hin. rewrite <- (take_drop (Z.to_nat top_k) ranked) in Hin.
    apply elem_of_app in Hin as [Hin | Hin].
    { destruct Hj. apply list_elem_of_fmap. eexists. split; [|exact Hin].
      simpl. by rewrite Nat2Z.id. }
    apply list_elem_of_lookup in Hc as [i Hi].
    destruct (Forall2_lookup_r _ _ _ _ _ Hsel Hi) as (h & Hh & _ & _ & Hd).
    apply list_elem_of_lookup_2 in Hh.
    pose proof (ranked_prefix_nearest _ _ _ _ _ Hh Hin) as Hle.
    simpl in Hle. unfold dist. fold q. lia.
Qed.

Lemma query_returns_the_nearest_chunks_witness :
  exists positions selected,
    RagEngine.query demo_encode (txt "pets") (txt "What are cats?") 1
      pets_engine
      = (pets_engine, Returned (join RagEngine.SEPARATOR selected, selected))
    /\ length selected = 1%nat
    /\ NoDup positions
    /\ Forall2 (fun p c => pets_chunks !! p = Some c) positions selected.
Proof.
  destruct (query_returns_the_nearest_chunks demo_encode (txt "pets")
              (txt "What are cats?") 1 pets_engine
              (collection_of demo_encode pets_chunks))
    as (positions & selected & Hq & Hlen & Hnd & Hsel & _).
  - vm_compute. reflexivity.
  - split; reflexivity.
  - lia.
  - exists positions, selected. split_and!; done.
Defined.

(** ** rag_engine.py: loading and chunking *)

Lemma map_outcome_returns {A B} (f : A -> outcome B) (g : A -> B) xs :
  Forall (fun x => f x = Returned (g x)) xs ->
  map_outcome f xs = Returned (map g xs).
Proof.
  induction 1 as [|x xs Hx _ IH]; simpl; [done|]. by rewrite Hx, IH.
Qed.

Lemma map_outcome_exception {A B} (f : A -> outcome B) xs e :
  (forall x e', f x = Raised e' -> is_Exception (exn_cls e') = false) ->
  map_outcome f xs = Raised e -> is_Exception (exn_cls e) = false.
Proof.
  intros Hf. induction xs as [|x xs IH]; simpl; [discriminate|].
  destruct (f x) as [y|e'|] eqn:Hx; simpl.
  - destruct (map_outcome f xs) as [ys|e''|]; simpl; try discriminate.
    intros [= <-]. by apply IH.
  - intros [= <-]. eauto.
  - discriminate.
Qed.

(** X4. [load_pdf_text] takes a page whose [extract_text()] raises an
    [Exception] or returns [None] as an empty page: when the reader opens
    the file it returns the page texts joined by newlines, and an
    [Exception] that it raises is one that opening the file raised. *)
Theorem load_pdf_text_swallows_page_errors (os : os_env) (path : text) :
  (forall pages,
     pdf_reader os path = Returned pages ->
     Forall page_settles pages ->
     RagEngine.load_pdf_text os path
       = Returned (join (txt "
") (map page_text_or_empty pages)))
  /\ (forall e,
        RagEngine.load_pdf_text os path = Raised e ->
        is_Exception (exn_cls e) = true ->
        pdf_reader os path = Raised e).
Proof.
  unfold RagEngine.load_pdf_text. split.
  - intros pages -> Hpages. simpl.
    rewrite (map_outcome_returns _ page_text_or_empty); [done|].
    eapply Forall_impl; [exact Hpages|].
    intros [[t|]|e|] Hp; simpl in *; try done. by rewrite Hp.
  - intros e.
    destruct (pdf_reader os path) as [pages|e'|]; simpl; [|congruence|done].
    destruct (map_outcome _ pages) as [texts|e'|] eqn:Hm; simpl;
      try discriminate.
    intros [= <-] He. apply map_outcome_exception in Hm; [congruence|].
    intros [[t|]|e''|] e1; simpl; try discriminate.
    destruct (is_Exception (exn_cls e'')) eqn:He''; [discriminate|].
    by intros [= <-].
Qed.

Lemma load_pdf_text_swallows_page_errors_witness :
  let os :=
    OsEnv (fun p => p) (fun _ => true) (fun _ => true)
          (fun _ => Returned [])
          (fun _ => Returned [Returned (Some (txt "one"));
                              raise ValueError (txt "bad page");
                              Returned None;
                              Returned (Some (txt "four"))]) in
  RagEngine.load_pdf_text os (txt "/docs/a.pdf") = Returned (txt "one


four").
Proof.
  intros os.
  apply (proj1 (load_pdf_text_swallows_page_errors os (txt "/docs/a.pdf"))
           [Returned (Some (txt "one")); raise ValueError (txt "bad page");
            Returned None; Returned (Some (txt "four"))]).
  - reflexivity.
  - repeat constructor.
Defined.

(** [text.split()] gives back the words of a chunk. *)
Lemma split_from_word cur w s :
  Forall (fun c => is_space c = false) w ->
  split_from cur (w ++ s) = split_from (cur ++ w) s.
Proof.
  intros Hw. revert cur. induction Hw as [|c w Hc _ IH]; intros cur; simpl.
  - by rewrite app_nil_r.
  - rewrite Hc, IH. by rewrite <- app_assoc.
Qed.

Lemma split_from_space c w s :
  split_from (c :: w) (txt " " ++ s) = (c :: w) :: split_from [] s.
Proof. reflexivity. Qed.

Lemma split_join_words ws :
  Forall word ws -> split (join (txt " ") ws) = ws.
Proof.
  unfold split. induction 1 as [|w ws [Hne Hw] Hws IH]; [done|].
  destruct w as [|c w]; [done|]. destruct ws as [|w' ws].
  - cbn [join]. rewrite <- (app_nil_r (c :: w)) at 1.
    by rewrite split_from_word.
  - change (join (txt " ") ((c :: w) :: w' :: ws))
      with ((c :: w) ++ txt " " ++ join (txt " ") (w' :: ws)).
    rewrite split_from_word by done. cbn [app].
    by rewrite split_from_space, IH.
Qed.

Lemma chain_width chunk_size overlap n start ws :
  chain chunk_size overlap n start ws ->
  forall w, w ∈ ws -> w_end w - w_start w <= chunk_size.
Proof.
  induction 1 as [start Hlt Hle | start ws Hlt Hch IH]; intros w Hw.
  - apply list_elem_of_singleton in Hw as ->. simpl. lia.
  - apply elem_of_cons in Hw as [-> | Hw]; [simpl; lia | by apply IH].
Qed.

(** X5. With [0 <= overlap < chunk_size] the word chunker loses no words
    inside a chunk: splitting the chunk of a window gives back exactly the
    words of the window, between 1 and [chunk_size] of them, and the
    chunker returns no chunk only for a text without words. *)
Theorem word_chunks_hold_their_words
    (text_ : text) (chunk_size overlap : Z) :
  0 <= overlap < chunk_size ->
  let words := split text_ in
  exists ws chunks,
    WordChunker.simple_chunk_windows (S (length words)) text_
      chunk_size overlap = Returned ws
    /\ WordChunker.simple_chunk (S (length words)) text_ chunk_size overlap
       = Returned chunks
    /\ Forall2
         (fun w c =>
            split c = py_slice words (w_start w) (w_end w)
            /\ 1 <= Z.of_nat (length (split c)) <= chunk_size)
         ws chunks
    /\ (chunks = [] <-> words = []).
Proof.
  intros Hov words.
  destruct (word_run_chain text_ chunk_size overlap Hov)
    as (ws & s' & Hrun & Hwin & Hchunks & Hch).
  fold words in Hrun, Hchunks, Hch.
  exists ws, (map (word_chunk words) ws).
  unfold WordChunker.simple_chunk_windows, WordChunker.simple_chunk.
  rewrite Hrun. simpl. rewrite Hwin, Hchunks.
  split; [done|]. split; [done|].
  assert (Hwords : Forall word words) by apply split_words.
  destruct Hch as [[Hnil ->] | Hch]; [by split; [constructor|]|].
  split.
  - apply Forall2_fmap_r, Forall_Forall2_diag, Forall_forall.
    intros w Hw.
    assert (Hb : 0 <= w_start w
                 /\ w_start w < w_end w <= Z.of_nat (length words))
      by (eapply chain_bounds; [..|exact Hch|exact Hw]; lia).
    destruct Hb as [Hs He].
    pose proof (chain_width _ _ _ _ _ Hch w Hw) as Hwd.
    destruct (py_slice_inside words (w_start w) (w_end w)) as [Heq Hlen];
      [lia | lia |].
    unfold word_chunk, compose. cbv beta. rewrite split_join_words.
    + split; [done|]. rewrite Hlen. lia.
    + destruct (py_slice_substring words (w_start w) (w_end w))
        as (pre & post & Hsub).
      rewrite Hsub in Hwords. apply Forall_app in Hwords as [_ Hwords].
      by apply Forall_app in Hwords as [Hwords _].
  - destruct (chain_head _ _ _ _ _ Hch) as (w & rest & Hws & _).
    rewrite Hws in *.
    split; [discriminate|]. intros Hnil.
    inversion Hch; subst; rewrite Hnil in *; simpl in *; lia.
Qed.

Lemma word_chunks_hold_their_words_witness :
  exists ws chunks,
    WordChunker.simple_chunk_windows 6 (txt "a  b
c d e") 2 1 = Returned ws
    /\ WordChunker.simple_chunk 6 (txt "a  b
c d e") 2 1 = Returned chunks
    /\ Forall2
         (fun w c =>
            split c = py_slice (split (txt "a  b
c d e")) (w_start w) (w_end w)
            /\ 1 <= Z.of_nat (length (split c)) <= 2)
         ws chunks
    /\ (chunks = [] <-> split (txt "a  b
c d e") = []).
Proof.
  apply (word_chunks_hold_their_words (txt "a  b
c d e") 2 1). lia.
Defined.

(** ** pdf_loader.py: listing and loading *)

(** X6. [list_pdfs] raises [ValueError] for a folder that is not a
    directory; otherwise its result is sorted and holds exactly the paths
    [abspath(folder)/name] of the listed names that end in [.pdf], in any
    letter case, and are files. *)
Theorem list_pdfs_sorted_pdf_files (os : os_env) (folder : text) :
  (isdir os (abspath os folder) = false ->
     PdfLoader.list_pdfs os folder
     = raise ValueError
         (txt "Folder does not exist or is not a directory: "
          ++ abspath os folder))
  /\ (forall pdfs,
        PdfLoader.list_pdfs os folder = Returned pdfs ->
        Sorted text_le pdfs
        /\ exists names,
             listdir os (abspath os folder) = Returned names
             /\ forall p,
                  p ∈ pdfs <->
                  exists name,
                    name ∈ names
                    /\ endswith (lower name) (txt ".pdf") = true
                    /\ p = path_join (abspath os folder) name
                    /\ isfile os p = true).
Proof.
  rewrite list_pdfs_unfold. cbv zeta. split.
  - by intros ->.
  - intros pdfs.
    destruct (isdir os (abspath os folder)); [|discriminate].
    destruct (listdir os (abspath os folder)) as [names| |]; simpl;
      try discriminate.
    intros [= <-]. split; [apply sorted_sorted|].
    exists names. split; [done|]. intros p.
    rewrite sorted_perm, list_elem_of_omap. unfold pdf_path.
    split.
    + intros (name & Hname & Hp). exists name.
      destruct (endswith (lower name) (txt ".pdf")) eqn:Hends;
        [|discriminate].
      cbv zeta in Hp.
      destruct (isfile os (path_join (abspath os folder) name)) eqn:Hf;
        [|discriminate].
      injection Hp as <-. split; [done|]. split; [exact Hends|]. done.
    + intros (name & Hname & Hends & -> & Hf). exists name.
      split; [done|].
      assert (Hends' : endswith (lower name) (txt ".pdf") = true)
        by exact Hends.
      by rewrite Hends', Hf.
Qed.

Lemma list_pdfs_sorted_pdf_files_witness :
  Sorted text_le [txt "/docs/a.pdf"; txt "/docs/b.pdf"]
  /\ PdfLoader.list_pdfs blank_os (txt "/nowhere")
     = raise ValueError
         (txt "Folder does not exist or is not a directory: /nowhere").
Proof.
  destruct (list_pdfs_sorted_pdf_files
              (two_pdf_os [txt "b.pdf"; txt "a.pdf"]) (txt "/docs"))
    as [_ Hsorted].
  destruct (list_pdfs_sorted_pdf_files blank_os (txt "/nowhere"))
    as [Hraise _].
  split.
  - apply (Hsorted [txt "/docs/a.pdf"; txt "/docs/b.pdf"]).
    vm_compute. reflexivity.
  - apply Hraise. vm_compute. reflexivity.
Defined.

(** *** [strip] *)

Lemma lstrip_fixed c r : is_space c = false -> lstrip (c :: r) = c :: r.
Proof. intros Hc. simpl. by rewrite Hc. Qed.

Lemma lstrip_idemp s : lstrip (lstrip s) = lstrip s.
Proof.
  destruct (lstrip s) as [|c r] eqn:Hs; [done|].
  apply lstrip_fixed. by eapply lstrip_head.
Qed.

Lemma rstrip_idemp s : rstrip (rstrip s) = rstrip s.
Proof. unfold rstrip. by rewrite rev_involutive, lstrip_idemp. Qed.

Lemma lstrip_rstrip_lstrip s : lstrip (rstrip (lstrip s)) = rstrip (lstrip s).
Proof.
  destruct (rstrip_split (lstrip s)) as (post & Hs & _).
  destruct (rstrip (lstrip s)) as [|c r] eqn:Hr; [done|].
  apply lstrip_fixed. simpl in Hs. by eapply lstrip_head.
Qed.

Lemma strip_idemp s : strip (strip s) = strip s.
Proof. unfold strip. by rewrite lstrip_rstrip_lstrip, rstrip_idemp. Qed.

Lemma strip_length s : (length (strip s) <= length s)%nat.
Proof.
  destruct (strip_split s) as (pre & post & Hs & _).
  rewrite Hs at 2. rewrite !length_app. lia.
Qed.


Lemma load_pdfs_loaded_pages (os : os_env) (folder : text) pages :
  PdfLoader.load_pdfs os folder = Returned pages ->
  exists pdfs,
    PdfLoader.list_pdfs os folder = Returned pdfs
    /\ pdfs <> []
    /\ Forall (loaded_page os pdfs) pages.
Proof.
  unfold PdfLoader.load_pdfs.
  destruct (PdfLoader.list_pdfs os folder) as [pdfs| |]; simpl;
    try discriminate.
  destruct (truthy pdfs) eqn:Hpdfs; simpl; [|discriminate].
  intros Hrun. exists pdfs. split; [done|].
  split; [by apply truthy_true|].
  revert Hrun.
  apply (for_each_invariant _ (fun pages => Forall (loaded_page os pdfs) pages));
    [|constructor].
  intros path acc acc' Hpath Hacc.
  destruct (pdf_reader os path) as [reader_pages| |] eqn:Hreader; simpl;
    try discriminate.
  apply (for_each_invariant _
           (fun pages => Forall (loaded_page os pdfs) pages)); [|done].
  intros [i page] acc1 acc2 Hin Hacc1.
  destruct page as [extracted| |]; simpl; try discriminate.
  destruct (truthy (strip (default [] extracted))) eqn:Ht; simpl;
    intros [= <-]; [|done].
  apply Forall_app. split; [done|]. constructor; [|constructor].
  apply list_elem_of_lookup in Hin as [j Hj].
  rewrite enumerate_lookup in Hj.
  destruct (reader_pages !! j) as [page|] eqn:Hpage; [|discriminate].
  injection Hj as <- ->.
  apply truthy_true in Ht.
  destruct extracted as [extracted|]; [|done].
  exists path, reader_pages, j, extracted. simpl. by split_and!.
Qed.

(** X7. Every page that [load_pdfs] returns is a page of one of the
    listed PDFs: its text is the stripped text of the page at some position
    [i] of that file and is not empty, its page number is [i + 1] (blank
    pages are skipped, the others not renumbered), its source is the path
    of the file and its id is [<file name>_p<i + 1>]; without any PDF in
    the folder [load_pdfs] raises [ValueError]. *)
Theorem load_pdfs_pages_are_well_formed (os : os_env) (folder : text) :
  (forall pages,
     PdfLoader.load_pdfs os folder = Returned pages ->
     exists pdfs,
       PdfLoader.list_pdfs os folder = Returned pdfs
       /\ pdfs <> []
       /\ Forall (loaded_page os pdfs) pages)
  /\ (PdfLoader.list_pdfs os folder = Returned [] ->
      PdfLoader.load_pdfs os folder
      = raise ValueError (txt "No PDFs found in folder: " ++ folder)).
Proof.
  split; [apply load_pdfs_loaded_pages|].
  unfold PdfLoader.load_pdfs. by intros ->.
Qed.

Lemma load_pdfs_pages_are_well_formed_witness :
  (exists pdfs,
     PdfLoader.list_pdfs (two_pdf_os [txt "b.pdf"; txt "a.pdf"]) (txt "/docs")
       = Returned pdfs
     /\ pdfs <> []
     /\ Forall (loaded_page (two_pdf_os [txt "b.pdf"; txt "a.pdf"]) pdfs)
          [PdfLoader.Entry (txt "a.pdf_p1") (txt "Cats are mammals.")
             (PdfLoader.Metadata (txt "/docs/a.pdf") 1 (txt "a.pdf"));
           PdfLoader.Entry (txt "b.pdf_p1") (txt "Dogs are mammals too.")
             (PdfLoader.Metadata (txt "/docs/b.pdf") 1 (txt "b.pdf"))])
  /\ PdfLoader.load_pdfs (two_pdf_os []) (txt "/docs")
     = raise ValueError (txt "No PDFs found in folder: /docs").
Proof.
  split.
  - apply (proj1 (load_pdfs_pages_are_well_formed
                    (two_pdf_os [txt "b.pdf"; txt "a.pdf"]) (txt "/docs"))).
    vm_compute. reflexivity.
  - apply (proj2 (load_pdfs_pages_are_well_formed
                    (two_pdf_os []) (txt "/docs"))).
    vm_compute. reflexivity.
Defined.

(** ** pdf_loader.py: chunk ids and sizes *)

(** One pass of the character loop, in full: it leaves the state alone or
    appends the stripped window under the next number. *)
Lemma char_body_step k pg chunk_size overlap s s' :
  (PdfLoader.body k pg chunk_size overlap s = Continue s'
   \/ PdfLoader.body k pg chunk_size overlap s = Break s') ->
  (PdfLoader.chunks s' = PdfLoader.chunks s
   /\ PdfLoader.chunk_counter s' = PdfLoader.chunk_counter s
   /\ PdfLoader.start s' = PdfLoader.start s)
  \/ (PdfLoader.start s < Z.of_nat (length (PdfLoader.text_ pg))
      /\ PdfLoader.chunk_counter s' = PdfLoader.chunk_counter s + 1
      /\ PdfLoader.chunks s'
         = PdfLoader.chunks s
           ++ [PdfLoader.Entry
                 (PdfLoader.id pg ++ txt "_c"
                  ++ str_int (PdfLoader.chunk_counter s))
                 (strip (py_slice (PdfLoader.text_ pg) (PdfLoader.start s)
                           (Z.min (PdfLoader.start s + chunk_size)
                              (Z.of_nat (length (PdfLoader.text_ pg))))))
                 (PdfLoader.meta pg)]).
Proof.
  unfold PdfLoader.body.
  set (n := Z.of_nat (length (PdfLoader.text_ pg))).
  destruct (Z.ltb_spec (PdfLoader.start s) n);
    [|intros [[=] | [= <-]]; by left].
  set (e := Z.min (PdfLoader.start s + chunk_size) n).
  destruct (truthy (strip (py_slice (PdfLoader.text_ pg)
                             (PdfLoader.start s) e))); simpl;
    [|intros [[=] | [= <-]]; by left].
  destruct (e =? n); intros [[= <-] | [= <-]]; right; by simpl.
Qed.

Lemma slice_length_bound {A} (l : list A) (a chunk_size : Z) :
  0 <= a -> 0 <= chunk_size ->
  Z.of_nat (length (py_slice l a
                      (Z.min (a + chunk_size) (Z.of_nat (length l)))))
  <= chunk_size.
Proof.
  intros Ha Hcs. unfold py_slice, clamp_index.
  set (n := Z.of_nat (length l)).
  destruct (Z.ltb_spec a 0); [lia|].
  destruct (Z.ltb_spec (Z.min (a + chunk_size) n) 0); [lia|].
  rewrite length_take. lia.
Qed.

(** The loop on one page keeps the numbering of the chunks. *)
Lemma char_page_numbering (P : nat -> PdfLoader.entry -> Prop)
    fuel chunk_size overlap k pg s s' :
  0 <= chunk_size ->
  (forall i c, numbered_chunk chunk_size pg i c -> P i c) ->
  PdfLoader.chunk_counter s = Z.of_nat (length (PdfLoader.chunks s)) ->
  (forall i c, PdfLoader.chunks s !! i = Some c -> P i c) ->
  PdfLoader.chunk_page fuel chunk_size overlap k pg s = Returned s' ->
  PdfLoader.chunk_counter s' = Z.of_nat (length (PdfLoader.chunks s'))
  /\ (forall i c, PdfLoader.chunks s' !! i = Some c -> P i c).
Proof.
  intros Hcs HP Hcount Hs. unfold PdfLoader.chunk_page.
  set (Inv := fun t : PdfLoader.st =>
                0 <= PdfLoader.start t
                /\ PdfLoader.chunk_counter t
                   = Z.of_nat (length (PdfLoader.chunks t))
                /\ forall i c, PdfLoader.chunks t !! i = Some c -> P i c).
  assert (Hstep : forall t t',
            Inv t ->
            (PdfLoader.body k pg chunk_size overlap t = Continue t'
             \/ PdfLoader.body k pg chunk_size overlap t = Break t') ->
            Inv t').
  { intros t t' (Hstart & Hc & Hall) Hb.
    pose proof Hb as Hb'.
    apply char_body_step in Hb as [(Hch & Hcnt & Hst) | (Hlt & Hcnt & Hch)].
    - unfold Inv. rewrite Hch, Hcnt, Hst. done.
    - assert (Hstart' : 0 <= PdfLoader.start t').
      { destruct Hb' as [Hb' | Hb'].
        - apply char_body_continue in Hb' as [_ ->]. lia.
        - revert Hb'. unfold PdfLoader.body.
          repeat case_match; intros [= <-]; simpl; lia. }
      unfold Inv. rewrite Hch, Hcnt, length_app. simpl.
      split; [done|]. split; [lia|].
      intros i c Hi. apply lookup_app_Some in Hi as [Hi | [Hge Hi]];
        [by apply Hall|].
      apply list_lookup_singleton_Some in Hi as [Hi <-].
      assert (i = length (PdfLoader.chunks t)) as -> by lia.
      apply HP. unfold numbered_chunk. simpl.
      rewrite Hc. split_and!; try done.
      + apply strip_idemp.
      + etrans; [apply inj_le, strip_length|].
        by apply slice_length_bound. }
  intros Hrun.
  assert (Hfinal : Inv s').
  { revert Hrun. apply (while_invariant _ Inv Inv); [eauto | eauto |].
    unfold Inv. simpl. split; [lia | done]. }
  destruct Hfinal as (_ & ? & ?). done.
Qed.

Lemma char_chunker_numbering fuel pages chunk_size overlap chunks :
  0 <= chunk_size ->
  PdfLoader.simple_chunk fuel pages chunk_size overlap = Returned chunks ->
  forall i c, chunks !! i = Some c ->
    exists pg, pg ∈ pages /\ numbered_chunk chunk_size pg i c.
Proof.
  intros Hcs. unfold PdfLoader.simple_chunk, PdfLoader.run.
  destruct (for_each _ _ _) as [r| |] eqn:Hf; simpl; try discriminate.
  intros [= <-].
  set (P := fun i c => exists pg, pg ∈ pages /\ numbered_chunk chunk_size pg i c).
  cut (PdfLoader.chunk_counter r = Z.of_nat (length (PdfLoader.chunks r))
       /\ forall i c, PdfLoader.chunks r !! i = Some c -> P i c).
  { by intros [_ ?]. }
  revert Hf.
  apply (for_each_invariant
           (fun '(k, pg) s =>
              PdfLoader.chunk_page fuel chunk_size overlap k pg s)
           (fun t =>
              PdfLoader.chunk_counter t
                = Z.of_nat (length (PdfLoader.chunks t))
              /\ forall i c, PdfLoader.chunks t !! i = Some c -> P i c)).
  - intros [k pg] s s' Hin [Hc Hall] Hrun.
    eapply char_page_numbering; [done| |done|done|done].
    intros i c Hn. exists pg. split; [by eapply elem_of_zip_r | done].
  - simpl. split; [done|]. by intros [].
Qed.

(** *** Digits *)

Lemma span_all p s : Forall (fun c => p c = true) s ->
  forall rest, (match rest with [] => True | c :: _ => p c = false end) ->
  UiApp.span p (s ++ rest) = (s, rest).
Proof.
  induction 1 as [|c s Hc _ IH]; intros rest Hrest; simpl.
  - destruct rest as [|c rest]; [done|]. simpl. by rewrite Hrest.
  - cbv beta in Hc. rewrite Hc. by rewrite IH.
Qed.

Lemma trailing_digits_suffix a c ds :
  UiApp.is_digit c = false ->
  Forall (fun d => UiApp.is_digit d = true) ds ->
  trailing_digits (a ++ c :: ds) = ds.
Proof.
  intros Hc Hds. unfold trailing_digits.
  rewrite rev_app_distr. cbn [rev]. rewrite <- app_assoc.
  rewrite span_all; [apply rev_involutive | by apply List.Forall_rev | done].
Qed.

Lemma pretty_N_char_digit x : UiApp.is_digit (pretty_N_char x) = true.
Proof. unfold pretty_N_char. by repeat case_match. Qed.

Lemma pretty_N_go_digits x s :
  Forall (fun d => UiApp.is_digit d = true) (list_ascii_of_string s) ->
  Forall (fun d => UiApp.is_digit d = true)
    (list_ascii_of_string (pretty_N_go x s)).
Proof.
  revert s. induction (N.lt_wf_0 x) as [x _ IH]; intros s Hs.
  destruct (decide (x = 0)%N) as [-> | Hx]; [by rewrite pretty_N_go_0|].
  rewrite pretty_N_go_step by lia.
  apply IH; [apply N.div_lt; lia|].
  simpl. constructor; [apply pretty_N_char_digit | done].
Qed.

Lemma str_int_digits (i : nat) :
  Forall (fun d => UiApp.is_digit d = true) (str_int (Z.of_nat i)).
Proof.
  unfold str_int, txt, pretty, pretty_Z.
  destruct (Z.of_nat i) as [|p|p] eqn:Hi; [by repeat constructor| |lia].
  unfold pretty, pretty_positive, pretty, pretty_N.
  destruct (decide (N.pos p = 0%N)); [done|].
  apply pretty_N_go_digits. constructor.
Qed.

Lemma str_int_inj (i j : nat) :
  str_int (Z.of_nat i) = str_int (Z.of_nat j) -> i = j.
Proof.
  unfold str_int, txt. intros H.
  apply (f_equal string_of_list_ascii) in H.
  rewrite !string_of_list_ascii_of_string in H.
  apply (inj pretty) in H. lia.
Qed.

Lemma numbered_id_inj a b (i j : nat) :
  a ++ txt "_c" ++ str_int (Z.of_nat i) = b ++ txt "_c" ++ str_int (Z.of_nat j)
  -> i = j.
Proof.
  intros H. apply str_int_inj.
  apply (f_equal trailing_digits) in H.
  change (txt "_c") with ([ "_"%char ] ++ [ "c"%char ]) in H.
  rewrite <- !app_assoc in H.
  rewrite !(app_assoc _ ["_"%char]) in H. cbn [app] in H.
  rewrite !trailing_digits_suffix in H by (done || apply str_int_digits).
  done.
Qed.

(** X8. The chunk ids of the character chunker are numbered and unique:
    for a non-negative [chunk_size], the [i]-th chunk of the result has the
    id [<page id>_c<i>] and the metadata of a page of the input, its text
    is stripped and at most [chunk_size] characters long, and no two chunks
    have the same id. *)
Theorem chunk_ids_are_numbered_and_unique
    (fuel : nat) (pages : list PdfLoader.entry) (chunk_size overlap : Z)
    (chunks : list PdfLoader.entry) :
  0 <= chunk_size ->
  PdfLoader.simple_chunk fuel pages chunk_size overlap = Returned chunks ->
  (forall i c, chunks !! i = Some c ->
     exists pg, pg ∈ pages /\ numbered_chunk chunk_size pg i c)
  /\ NoDup (map PdfLoader.id chunks).
Proof.
  intros Hcs Hrun.
  pose proof (char_chunker_numbering _ _ _ _ _ Hcs Hrun) as Hnum.
  split; [done|].
  apply NoDup_alt. intros i j x Hi Hj.
  change (map PdfLoader.id chunks) with (PdfLoader.id <$> chunks) in Hi, Hj.
  rewrite list_lookup_fmap in Hi, Hj.
  destruct (chunks !! i) as [ci|] eqn:Hci; [|discriminate].
  destruct (chunks !! j) as [cj|] eqn:Hcj; [|discriminate].
  injection Hi as Hi. injection Hj as Hj.
  destruct (Hnum i ci Hci) as (pi & _ & Hidi & _).
  destruct (Hnum j cj Hcj) as (pj & _ & Hidj & _).
  eapply numbered_id_inj. rewrite <- Hidi, <- Hidj. congruence.
Qed.

Lemma chunk_ids_are_numbered_and_unique_witness :
  NoDup [txt "a.pdf_p1_c0"; txt "a.pdf_p1_c1"; txt "a.pdf_p1_c2";
         txt "a.pdf_p1_c3"; txt "a.pdf_p1_c4"].
Proof.
  pose proof (chunk_ids_are_numbered_and_unique 10 [demo_page; gap_page] 2 1)
    as H.
  edestruct H as [_ Hnd]; [lia | vm_compute; reflexivity |].
  exact Hnd.
Defined.

(** ** pdf_loader.py and orchestrator.py: pages and chunks *)







Lemma vector_store_build_nonempty encode c chunks self :
  VectorStore.build encode (c :: chunks) self
  = (VectorStore.Store
       (Some (Faiss.add (Faiss.new (Z.of_nat (length (encode c))))
                (map encode (c :: chunks))))
       (c :: chunks),
     Returned tt).
Proof. reflexivity. Qed.



(** ** orchestrator.py: the two dictionaries *)

Lemma researcher_state_agree encode fuel self :
  researcher_state encode fuel self -> registries_agree self.
Proof.
  induction 1 as [|os name folder self self' r _ IH Hb
                  |gen query name self self' r _ IH Ha].
  - intros name. simpl. rewrite !lookup_empty. split; [|done].
    split; intros [? ?]; done.
  - revert Hb. rewrite orchestrator_build_unfold.
    destruct (PdfLoader.load_pdfs_from_folder os folder) as [pages| |];
      [|by intros [= <- _]..].
    destruct (truthy pages); [|by intros [= <- _]].
    destruct (PdfLoader.simple_chunk _ _ _ _) as [chunks| |];
      [|by intros [= <- _]..].
    destruct chunks as [|c chunks]; [by intros [= <- _]|].
    cbn [truthy map]. rewrite vector_store_build_nonempty. intros [= <- _].
    intros n. specialize (IH n). simpl.
    destruct (decide (name = n)) as [->|Hne].
    + rewrite !lookup_insert_eq. split; [by split; eauto|].
      intros store [= <-]. simpl. eauto.
    + by rewrite !lookup_insert_ne.
  - unfold Orchestrator.answer, reading in Ha. by injection Ha as <- _.
Qed.

(** X11. On an [AutoResearcher] that was made by calls of its methods,
    [index_exists] tells whether [answer] finds the index: it is false
    exactly when [answer] raises "Index not found.". The dictionaries
    [indexes] and [vectorstores] hold the same names, and a registered
    store has an index and at least one text. *)
Theorem index_exists_tells_answer
    (encode : sentence -> Faiss.vec) (fuel : nat)
    (llm_generate : text -> outcome text) (query name : text)
    (self : Orchestrator.t) :
  researcher_state encode fuel self ->
  registries_agree self
  /\ (Orchestrator.index_exists name self = false
      <-> Orchestrator.answer llm_generate query name self
          = (self, raise ValueError (txt "Index not found."))).
Proof.
  intros Hst. pose proof (researcher_state_agree _ _ _ Hst) as Hagree.
  split; [done|]. destruct (Hagree name) as [Hdom _].
  unfold Orchestrator.index_exists, Orchestrator.answer, reading.
  rewrite bool_decide_eq_false.
  destruct (Orchestrator.vectorstores self !! name) as [store|] eqn:Hs.
  - split.
    + intros Hno. destruct Hno. apply Hdom. eauto.
    + simpl. discriminate.
  - split; [done|]. intros _ Hsome. apply Hdom in Hsome as [? ?]. done.
Qed.

Lemma index_exists_tells_answer_witness :
  let self :=
    (Orchestrator.build_index (two_pdf_os [txt "b.pdf"; txt "a.pdf"])
       demo_encode 10 (txt "pets") (txt "/docs") Orchestrator.init).1 in
  registries_agree self
  /\ (Orchestrator.index_exists (txt "dogs") self = false
      <-> Orchestrator.answer (fun p => Returned p) (txt "q") (txt "dogs") self
          = (self, raise ValueError (txt "Index not found."))).
Proof.
  apply (index_exists_tells_answer demo_encode 10).
  eapply researcher_build; [apply researcher_new|].
  apply surjective_pairing.
Defined.

(** ** vector_store.py *)

Lemma py_index_inside {A} (l : list A) (i : Z) x :
  0 <= i -> l !! Z.to_nat i = Some x -> py_index l i = Returned x.
Proof.
  intros Hi Hx. unfold py_index.
  pose proof (lookup_lt_Some _ _ _ Hx) as Hlt.
  destruct (Z.ltb_spec i 0); [lia|].
  destruct (Z.leb_spec 0 i); [|lia].
  destruct (Z.ltb_spec i (Z.of_nat (length l))); [|lia].
  simpl. by rewrite Hx.
Qed.

Lemma py_index_last {A} (l : list A) x :
  last l = Some x -> py_index l (-1) = Returned x.
Proof.
  intros Hx. unfold py_index. rewrite last_lookup in Hx.
  pose proof (lookup_lt_Some _ _ _ Hx) as Hlt.
  change (-1 <? 0) with true. cbv iota.
  destruct (Z.leb_spec 0 (-1 + Z.of_nat (length l))); [|lia].
  destruct (Z.ltb_spec (-1 + Z.of_nat (length l)) (Z.of_nat (length l)));
    [|lia].
  simpl. replace (Z.to_nat (-1 + Z.of_nat (length l))) with (pred (length l))
    by lia.
  by rewrite Hx.
Qed.

(** A search in an index that holds one vector per entry of [items],
    followed by the selection [items[i]] for each label: the nearest
    entries and, for the labels [-1] of the padding, the last entry. *)
Lemma padded_search {A} (f : A -> Faiss.vec) (items : list A)
    (idx : Faiss.IndexFlatL2) (q : Faiss.vec) (k : Z) (last_item : A) :
  Faiss.xb idx = map f items ->
  last items = Some last_item ->
  1 <= k ->
  let dist c := Faiss.l2sq q (f c) in
  exists distances labels (positions : list nat) nearest,
    Faiss.search idx q k = Returned (distances, labels)
    /\ map_outcome (py_index items) labels
       = Returned (nearest
                   ++ replicate (Z.to_nat k - length items) last_item)
    /\ length nearest = Nat.min (Z.to_nat k) (length items)
    /\ NoDup positions
    /\ Forall2 (fun p c => items !! p = Some c) positions nearest
    /\ Sorted Z.le (map dist nearest)
    /\ forall j c' c,
         items !! j = Some c' -> j ∉ positions -> c ∈ nearest ->
         dist c <= dist c'.
Proof.
  intros Hxb Hlast Hk dist.
  set (hits := take (Z.to_nat k) (Faiss.ranked idx q)).
  set (g := fun i : Z =>
              default last_item
                (if i <? 0 then None else items !! Z.to_nat i)).
  assert (Hhit : forall h, h ∈ hits ->
            0 <= h.2
            /\ items !! Z.to_nat h.2 = Some (g h.2)
            /\ h.1 = dist (g h.2)
            /\ py_index items h.2 = Returned (g h.2)).
  { intros h Hh. apply elem_of_take in Hh as (i & Hi & _).
    apply list_elem_of_lookup_2 in Hi.
    apply ranked_hit in Hi as (Hpos & x & Hx & Hd).
    rewrite Hxb, list_lookup_fmap in Hx.
    destruct (items !! Z.to_nat h.2) as [c|] eqn:Hc; [|done].
    injection Hx as <-.
    assert (Hg : g h.2 = c).
    { unfold g. destruct (Z.ltb_spec h.2 0); [lia|]. by rewrite Hc. }
    rewrite Hg. split_and!; try done. by apply py_index_inside. }
  assert (Hlen : length hits = Nat.min (Z.to_nat k) (length items)).
  { unfold hits. rewrite length_take, ranked_length, Hxb, length_map. done. }
  exists (hits.*1 ++ replicate (Z.to_nat k - length hits)%nat Faiss.FLT_MAX),
    (hits.*2 ++ replicate (Z.to_nat k - length hits)%nat (-1)),
    ((fun h : Faiss.hit => Z.to_nat h.2) <$> hits),
    ((fun h : Faiss.hit => g h.2) <$> hits).
  split_and!.
  - unfold Faiss.search. destruct (Z.leb_spec k 0); [lia|]. reflexivity.
  - rewrite (map_outcome_returns _ g).
    + f_equal. rewrite map_app. f_equal.
      * change (map g hits.*2) with (g <$> (snd <$> hits)).
        by rewrite <- list_fmap_compose.
      * rewrite Hlen.
        replace (Z.to_nat k - Nat.min (Z.to_nat k) (length items))%nat
          with (Z.to_nat k - length items)%nat by lia.
        clear. induction (_ - _)%nat as [|m IH]; [done|]. cbn. by rewrite IH.
    + apply Forall_app. split.
      * apply Forall_fmap, Forall_forall. intros h Hh.
        by destruct (Hhit h Hh) as (_ & _ & _ & Hpy).
      * apply Forall_replicate. by apply py_index_last.
  - by rewrite length_fmap.
  - assert (Hnd : NoDup hits.*2).
    { unfold hits. rewrite fmap_take.
      eapply sublist_NoDup; [apply ranked_nodup | apply sublist_take]. }
    assert (Hpos : Forall (fun h : Faiss.hit => 0 <= h.2) hits).
    { apply Forall_forall. intros h Hh. by destruct (Hhit h Hh). }
    clear -Hnd Hpos. induction hits as [|h hs IH]; [constructor|].
    apply Forall_cons in Hpos as [Hh Hhs].
    apply NoDup_cons in Hnd as [Hnotin Hnd]. cbn. constructor; [|by apply IH].
    intros Hin. apply Hnotin.
    apply list_elem_of_fmap in Hin as (h' & Heq & Hh').
    apply list_elem_of_fmap. exists h'. split; [|done].
    rewrite Forall_forall in Hhs. specialize (Hhs h' Hh'). lia.
  - apply Forall2_fmap, Forall_Forall2_diag, Forall_forall.
    intros h Hh. by destruct (Hhit h Hh) as (_ & Hc & _).
  - assert (Hdist : forall l : list Faiss.hit,
              Forall (fun h => h ∈ hits) l ->
              map dist ((fun h : Faiss.hit => g h.2) <$> l) = l.*1).
    { induction l as [|h l IH]; intros Hall; [done|].
      apply Forall_cons in Hall as [Hh Hall]. cbn.
      destruct (Hhit h Hh) as (_ & _ & Hd & _).
      rewrite IH by done. by rewrite Hd. }
    rewrite Hdist by (by apply Forall_forall). unfold hits.
    rewrite fmap_take. apply Sorted_take.
    pose proof (isort_hits_sorted
                  (map (fun '(i, x) => (Faiss.l2sq q x, i))
                     (enumerate (Faiss.xb idx)))) as Hs.
    change (Sorted nearer (Faiss.ranked idx q)) in Hs.
    clear -Hs. induction Hs as [|h l Hl IH Hhd]; [constructor|].
    cbn. constructor; [done|]. destruct Hhd; constructor. done.
  - intros j c' c Hc' Hj Hc.
    assert (Hx : Faiss.xb idx !! j = Some (f c'))
      by (by rewrite Hxb, list_lookup_fmap, Hc').
    pose proof (ranked_complete idx q j _ Hx) as Hin.
    rewrite <- (take_drop (Z.to_nat k) (Faiss.ranked idx q)) in Hin.
    apply elem_of_app in Hin as [Hin | Hin].
    { destruct Hj. apply list_elem_of_fmap. eexists. split; [|exact Hin].
      simpl. by rewrite Nat2Z.id. }
    apply list_elem_of_fmap in Hc as (h & -> & Hh).
    destruct (Hhit h Hh) as (_ & _ & Hd & _).
    pose proof (ranked_prefix_nearest _ _ _ _ _ Hh Hin) as Hle.
    simpl in Hle. unfold dist in *. lia.
Qed.

(** X12. [VectorStore.search] on a store built from [n >= 1] chunks, with
    [top_k >= 1], always returns exactly [top_k] entries: the
    [min(top_k, n)] chunks nearest to the query, taken from distinct
    positions and nearest first, so that no chunk left out is nearer than
    one of them, followed by [top_k - n] copies of the last chunk, which
    label [-1] of the index selects. *)
Theorem vector_store_search_returns_top_k_entries
    (encode : sentence -> Faiss.vec) (chunks : list sentence)
    (previous : VectorStore.t) (query : text) (top_k : Z) :
  chunks <> [] ->
  1 <= top_k ->
  let store := (VectorStore.build encode chunks previous).1 in
  let dist c := Faiss.l2sq (encode (SStr query)) (encode c) in
  exists (positions : list nat) nearest last_chunk,
    VectorStore.search encode query top_k store
      = (store,
         Returned (nearest
                   ++ replicate (Z.to_nat top_k - length chunks) last_chunk))
    /\ last chunks = Some last_chunk
    /\ length nearest = Nat.min (Z.to_nat top_k) (length chunks)
    /\ NoDup positions
    /\ Forall2 (fun p c => chunks !! p = Some c) positions nearest
    /\ Sorted Z.le (map dist nearest)
    /\ forall j c' c,
         chunks !! j = Some c' -> j ∉ positions -> c ∈ nearest ->
         dist c <= dist c'.
Proof.
  intros Hne Hk. destruct chunks as [|c0 chunks0] eqn:Hchunks; [done|].
  rewrite <- Hchunks in *. clear Hne.
  assert (Hbuild : (VectorStore.build encode chunks previous).1
            = VectorStore.Store
                (Some (Faiss.add (Faiss.new (Z.of_nat (length (encode c0))))
                         (map encode chunks)))
                chunks).
  { rewrite Hchunks. by rewrite vector_store_build_nonempty. }
  intros store dist. subst store. rewrite Hbuild. clear Hbuild.
  set (idx := Faiss.add _ _).
  destruct (last chunks) as [lastc|] eqn:Hlast;
    [|apply last_None in Hlast; congruence].
  destruct (padded_search encode chunks idx (encode (SStr query)) top_k lastc)
    as (distances & labels & positions & nearest & Hsearch & Hpick & Hlen
        & Hnd & Hpos & Hsorted & Hnear); [done..|].
  exists positions, nearest, lastc. split_and!; try done.
  unfold VectorStore.search, reading. f_equal.
  cbn [VectorStore.index VectorStore.texts]. rewrite Hsearch. exact Hpick.
Qed.

Lemma vector_store_search_returns_top_k_entries_witness :
  let chunks := map SStr [txt "a"; txt "bbb"; txt "cc"] in
  let store := (VectorStore.build demo_encode chunks VectorStore.init).1 in
  exists (positions : list nat) nearest last_chunk,
    VectorStore.search demo_encode (txt "q") 5 store
      = (store, Returned (nearest ++ replicate 2 last_chunk))
    /\ last chunks = Some last_chunk
    /\ length nearest = 3%nat
    /\ NoDup positions
    /\ Forall2 (fun p c => chunks !! p = Some c) positions nearest.
Proof.
  destruct (vector_store_search_returns_top_k_entries demo_encode
              (map SStr [txt "a"; txt "bbb"; txt "cc"]) VectorStore.init
              (txt "q") 5)
    as (positions & nearest & last_chunk & Hs & Hlast & Hlen & Hnd & Hpos
        & _).
  - discriminate.
  - lia.
  - exists positions, nearest, last_chunk. split_and!; done.
Defined.

(** X13. The errors of [VectorStore]: [search] on a store without index
    raises "Index not built."; [build] on an empty chunk list raises
    [IndexError] at [embeddings.shape[1]] and assigns nothing, so that a new
    store is still without index afterwards; [search] with a negative
    [top_k] fails in the index and not with a Python error of the store. A
    build on chunks does not depend on what the store held before. *)
Theorem vector_store_errors
    (encode : sentence -> Faiss.vec) (self : VectorStore.t)
    (chunks : list sentence) (query : text) (top_k : Z) :
  (VectorStore.index self = None ->
     VectorStore.search encode query top_k self
       = (self, raise ValueError (txt "Index not built.")))
  /\ VectorStore.build encode [] self
     = (self, raise IndexError (txt "tuple index out of range"))
  /\ VectorStore.search encode query top_k
       (VectorStore.build encode [] VectorStore.init).1
     = (VectorStore.init, raise ValueError (txt "Index not built."))
  /\ (chunks <> [] -> top_k < 0 ->
      exists e,
        (VectorStore.search encode query top_k
           (VectorStore.build encode chunks self).1).2 = Raised e
        /\ exn_cls e = AssertionError)
  /\ (chunks <> [] ->
      VectorStore.build encode chunks self
      = VectorStore.build encode chunks VectorStore.init).
Proof.
  split_and!.
  - intros Hnone. unfold VectorStore.search, reading. by rewrite Hnone.
  - done.
  - done.
  - intros Hne Hk. destruct chunks as [|c chunks]; [done|].
    rewrite vector_store_build_nonempty. unfold VectorStore.search, reading.
    cbn [fst snd VectorStore.index]. unfold Faiss.search.
    destruct (Z.leb_spec top_k 0); [|lia]. eexists. split; [reflexivity|done].
  - intros Hne. destruct chunks as [|c chunks]; [done|].
    by rewrite !vector_store_build_nonempty.
Qed.

Lemma vector_store_errors_witness :
  VectorStore.search demo_encode (txt "q") 5 VectorStore.init
    = (VectorStore.init, raise ValueError (txt "Index not built."))
  /\ (exists e,
        (VectorStore.search demo_encode (txt "q") (-1)
           (VectorStore.build demo_encode [SStr (txt "a")]
              VectorStore.init).1).2 = Raised e
        /\ exn_cls e = AssertionError)
  /\ VectorStore.build demo_encode [SStr (txt "a")]
       (VectorStore.Store None [SStr (txt "b")])
     = VectorStore.build demo_encode [SStr (txt "a")] VectorStore.init.
Proof.
  split_and!.
  - apply (proj1 (vector_store_errors demo_encode VectorStore.init []
                    (txt "q") 5)).
    reflexivity.
  - apply (proj1 (proj2 (proj2 (proj2
             (vector_store_errors demo_encode VectorStore.init
                [SStr (txt "a")] (txt "q") (-1)))))).
    + discriminate.
    + lia.
  - apply (proj2 (proj2 (proj2 (proj2
             (vector_store_errors demo_encode
                (VectorStore.Store None [SStr (txt "b")])
                [SStr (txt "a")] (txt "q") 5))))).
    discriminate.
Defined.

(** ** llm_client.py *)

Lemma member_strip_stripped value out :
  LlmClient.member_strip value = Returned out -> strip out = out.
Proof.
  destruct value as [s| | | | | |]; simpl; try discriminate.
  intros [= <-]. apply strip_idemp.
Qed.

Lemma ollama_try_stripped requests_post prompt model out :
  LlmClient.ollama_try requests_post prompt model = Returned out ->
  strip out = out.
Proof.
  unfold LlmClient.ollama_try.
  destruct (requests_post _) as [r| |]; simpl; try discriminate.
  destruct (LlmClient.raise_for_status r) as [[]| |]; simpl; try discriminate.
  destruct (LlmClient.json_body r) as [body| |]; simpl; try discriminate.
  destruct (LlmClient.dict_get body _ _) as [value| |]; simpl;
    try discriminate.
  apply member_strip_stripped.
Qed.

Lemma call_ollama_returned requests_post prompt model out :
  LlmClient.call_ollama requests_post prompt model = Returned out ->
  strip out = out \/ starts_with (txt "[OLLAMA ERROR] ") out = true.
Proof.
  unfold LlmClient.call_ollama, try_except.
  destruct (LlmClient.ollama_try requests_post prompt model)
    as [a|e|] eqn:Htry; try discriminate.
  - intros [= <-]. left. by eapply ollama_try_stripped.
  - destruct (is_Exception (exn_cls e)); [|discriminate].
    intros [= <-]. right. apply starts_with_spec. by eexists.
Qed.

(** X14. [call_ollama] either returns the stripped [response] member of
    the JSON body or a text that starts with "[OLLAMA ERROR] ", and lets no
    [Exception] through. When the backend answers with a JSON object, a
    missing [response] member gives the empty text and a member that is not
    a string gives the error text that names its type; of several
    [response] members the last counts. A JSON body that is not an object
    gives the error text for its missing [get]. *)
Theorem call_ollama_result
    (requests_post : LlmClient.request -> outcome LlmClient.response)
    (prompt model : text) :
  (forall out,
     LlmClient.call_ollama requests_post prompt model = Returned out ->
     strip out = out \/ starts_with (txt "[OLLAMA ERROR] ") out = true)
  /\ (forall e,
        LlmClient.call_ollama requests_post prompt model = Raised e ->
        is_Exception (exn_cls e) = false)
  /\ (forall r members,
        requests_post
          (LlmClient.Request LlmClient.OLLAMA_URL model prompt false 600)
          = Returned r ->
        LlmClient.raise_for_status r = Returned tt ->
        LlmClient.json_body r = Returned (LlmClient.JObject members) ->
        LlmClient.call_ollama requests_post prompt model
        = Returned
            match LlmClient.assoc_last (txt "response") members with
            | None => []
            | Some (LlmClient.MStr s) => strip s
            | Some value =>
                txt "[OLLAMA ERROR] '" ++ LlmClient.member_type value
                ++ txt "' object has no attribute 'strip'"
            end)
  /\ (forall r body,
        requests_post
          (LlmClient.Request LlmClient.OLLAMA_URL model prompt false 600)
          = Returned r ->
        LlmClient.raise_for_status r = Returned tt ->
        LlmClient.json_body r = Returned body ->
        (forall members, body <> LlmClient.JObject members) ->
        LlmClient.call_ollama requests_post prompt model
        = Returned (txt "[OLLAMA ERROR] '" ++ LlmClient.json_type body
                    ++ txt "' object has no attribute 'get'")).
Proof.
  split_and!.
  - apply call_ollama_returned.
  - apply call_ollama_no_exception.
  - intros r members Hr Hs Hb.
    unfold LlmClient.call_ollama, LlmClient.ollama_try,
      LlmClient.ollama_request.
    rewrite Hr. simpl. rewrite Hs. simpl. rewrite Hb. simpl.
    destruct (LlmClient.assoc_last _ members) as [[s| | | | | |]|];
      reflexivity.
  - intros r body Hr Hs Hb Hno.
    unfold LlmClient.call_ollama, LlmClient.ollama_try,
      LlmClient.ollama_request.
    rewrite Hr. simpl. rewrite Hs. simpl. rewrite Hb. simpl.
    destruct body as [members| | | | | |]; try reflexivity.
    by destruct (Hno members).
Qed.

Lemma call_ollama_result_witness :
  LlmClient.call_ollama
    (fun _ => Returned
       (LlmClient.Response (Returned tt)
          (Returned (LlmClient.JObject
             [(txt "response", LlmClient.MStr (txt " first "));
              (txt "done", LlmClient.MBool);
              (txt "response", LlmClient.MStr (txt " second "))]))))
    (txt "Why?") LlmClient.OLLAMA_MODEL_NAME
  = Returned (txt "second")
  /\ (strip (txt "second") = txt "second"
      \/ starts_with (txt "[OLLAMA ERROR] ") (txt "second") = true)
  /\ LlmClient.call_ollama
       (fun _ => Returned
          (LlmClient.Response (Returned tt)
             (Returned (LlmClient.JObject
                [(txt "response", LlmClient.MInt)]))))
       (txt "Why?") LlmClient.OLLAMA_MODEL_NAME
     = Returned (txt "[OLLAMA ERROR] 'int' object has no attribute 'strip'")
  /\ LlmClient.call_ollama
       (fun _ => Returned
          (LlmClient.Response (Returned tt) (Returned LlmClient.JList)))
       (txt "Why?") LlmClient.OLLAMA_MODEL_NAME
     = Returned (txt "[OLLAMA ERROR] 'list' object has no attribute 'get'").
Proof.
  set (backend := fun _ : LlmClient.request => _).
  destruct (call_ollama_result backend (txt "Why?")
              LlmClient.OLLAMA_MODEL_NAME) as (Hout & _ & Hok & _).
  assert (Hcall : LlmClient.call_ollama backend (txt "Why?")
                    LlmClient.OLLAMA_MODEL_NAME = Returned (txt "second")).
  { rewrite (Hok _ _ eq_refl eq_refl eq_refl). vm_compute. reflexivity. }
  split; [exact Hcall|]. split; [apply Hout; exact Hcall|]. split.
  - exact (proj1 (proj2 (proj2 (call_ollama_result
             (fun _ => Returned
                (LlmClient.Response (Returned tt)
                   (Returned (LlmClient.JObject
                      [(txt "response", LlmClient.MInt)]))))
             (txt "Why?") LlmClient.OLLAMA_MODEL_NAME)))
             _ _ eq_refl eq_refl eq_refl).
  - apply (proj2 (proj2 (proj2 (call_ollama_result
             (fun _ => Returned
                (LlmClient.Response (Returned tt) (Returned LlmClient.JList)))
             (txt "Why?") LlmClient.OLLAMA_MODEL_NAME)))
             _ _ eq_refl eq_refl eq_refl).
    discriminate.
Defined.

(** X15. [call_llm] always goes to Ollama. It raises [ValueError] when it
    gets no positional argument, and this is the only [Exception] it
    raises; with one argument the prompt is the argument, with two or more
    it is the first two joined by an empty line, the others being ignored;
    the model is the keyword argument, or [OLLAMA_MODEL_NAME]. *)
Theorem call_llm_routes_to_ollama
    (requests_post : LlmClient.request -> outcome LlmClient.response)
    (args : list text) (model_kw : option text) :
  (forall e,
     LlmClient.call_llm requests_post args model_kw = Raised e ->
     is_Exception (exn_cls e) = true ->
     args = []
     /\ e = Exn ValueError
              (txt "call_llm expects 1 or 2 positional arguments."))
  /\ (forall a rest,
        args = a :: rest ->
        LlmClient.call_llm requests_post args model_kw
        = LlmClient.call_ollama requests_post
            match rest with
            | [] => a
            | b :: _ => a ++ txt "

" ++ b
            end
            (default LlmClient.OLLAMA_MODEL_NAME model_kw))
  /\ (forall out,
        LlmClient.call_llm requests_post args model_kw = Returned out ->
        strip out = out \/ starts_with (txt "[OLLAMA ERROR] ") out = true).
Proof.
  split_and!.
  - intros e. unfold LlmClient.call_llm.
    destruct args as [|a [|b rest]].
    + by intros [= <-].
    + intros H%call_ollama_no_exception. congruence.
    + intros H%call_ollama_no_exception. congruence.
  - intros a rest ->. by destruct rest.
  - intros out. unfold LlmClient.call_llm.
    destruct args as [|a [|b rest]]; [discriminate|..];
      apply call_ollama_returned.
Qed.

Lemma call_llm_routes_to_ollama_witness :
  LlmClient.call_llm timeout_backend
    [txt "You are helpful."; txt "Why?"; txt "ignored"] None
  = LlmClient.call_ollama timeout_backend
      (txt "You are helpful.

Why?") (txt "llama3.1:latest").
Proof.
  apply (proj1 (proj2 (call_llm_routes_to_ollama timeout_backend
                         [txt "You are helpful."; txt "Why?"; txt "ignored"]
                         None))
           (txt "You are helpful.") [txt "Why?"; txt "ignored"]).
  reflexivity.
Defined.

(** *** [call_gemini] *)

Lemma gemini_try_returned generate_content args out :
  Gemini.gemini_try generate_content args = Returned out ->
  strip out = out
  \/ exists prompt resp,
       generate_content Gemini.GEMINI_MODEL_NAME prompt = Returned resp
       /\ out = Gemini.resp_str resp.
Proof.
  unfold Gemini.gemini_try.
  destruct (match args with [a] => _ | _ => _ end) as [prompt| |];
    simpl; try discriminate.
  destruct (generate_content Gemini.GEMINI_MODEL_NAME prompt)
    as [resp| |] eqn:Hresp; simpl; try discriminate.
  destruct (Gemini.hasattr (Gemini.resp_text resp)) as [has| |]; simpl;
    try discriminate.
  destruct (if has then _ else _) as [use| |]; simpl; try discriminate.
  destruct use.
  - destruct (Gemini.resp_text resp) as [t| |]; simpl; try discriminate.
    intros [= <-]. left. apply strip_idemp.
  - destruct (Gemini.getattr_default _ _) as [cands| |]; simpl;
      try discriminate.
    destruct cands as [|first cands].
    + intros [= <-]. right. eauto.
    + destruct (Gemini.content_parts first) as [parts| |]; simpl;
        try discriminate.
      destruct (Gemini.part_texts parts) as [texts| |]; simpl;
        try discriminate.
      intros [= <-]. left. apply strip_idemp.
Qed.

(** X16. [call_gemini] lets no [Exception] through: what goes wrong in the
    call becomes a text that starts with "[GEMINI ERROR] ". With no or more
    than two arguments that text is the arity message, and the model is not
    called. Two arguments are stripped before they are joined, one argument
    is sent as it is. A result that is no error text is stripped, unless it
    is [str(resp)] of a response without text and without candidates. *)
Theorem call_gemini_result
    (generate_content : text -> text -> outcome Gemini.response)
    (args : list text) :
  (forall e,
     Gemini.call_gemini generate_content args = Raised e ->
     is_Exception (exn_cls e) = false)
  /\ (length args <> 1%nat -> length args <> 2%nat ->
      forall other_backend,
        Gemini.call_gemini other_backend args
        = Returned
            (txt "[GEMINI ERROR] call_gemini expects 1 or 2 arguments"))
  /\ (forall a b,
        args = [a; b] ->
        Gemini.call_gemini generate_content args
        = Gemini.call_gemini generate_content
            [strip a ++ txt "

USER:
" ++ strip b])
  /\ (forall out,
        Gemini.call_gemini generate_content args = Returned out ->
        strip out = out
        \/ starts_with (txt "[GEMINI ERROR] ") out = true
        \/ exists prompt resp,
             generate_content Gemini.GEMINI_MODEL_NAME prompt = Returned resp
             /\ out = Gemini.resp_str resp).
Proof.
  split_and!.
  - intros e. unfold Gemini.call_gemini, try_except.
    destruct (Gemini.gemini_try generate_content args) as [a|e'|];
      try discriminate.
    destruct (is_Exception (exn_cls e')) eqn:He'; [discriminate|].
    by intros [= <-].
  - intros H1 H2 other. destruct args as [|a [|b [|c rest]]]; try done.
  - intros a b ->. reflexivity.
  - intros out. unfold Gemini.call_gemini, try_except.
    destruct (Gemini.gemini_try generate_content args) as [a|e'|] eqn:Htry;
      try discriminate.
    + intros [= <-].
      destruct (gemini_try_returned _ _ _ Htry) as [H | H]; auto.
    + destruct (is_Exception (exn_cls e')); [|discriminate].
      intros [= <-]. right. left. apply starts_with_spec. by eexists.
Qed.

Lemma call_gemini_result_witness :
  Gemini.call_gemini (fun _ _ => raise Timeout (txt "deadline"))
    [txt "a"; txt "b"; txt "c"]
  = Returned (txt "[GEMINI ERROR] call_gemini expects 1 or 2 arguments")
  /\ Gemini.call_gemini (fun _ p => Returned (Gemini.Response
         (Returned p) (Returned []) (txt "<response>")))
       [txt " sys "; txt " user "]
     = Gemini.call_gemini (fun _ p => Returned (Gemini.Response
         (Returned p) (Returned []) (txt "<response>")))
       [txt "sys

USER:
user"].
Proof.
  split.
  - apply (proj1 (proj2 (call_gemini_result
                           (fun _ _ => raise Timeout (txt "deadline"))
                           [txt "a"; txt "b"; txt "c"]))).
    + simpl. lia.
    + simpl. lia.
  - apply (proj1 (proj2 (proj2 (call_gemini_result
             (fun _ p => Returned (Gemini.Response
                (Returned p) (Returned []) (txt "<response>")))
             [txt " sys "; txt " user "])))
             (txt " sys ") (txt " user ")).
    reflexivity.
Defined.

(** ** memory.py and agents.py *)

Lemma substring_refl {A} (a : list A) : substring_of a a.
Proof. exists [], []. by rewrite app_nil_r. Qed.

Lemma substring_app_l {A} (a b c : list A) :
  substring_of a b -> substring_of a (b ++ c).
Proof. intros (pre & post & ->). exists pre, (post ++ c). by rewrite <- !app_assoc. Qed.

Lemma substring_app_r {A} (a b c : list A) :
  substring_of a c -> substring_of a (b ++ c).
Proof. intros (pre & post & ->). exists (b ++ pre), post. by rewrite <- !app_assoc. Qed.

Lemma join_snoc sep l x :
  join sep (l ++ [x])
  = (if truthy l then join sep l ++ sep else []) ++ x.
Proof.
  induction l as [|p l IH]; [done|].
  cbn [app truthy]. destruct l as [|p' l].
  - simpl. by rewrite <- app_assoc.
  - change (join sep (p :: (p' :: l) ++ [x]))
      with (p ++ sep ++ join sep ((p' :: l) ++ [x])).
    rewrite IH. cbn [truthy].
    change (join sep (p :: p' :: l)) with (p ++ sep ++ join sep (p' :: l)).
    by rewrite <- !app_assoc.
Qed.

Lemma join_elem_substring sep l x :
  x ∈ l -> substring_of x (join sep l).
Proof.
  induction l as [|p l IH]; [by intros ?%elem_of_nil|].
  intros [-> | Hin]%elem_of_cons.
  - destruct l; [apply substring_refl|].
    apply substring_app_l, substring_refl.
  - destruct l as [|p' l]; [by apply elem_of_nil in Hin|].
    change (join sep (p :: p' :: l)) with (p ++ sep ++ join sep (p' :: l)).
    by apply substring_app_r, substring_app_r, IH.
Qed.

Lemma dump_lines memory :
  Forall (fun x => substring_of (Memory.line x) (Memory.dump_as_text memory))
    (Memory.logs memory).
Proof.
  apply Forall_forall. intros x Hx. unfold Memory.dump_as_text.
  destruct (Memory.logs memory) as [|y l] eqn:Hl;
    [by apply elem_of_nil in Hx|].
  cbn [truthy negb]. apply join_elem_substring.
  by apply list_elem_of_fmap_2.
Qed.

(** X17. [SimpleMemory]: a new memory dumps as "(no prior memory)"; [add]
    appends one entry, and the dump after it is the dump before it, a
    newline and the line "[agent] content" of the new entry, or the line
    alone when the memory was empty. A dump contains the line of every
    entry, and the dump of a memory with an entry is never the placeholder
    of the empty one. *)
Theorem memory_dump_after_add (memory : Memory.t) (agent_name content : text) :
  let memory' := (Memory.add agent_name content memory).1 in
  Memory.dump_as_text Memory.init = txt "(no prior memory)"
  /\ Memory.logs memory'
     = Memory.logs memory ++ [Memory.Log agent_name content]
  /\ Memory.dump_as_text memory'
     = (if truthy (Memory.logs memory)
        then Memory.dump_as_text memory ++ txt "
"
        else [])
       ++ txt "[" ++ agent_name ++ txt "] " ++ content
  /\ Forall (fun x =>
               substring_of (Memory.line x) (Memory.dump_as_text memory'))
       (Memory.logs memory')
  /\ Memory.dump_as_text memory' <> txt "(no prior memory)".
Proof.
  intros memory'.
  assert (Hdump : Memory.dump_as_text memory'
     = (if truthy (Memory.logs memory)
        then Memory.dump_as_text memory ++ txt "
"
        else [])
       ++ txt "[" ++ agent_name ++ txt "] " ++ content).
  { unfold memory', Memory.add, assign, Memory.dump_as_text. cbn [fst Memory.logs].
    destruct (Memory.logs memory) as [|x l] eqn:Hl; [done|].
    rewrite <- Hl. rewrite map_app. cbn [map].
    rewrite join_snoc. rewrite Hl. done. }
  split_and!; [done|done|exact Hdump|apply dump_lines|].
  rewrite Hdump. unfold Memory.dump_as_text.
  destruct (Memory.logs memory) as [|x l]; [discriminate|].
  cbn [truthy negb].
  destruct l as [|y l]; discriminate.
Qed.

Lemma call_and_log_unfold requests_post self system_prompt full_prompt memory :
  Agents.call_and_log requests_post self system_prompt full_prompt memory
  = match LlmClient.call_ollama requests_post
            (system_prompt ++ txt "

" ++ full_prompt) LlmClient.OLLAMA_MODEL_NAME with
    | Returned result =>
        ((Memory.add (Agents.name self) result memory).1, Returned result)
    | r => (memory, r)
    end.
Proof.
  unfold Agents.call_and_log, pure_step, mbind, action_bind.
  unfold LlmClient.call_llm. cbn [default].
  by destruct (LlmClient.call_ollama _ _ _).
Qed.

(** X18. The [run] method of every agent class makes one call of the local
    model, with a prompt that contains the task, the context and the dump
    of the shared memory, and so the line of every earlier result. When the
    call returns, [run] returns the result and has appended it to the
    memory under the agent's name; otherwise the memory is as before. No
    [Exception] comes out of [run]: a backend that fails gives an error
    text, which is logged like an answer. *)
Theorem agent_run_logs_its_result
    (requests_post : LlmClient.request -> outcome LlmClient.response)
    (cls : agent_class) (self : Agents.t) (task context : text)
    (memory : Memory.t) :
  exists prompt,
    agent_run requests_post cls self task context memory
    = match LlmClient.call_ollama requests_post prompt
              LlmClient.OLLAMA_MODEL_NAME with
      | Returned result =>
          (Memory.SimpleMemory
             (Memory.logs memory ++ [Memory.Log (Agents.name self) result]),
           Returned result)
      | r => (memory, r)
      end
    /\ substring_of task prompt
    /\ substring_of context prompt
    /\ substring_of (Memory.dump_as_text memory) prompt
    /\ Forall (fun x => substring_of (Memory.line x) prompt)
         (Memory.logs memory)
    /\ forall memory' e,
         agent_run requests_post cls self task context memory
           = (memory', Raised e) ->
         memory' = memory /\ is_Exception (exn_cls e) = false.
Proof.
  assert (Hmain : exists prompt,
    agent_run requests_post cls self task context memory
    = match LlmClient.call_ollama requests_post prompt
              LlmClient.OLLAMA_MODEL_NAME with
      | Returned result =>
          (Memory.SimpleMemory
             (Memory.logs memory ++ [Memory.Log (Agents.name self) result]),
           Returned result)
      | r => (memory, r)
      end
    /\ substring_of task prompt
    /\ substring_of context prompt
    /\ substring_of (Memory.dump_as_text memory) prompt).
  { destruct cls; cbn [agent_run];
      unfold Agents.base_run, Agents.planner_run, Agents.solver_run,
        Agents.improvement_run;
      rewrite call_and_log_unfold; eexists; (split; [reflexivity|]);
      unfold Agents.base_full_prompt, Agents.planner_full_prompt,
        Agents.solver_full_prompt, Agents.improvement_full_prompt;
      split_and!;
      eauto 12 using @substring_refl, @substring_app_l, @substring_app_r. }
  destruct Hmain as (prompt & Hrun & Ht & Hc & Hd).
  exists prompt. split_and!; try done.
  - eapply Forall_impl; [apply dump_lines|].
    intros x Hx. simpl in Hx. eapply substring_trans; [exact Hx|exact Hd].
  - intros memory' e. rewrite Hrun.
    destruct (LlmClient.call_ollama requests_post prompt _) as [r|e'|] eqn:Hcall;
      [discriminate| |discriminate].
    intros [= <- <-]. split; [done|]. by eapply call_ollama_no_exception.
Qed.

Lemma agent_run_logs_its_result_witness :
  Memory.init = Memory.init
  /\ is_Exception (exn_cls (Exn KeyboardInterrupt (txt "stop"))) = false.
Proof.
  destruct (agent_run_logs_its_result
              (fun _ => raise KeyboardInterrupt (txt "stop"))
              PlannerAgentClass
              (Agents.BaseAgent (txt "Planner") (txt "planner")
                 (txt "research"))
              (txt "Plan a survey.") [] Memory.init)
    as (prompt & _ & _ & _ & _ & _ & Hraise).
  apply (Hraise Memory.init (Exn KeyboardInterrupt (txt "stop"))).
  vm_compute. reflexivity.
Defined.

(** ** ui_app.py: the score of an evaluation *)

Lemma span_spec p s :
  s = (UiApp.span p s).1 ++ (UiApp.span p s).2
  /\ Forall (fun c => p c = true) (UiApp.span p s).1
  /\ (forall c, head (UiApp.span p s).2 = Some c -> p c = false).
Proof.
  induction s as [|c s (IH1 & IH2 & IH3)]; simpl.
  - split_and!; [done|constructor|discriminate].
  - destruct (p c) eqn:Hc.
    + destruct (UiApp.span p s) as [run rest]. simpl in *.
      split_and!; [by f_equal|by constructor|done].
    + simpl. split_and!; [done|constructor|]. by intros c' [= <-].
Qed.

(** [span] is determined by its specification. *)
Lemma span_stop p run rest :
  Forall (fun c => p c = true) run ->
  (forall c, head rest = Some c -> p c = false) ->
  UiApp.span p (run ++ rest) = (run, rest).
Proof.
  intros Hrun Hrest. induction Hrun as [|c run Hc _ IH]; simpl.
  - destruct rest as [|d rest]; [done|]. simpl. by rewrite (Hrest d).
  - by rewrite Hc, IH.
Qed.

Lemma digit_not_space c : UiApp.is_digit c = true -> is_space c = false.
Proof.
  unfold UiApp.is_digit, is_space. cbv zeta.
  generalize (N_of_ascii c). intros n.
  rewrite andb_true_iff, !N.leb_le. intros [H1 H2].
  repeat match goal with
         | |- context [(?a <=? ?b)%N] => destruct (N.leb_spec a b)
         | |- context [(?a =? ?b)%N] => destruct (N.eqb_spec a b)
         end; simpl; try done; lia.
Qed.

Lemma greedy_numeral_head num post :
  greedy_numeral num post ->
  exists d tail, num = d :: tail /\ UiApp.is_digit d = true.
Proof.
  intros (ip & Hne & Hip & Hnum).
  destruct ip as [|d ip]; [done|]. apply Forall_cons in Hip as [Hd _].
  destruct Hnum as [(-> & _) | (fp & _ & _ & -> & _)]; eauto.
Qed.

Lemma match_score_here_sound s num :
  UiApp.match_score_here s = Some num ->
  exists ws post,
    s = txt "SCORE:" ++ ws ++ num ++ post
    /\ blank ws /\ greedy_numeral num post.
Proof.
  unfold UiApp.match_score_here.
  destruct (starts_with (txt "SCORE:") s) eqn:Hs; [|discriminate].
  apply starts_with_spec in Hs as [tail ->].
  change (drop 6 (txt "SCORE:" ++ tail)) with tail.
  destruct (span_spec is_space tail) as (Ht & Hws & _).
  set (ws := (UiApp.span is_space tail).1) in *.
  set (after := (UiApp.span is_space tail).2) in *.
  destruct (span_spec UiApp.is_digit after) as (Ha & Hint & Hstop).
  destruct (UiApp.span UiApp.is_digit after) as [int_part rest] eqn:Hspan.
  simpl in Ha, Hint, Hstop.
  destruct (truthy int_part) eqn:Hne; [|discriminate].
  apply truthy_true in Hne.
  assert (Hplain : (forall rest', rest = "."%char :: rest' ->
                      no_digit_ahead rest') ->
            Some int_part = Some num ->
            exists ws post,
              txt "SCORE:" ++ tail = txt "SCORE:" ++ ws ++ num ++ post
              /\ blank ws /\ greedy_numeral num post).
  { intros Hpoint [= <-]. exists ws, rest. split_and!.
    - by rewrite Ht, Ha.
    - done.
    - exists int_part. split_and!; [done|done|]. left. by split_and!. }
  destruct rest as [|c rest']; [by apply Hplain|].
  destruct (Ascii.eqb_spec c "."%char) as [->|Hc].
  - destruct (span_spec UiApp.is_digit rest') as (Hr & Hfrac & Hstop').
    destruct (truthy (UiApp.span UiApp.is_digit rest').1) eqn:Hf.
    + intros [= <-]. exists ws, (UiApp.span UiApp.is_digit rest').2.
      split_and!.
      * rewrite Ht at 1. rewrite Ha, Hr at 1. by rewrite <- !app_assoc.
      * done.
      * exists int_part. split_and!; [done|done|]. right.
        eexists. split_and!; [by apply truthy_true|done|done|done].
    + apply Hplain. intros rest'' [= <-]. apply truthy_false in Hf.
      rewrite Hf in Hr. simpl in Hr. by rewrite Hr.
  - intros H. apply Hplain; [by intros rest'' [= -> _]|]. revert H.
    destruct c as [[] [] [] [] [] [] [] []]; try done.
Qed.

(** The pattern matches at the start of a text of that form, and group 1
    is the greedy numeral. *)
Lemma match_score_here_complete ws num post :
  blank ws -> greedy_numeral num post ->
  UiApp.match_score_here (txt "SCORE:" ++ ws ++ num ++ post) = Some num.
Proof.
  intros Hws Hnum.
  destruct (greedy_numeral_head _ _ Hnum) as (d & tail & Hd & Hdigit).
  unfold UiApp.match_score_here.
  assert (Hs : starts_with (txt "SCORE:") (txt "SCORE:" ++ ws ++ num ++ post)
               = true) by (apply starts_with_spec; eauto).
  rewrite Hs.
  change (drop 6 (txt "SCORE:" ++ ws ++ num ++ post)) with (ws ++ num ++ post).
  rewrite (span_stop is_space ws (num ++ post) Hws).
  2:{ rewrite Hd. intros c [= <-]. by apply digit_not_space. }
  cbn [snd]. clear d tail Hd Hdigit Hs.
  destruct Hnum as (ip & Hne & Hip & [(-> & Hpost & Hpoint)
                                    | (fp & Hfne & Hfp & -> & Hpost)]).
  - rewrite (span_stop UiApp.is_digit ip post Hip Hpost).
    apply truthy_true in Hne. rewrite Hne.
    destruct post as [|c rest]; [done|].
    destruct (Ascii.eqb_spec c "."%char) as [->|Hc].
    + pose proof (span_stop UiApp.is_digit [] rest ltac:(constructor)
                    (Hpoint rest eq_refl)) as Hsp.
      cbn [app] in Hsp. by rewrite Hsp.
    + destruct c as [[] [] [] [] [] [] [] []]; done.
  - rewrite <- !app_assoc.
    rewrite (span_stop UiApp.is_digit ip (txt "." ++ fp ++ post) Hip).
    2:{ by intros c [= <-]. }
    apply truthy_true in Hne. rewrite Hne. cbn [app txt list_ascii_of_string].
    rewrite (span_stop UiApp.is_digit fp post Hfp Hpost). cbn [fst].
    apply truthy_true in Hfne. by rewrite Hfne.
Qed.

Lemma match_score_here_starts s :
  is_Some (UiApp.match_score_here s) <-> score_starts s.
Proof.
  split.
  - intros [num (ws & post & -> & Hws & Hnum)%match_score_here_sound].
    destruct (greedy_numeral_head _ _ Hnum) as (d & tail & -> & Hd).
    exists ws, d, (tail ++ post). by split_and!.
  - intros (ws & d & rest & -> & Hws & Hd). unfold UiApp.match_score_here.
    assert (Hs : starts_with (txt "SCORE:") (txt "SCORE:" ++ ws ++ d :: rest)
                 = true) by (apply starts_with_spec; eauto).
    rewrite Hs.
    change (drop 6 (txt "SCORE:" ++ ws ++ d :: rest)) with (ws ++ d :: rest).
    rewrite (span_stop is_space ws (d :: rest) Hws).
    2:{ intros c [= <-]. by apply digit_not_space. }
    cbn [snd UiApp.span]. rewrite Hd.
    destruct (UiApp.span UiApp.is_digit rest) as [run rest'].
    cbn [truthy]. destruct rest' as [|c rest'']; [eauto|].
    destruct c as [[] [] [] [] [] [] [] []]; eauto.
    destruct (truthy _); eauto.
Qed.

Lemma search_score_sound s num :
  UiApp.search_score s = Some num ->
  exists pre rest,
    s = pre ++ rest
    /\ UiApp.match_score_here rest = Some num
    /\ forall pre' rest',
         s = pre' ++ rest' -> score_starts rest' ->
         (length pre <= length pre')%nat.
Proof.
  induction s as [|c s IH].
  - vm_compute. discriminate.
  - cbn [UiApp.search_score].
    destruct (UiApp.match_score_here (c :: s)) as [n|] eqn:Hm.
    + intros [= <-]. exists [], (c :: s). split_and!; [done|done|simpl; lia].
    + intros (pre & rest & -> & Hrest & Hfirst)%IH.
      exists (c :: pre), rest. split_and!; [done|done|].
      intros pre' rest' Heq Hst. destruct pre' as [|c' pre'].
      * simpl in Heq. subst rest'.
        apply match_score_here_starts in Hst as [? Hst]. congruence.
      * injection Heq as -> Heq. simpl.
        specialize (Hfirst pre' rest' Heq Hst). lia.
Qed.

(** The search returns the match at the first position where the pattern
    matches. *)
Lemma search_score_first pre rest num :
  UiApp.match_score_here rest = Some num ->
  (forall pre' rest',
     pre ++ rest = pre' ++ rest' -> score_starts rest' ->
     (length pre <= length pre')%nat) ->
  UiApp.search_score (pre ++ rest) = Some num.
Proof.
  intros Hm. induction pre as [|c pre IH]; intros Hfirst.
  - destruct rest as [|c rest]; [by vm_compute in Hm|].
    cbn [app UiApp.search_score]. by rewrite Hm.
  - cbn [app UiApp.search_score].
    destruct (UiApp.match_score_here (c :: pre ++ rest)) as [n|] eqn:Hhere.
    + assert (Hst : score_starts (c :: pre ++ rest))
        by (apply match_score_here_starts; eauto).
      specialize (Hfirst [] (c :: pre ++ rest) eq_refl Hst). simpl in Hfirst.
      lia.
    + apply IH. intros pre' rest' Heq Hst.
      specialize (Hfirst (c :: pre') rest'). simpl in Hfirst.
      rewrite Heq in Hfirst. specialize (Hfirst eq_refl Hst). lia.
Qed.

Lemma search_score_complete s pre rest :
  s = pre ++ rest -> score_starts rest -> is_Some (UiApp.search_score s).
Proof.
  intros -> Hst. induction pre as [|c pre IH].
  - simpl. apply match_score_here_starts in Hst as [n Hn].
    destruct rest as [|c rest]; [by vm_compute in Hn|].
    cbn [app UiApp.search_score]. rewrite Hn. eauto.
  - cbn [app UiApp.search_score].
    destruct (UiApp.match_score_here (c :: pre ++ rest)); eauto.
Qed.

(** X19. The pattern search of [extract_score]. It finds the numeral [num]
    exactly when the text is [pre ++ "SCORE:" ++ ws ++ num ++ post] with
    [ws] whitespace, [num] the numeral [digits] or [digits.digits] taken
    greedily from what follows (all the digits, and the point with all the
    digits after it when a digit follows the point), and no occurrence of
    "SCORE:", optional whitespace and a digit begins before [pre] ends:
    the first score counts, and it is read in full. It finds none, so that
    [extract_score] returns [-1.0], exactly when the text has no such
    occurrence. *)
Theorem extract_score_reads_first_score (s : text) :
  (forall num,
     UiApp.search_score s = Some num <->
     exists pre ws post,
       s = pre ++ txt "SCORE:" ++ ws ++ num ++ post
       /\ blank ws
       /\ greedy_numeral num post
       /\ forall pre' rest',
            s = pre' ++ rest' -> score_starts rest' ->
            (length pre <= length pre')%nat)
  /\ (UiApp.search_score s = None
      <-> forall pre rest, s = pre ++ rest -> ~ score_starts rest)
  /\ forall (float : Type) (float_of_text : text -> float) (minus_one : float),
       UiApp.extract_score float float_of_text minus_one s
       = from_option float_of_text minus_one (UiApp.search_score s).
Proof.
  split_and!.
  - intros num. split.
    + intros (pre & rest & -> & Hm & Hfirst)%search_score_sound.
      apply match_score_here_sound in Hm as (ws & post & -> & Hws & Hnum).
      exists pre, ws, post. split_and!; done.
    + intros (pre & ws & post & -> & Hws & Hnum & Hfirst).
      apply search_score_first; [|done].
      by apply match_score_here_complete.
  - split.
    + intros Hnone pre rest Heq Hst.
      destruct (search_score_complete s pre rest Heq Hst) as [n Hn].
      congruence.
    + intros Hno. destruct (UiApp.search_score s) as [num|] eqn:Hs; [|done].
      apply search_score_sound in Hs as (pre & rest & Heq & Hm & _).
      destruct (Hno pre rest Heq). apply match_score_here_starts. eauto.
  - intros float f m. unfold UiApp.extract_score.
    by destruct (UiApp.search_score s).
Qed.

Lemma extract_score_reads_first_score_witness :
  UiApp.search_score (txt "Fair. SCORE:  7.5/10, not SCORE: 9")
  = Some (txt "7.5").
Proof.
  apply (proj1 (extract_score_reads_first_score
                  (txt "Fair. SCORE:  7.5/10, not SCORE: 9"))).
  exists (txt "Fair. "), (txt "  "), (txt "/10, not SCORE: 9").
  split_and!.
  - reflexivity.
  - repeat constructor.
  - exists (txt "7"). split_and!; [done|repeat constructor|].
    right. exists (txt "5").
    split_and!; [done|repeat constructor|done|by intros c [= <-]].
  - intros pre' rest' Heq Hst.
    assert (Hfew : (length pre' < 6)%nat \/ (6 <= length pre')%nat) by lia.
    destruct Hfew as [Hfew | Hmany]; [|simpl; lia].
    destruct Hst as (ws & d & rest & -> & _).
    do 6 (destruct pre' as [|? pre']; [discriminate|]).
    simpl in Hfew. lia.
Defined.

(** *** [evaluate_answer] *)

Lemma occurrence_after_prefix (prefix msg pre : text) c tail :
  Forall (fun x => x <> c) prefix ->
  prefix ++ msg = pre ++ c :: tail ->
  exists pre', msg = pre' ++ c :: tail.
Proof.
  intros Hp. revert pre. induction Hp as [|x prefix Hx _ IH]; intros pre Heq.
  - by exists pre.
  - destruct pre as [|y pre]; simpl in Heq.
    + injection Heq as -> _. done.
    + injection Heq as _ Heq. by eapply IH.
Qed.

(** X20. [evaluate_answer] sends the stripped system prompt and the
    stripped user content to Gemini and never raises an [Exception]. When
    the model call fails with an exception whose message does not contain
    "SCORE:", the evaluation text is the error text and the score is
    [-1.0]. *)
Theorem evaluate_answer_on_failure
    (float : Type) (float_of_text : text -> float) (minus_one : float)
    (generate_content : text -> text -> outcome Gemini.response)
    (question final_answer : text) (used_rag : bool) (mode : text) :
  let prompt :=
    strip UiApp.evaluation_system_prompt ++ txt "

USER:
" ++ strip (UiApp.evaluation_user_content question final_answer used_rag mode)
  in
  (forall e,
     UiApp.evaluate_answer float float_of_text minus_one generate_content
       question final_answer used_rag mode = Raised e ->
     is_Exception (exn_cls e) = false)
  /\ (forall e,
        generate_content Gemini.GEMINI_MODEL_NAME prompt = Raised e ->
        is_Exception (exn_cls e) = true ->
        ~ substring_of (txt "SCORE:") (str_exn e) ->
        UiApp.evaluate_answer float float_of_text minus_one generate_content
          question final_answer used_rag mode
        = Returned (txt "[GEMINI ERROR] " ++ str_exn e, minus_one)).
Proof.
  intros prompt. split.
  - intros e. unfold UiApp.evaluate_answer.
    destruct (Gemini.call_gemini generate_content _) as [t|e'|] eqn:Hcall;
      simpl; try discriminate.
    intros [= <-]. revert Hcall. unfold Gemini.call_gemini, try_except.
    destruct (Gemini.gemini_try generate_content _) as [a|e''|];
      try discriminate.
    destruct (is_Exception (exn_cls e'')) eqn:He; [discriminate|].
    by intros [= <-].
  - intros e Hfail He Hmsg. unfold UiApp.evaluate_answer.
    assert (Hcall : Gemini.call_gemini generate_content
              [UiApp.evaluation_system_prompt;
               UiApp.evaluation_user_content question final_answer used_rag
                 mode]
            = Returned (txt "[GEMINI ERROR] " ++ str_exn e)).
    { unfold Gemini.call_gemini, Gemini.gemini_try.
      cbn [mbind outcome_bind mret outcome_ret]. fold prompt.
      rewrite Hfail. cbn [mbind outcome_bind]. unfold try_except.
      by rewrite He. }
    rewrite Hcall. cbn [mbind outcome_bind mret outcome_ret]. do 2 f_equal.
    unfold UiApp.extract_score.
    destruct (UiApp.search_score _) as [num|] eqn:Hs; [|done].
    apply search_score_sound in Hs as (pre & rest & Heq & Hm & _).
    apply match_score_here_sound in Hm as (ws & post & -> & _).
    destruct Hmsg.
    change (txt "SCORE:" ++ ws ++ num ++ post)
      with ("S"%char :: txt "CORE:" ++ ws ++ num ++ post) in Heq.
    apply occurrence_after_prefix in Heq as [pre' Hpre'].
    + exists pre', (ws ++ num ++ post). by rewrite Hpre'.
    + repeat constructor; discriminate.
Qed.

Lemma evaluate_answer_on_failure_witness :
  UiApp.evaluate_answer Z (fun _ => 0) (-1)
    (fun _ _ => raise Timeout (txt "deadline exceeded"))
    (txt "Why?") (txt "Because.") true (txt "research")
  = Returned (txt "[GEMINI ERROR] deadline exceeded", -1).
Proof.
  apply (proj2 (evaluate_answer_on_failure Z (fun _ => 0) (-1)
                  (fun _ _ => raise Timeout (txt "deadline exceeded"))
                  (txt "Why?") (txt "Because.") true (txt "research"))
           (Exn Timeout (txt "deadline exceeded"))).
  - reflexivity.
  - reflexivity.
  - intros H. apply is_substring_spec in H. vm_compute in H. discriminate.
Defined.

(** ** autoresearcher/rag_engine.py *)

Lemma slice_block {A} (l : list A) (j : nat) (size : Z) :
  0 < size ->
  py_slice l (Z.of_nat j * size) (Z.of_nat j * size + size)
  = take (Z.to_nat size) (drop (j * Z.to_nat size) l).
Proof.
  intros Hsize. unfold py_slice, clamp_index.
  set (n := Z.of_nat (length l)). set (a := Z.of_nat j * size).
  assert (Ha : 0 <= a) by (unfold a; nia).
  assert (Hja : (j * Z.to_nat size)%nat = Z.to_nat a) by (unfold a; nia).
  destruct (Z.ltb_spec a 0); [lia|].
  destruct (Z.ltb_spec (a + size) 0); [lia|].
  rewrite Hja.
  destruct (Z.le_gt_cases a n) as [Hle | Hgt].
  - rewrite (Z.min_l a n) by lia.
    destruct (Z.le_gt_cases (a + size) n) as [Hle' | Hgt'].
    + rewrite Z.min_l by lia. f_equal. lia.
    + rewrite Z.min_r by lia.
      rewrite !take_ge; [done|rewrite length_drop; lia..].
  - rewrite !Z.min_r by lia. rewrite !drop_ge by lia. by rewrite !take_nil.
Qed.

Lemma concat_blocks {A} (l : list A) (k c : nat) :
  concat (map (fun j => take k (drop (j * k) l)) (seq 0 c)) = take (c * k) l.
Proof.
  induction c as [|c IH]; [done|].
  rewrite seq_S, map_app, concat_app, IH. simpl. rewrite app_nil_r.
  rewrite take_take_drop. f_equal. lia.
Qed.

Lemma words_sublist words pre mid post :
  Forall word words -> words = pre ++ mid ++ post -> Forall word mid.
Proof.
  intros Hw ->. apply Forall_app in Hw as [_ Hw].
  by apply Forall_app in Hw as [Hw _].
Qed.

(** The chunks that [chunk] makes of the words of one text. *)
Lemma chunk2_blocks (words : list text) (size : Z) :
  0 < size -> Forall word words ->
  exists starts,
    py_range 0 (Z.of_nat (length words)) size = Returned starts
    /\ let blocks :=
         map (fun i => join (txt " ") (py_slice words i (i + size))) starts in
       concat (map split blocks) = words
       /\ Forall (fun c => 1 <= Z.of_nat (length (split c)) <= size) blocks.
Proof.
  intros Hsize Hwords. unfold py_range.
  destruct (Z.eqb_spec size 0) as [?|Hs0]; [lia|].
  destruct (Z.ltb_spec 0 size) as [Hs1|?]; [|lia].
  set (n := Z.of_nat (length words)).
  set (count := Z.to_nat ((n - 0 + size - 1) / size)).
  set (k := Z.to_nat size).
  eexists. split; [reflexivity|]. cbv zeta.
  assert (Hq : 0 <= (n - 0 + size - 1) / size)
    by (apply Z.div_pos; lia).
  pose proof (Z.div_mod (n - 0 + size - 1) size ltac:(lia)) as Hdm.
  pose proof (Z.mod_pos_bound (n - 0 + size - 1) size ltac:(lia)) as Hmod.
  assert (Hblock : forall j, (j < count)%nat ->
            split (join (txt " ")
                     (py_slice words (0 + Z.of_nat j * size)
                        (0 + Z.of_nat j * size + size)))
            = take k (drop (j * k) words)
            /\ (1 <= length (take k (drop (j * k) words)) <= k)%nat).
  { intros j Hj. rewrite !Z.add_0_l, slice_block by done. fold k. split.
    - apply split_join_words.
      apply (words_sublist words (take (j * k) words)
               (take k (drop (j * k) words))
               (drop k (drop (j * k) words)) Hwords).
      by rewrite !take_drop.
    - rewrite length_take, length_drop.
      assert (Z.of_nat j * size < n) by (unfold count in Hj; nia).
      unfold k, n in *. nia. }
  split.
  - rewrite map_map, map_map.
    rewrite (map_ext_in _ (fun j => take k (drop (j * k) words))).
    + rewrite concat_blocks. apply take_ge. unfold count, k, n in *. nia.
    + intros j Hj%in_seq. apply Hblock. lia.
  - rewrite map_map. apply Forall_fmap, Forall_forall.
    intros j Hj%elem_of_seq. unfold compose. cbv beta.
    destruct (Hblock j ltac:(lia)) as [-> Hlen].
    assert (Hk : Z.of_nat k = size) by (unfold k; lia). lia.
Qed.

Lemma chunk2_loop (size : Z) (texts : list text) :
  0 < size ->
  forall acc,
  exists new,
    for_each texts
      (fun text chunks =>
         let words := split text in
         starts ← py_range 0 (Z.of_nat (length words)) size;
         mret (chunks ++
               map (fun i => join (txt " ") (py_slice words i (i + size)))
                   starts))
      acc = Returned (acc ++ new)
    /\ concat (map split new) = concat (map split texts)
    /\ Forall (fun c => 1 <= Z.of_nat (length (split c)) <= size) new.
Proof.
  intros Hsize. set (body := fun (text_ : text) (chunks : list text) => _).
  induction texts as [|t texts IH]; intros acc.
  - exists []. cbn [for_each]. rewrite app_nil_r. by split_and!.
  - cbn [for_each].
    destruct (chunk2_blocks (split t) size Hsize (split_words t))
      as (starts & Hrange & Hcat & Hall).
    assert (Hb : body t acc
              = Returned (acc ++ map (fun i => join (txt " ")
                                        (py_slice (split t) i (i + size)))
                                   starts)).
    { unfold body. cbv zeta. by rewrite Hrange. }
    rewrite Hb. cbn [mbind outcome_bind].
    destruct (IH (acc ++ map (fun i => join (txt " ")
                                 (py_slice (split t) i (i + size))) starts))
      as (new & -> & Hcat' & Hall').
    eexists (_ ++ new). split_and!.
    + by rewrite <- app_assoc.
    + rewrite map_app, concat_app, Hcat, Hcat'. done.
    + by apply Forall_app.
Qed.

Lemma chunk2_words (texts : list text) (size : Z) :
  0 < size ->
  exists chunks,
    RagEngine2.chunk texts size = Returned chunks
    /\ concat (map split chunks) = concat (map split texts)
    /\ Forall (fun c => 1 <= Z.of_nat (length (split c)) <= size) chunks.
Proof.
  intros Hsize. destruct (chunk2_loop size texts Hsize []) as (new & H).
  exists new. exact H.
Qed.

(** X21. [chunk] with a positive [size] always returns and loses no word:
    the words of the chunks, in order, are the words of the texts, in
    order, and every chunk has between 1 and [size] words. With a negative
    [size] it returns no chunk at all, and with [size = 0] it raises
    [ValueError] as soon as there is a text. *)
Theorem chunk2_partitions_the_words (texts : list text) (size : Z) :
  (0 < size ->
   exists chunks,
     RagEngine2.chunk texts size = Returned chunks
     /\ concat (map split chunks) = concat (map split texts)
     /\ Forall (fun c => 1 <= Z.of_nat (length (split c)) <= size) chunks)
  /\ (size < 0 -> RagEngine2.chunk texts size = Returned [])
  /\ (size = 0 -> texts <> [] ->
      RagEngine2.chunk texts size
      = raise ValueError (txt "range() arg 3 must not be zero")).
Proof.
  split_and!.
  - apply chunk2_words.
  - intros Hsize. unfold RagEngine2.chunk.
    induction texts as [|t texts IH]; [done|]. cbn [for_each].
    destruct (py_range 0 (Z.of_nat (length (split t))) size)
      as [starts| |] eqn:Hr.
    + apply py_range_negative in Hr as ->; [|lia..]. simpl. exact IH.
    + unfold py_range in Hr. destruct (Z.eqb_spec size 0); [lia|done].
    + unfold py_range in Hr. destruct (Z.eqb_spec size 0); [lia|done].
  - intros -> Hne. destruct texts as [|t texts]; [done|]. reflexivity.
Qed.

Lemma chunk2_partitions_the_words_witness :
  (exists chunks,
     RagEngine2.chunk [txt " a b  c "; txt "d e"] 2 = Returned chunks
     /\ concat (map split chunks) = [txt "a"; txt "b"; txt "c"; txt "d"; txt "e"]
     /\ Forall (fun c => 1 <= Z.of_nat (length (split c)) <= 2) chunks)
  /\ RagEngine2.chunk [txt "a b c"] (-1) = Returned []
  /\ RagEngine2.chunk [txt "a b c"] 0
     = raise ValueError (txt "range() arg 3 must not be zero").
Proof.
  split_and!.
  - apply (proj1 (chunk2_partitions_the_words
                    [txt " a b  c "; txt "d e"] 2)). lia.
  - apply (proj1 (proj2 (chunk2_partitions_the_words [txt "a b c"] (-1)))).
    lia.
  - apply (proj2 (proj2 (chunk2_partitions_the_words [txt "a b c"] 0))).
    + reflexivity.
    + discriminate.
Defined.

(** *** The index of the second engine *)

Lemma rag2_build_unfold os encode name folder self :
  RagEngine2Index.build_index os encode name folder self =
  match RagEngine2Index.load_pdfs os folder with
  | Returned pages =>
      match RagEngine2.chunk pages RagEngine2.DEFAULT_SIZE with
      | Returned chunks =>
          match shape1 (RagEngine2Index.embed encode chunks) with
          | Returned dim =>
              (RagEngine2Index.Engine
                 (<[name := (Faiss.add (Faiss.new dim)
                               (RagEngine2Index.embed encode chunks), chunks)]>
                    (RagEngine2Index.stores self)),
               Returned (Z.of_nat (length chunks)))
          | Raised e => (self, Raised e)
          | OutOfFuel => (self, OutOfFuel)
          end
      | Raised e => (self, Raised e)
      | OutOfFuel => (self, OutOfFuel)
      end
  | Raised e => (self, Raised e)
  | OutOfFuel => (self, OutOfFuel)
  end.
Proof.
  unfold RagEngine2Index.build_index, pure_step, assign, mbind, action_bind,
    mret, action_ret.
  destruct (RagEngine2Index.load_pdfs os folder) as [pages| |]; [|done..].
  destruct (RagEngine2.chunk pages RagEngine2.DEFAULT_SIZE) as [chunks| |];
    [|done..].
  by destruct (shape1 (RagEngine2Index.embed encode chunks)).
Qed.

(** X22. After a [build_index] of the second engine that returned, the
    count is the number of chunks stored under the name, at least one, and
    [retrieve] on that name with [k >= 1] joins exactly [k] chunks by
    newlines: the [min(k, count)] chunks nearest to the query, from
    distinct positions and nearest first, so that no chunk left out is
    nearer than one of them, and then [k - count] copies of the last chunk,
    for the labels [-1] with which the index fills up its answer. *)
Theorem rag2_build_then_retrieve
    (os : os_env) (encode : sentence -> Faiss.vec) (name folder : text)
    (self self' : RagEngine2Index.t) (count : Z) (query : text) (k : Z) :
  RagEngine2Index.build_index os encode name folder self
    = (self', Returned count) ->
  1 <= k ->
  let dist c := Faiss.l2sq (encode (SStr query)) (encode (SStr c)) in
  exists index chunks (positions : list nat) nearest last_chunk,
    RagEngine2Index.stores self'
      = <[name := (index, chunks)]> (RagEngine2Index.stores self)
    /\ count = Z.of_nat (length chunks)
    /\ 1 <= count
    /\ Faiss.xb index = map (fun c => encode (SStr c)) chunks
    /\ last chunks = Some last_chunk
    /\ RagEngine2Index.retrieve encode name query k self'
       = (self',
          Returned
            (join (txt "
") (nearest ++ replicate (Z.to_nat k - length chunks) last_chunk)))
    /\ length nearest = Nat.min (Z.to_nat k) (length chunks)
    /\ NoDup positions
    /\ Forall2 (fun p c => chunks !! p = Some c) positions nearest
    /\ Sorted Z.le (map dist nearest)
    /\ forall j c' c,
         chunks !! j = Some c' -> j ∉ positions -> c ∈ nearest ->
         dist c <= dist c'.
Proof.
  rewrite rag2_build_unfold. intros Hbuild Hk dist.
  destruct (RagEngine2Index.load_pdfs os folder) as [pages| |];
    try discriminate.
  destruct (RagEngine2.chunk pages RagEngine2.DEFAULT_SIZE) as [chunks| |];
    try discriminate.
  destruct chunks as [|c0 chunks0] eqn:Hchunks; [discriminate|].
  rewrite <- Hchunks in *.
  assert (Hshape : shape1 (RagEngine2Index.embed encode chunks)
                   = Returned (Z.of_nat (length (encode (SStr c0)))))
    by (by rewrite Hchunks).
  rewrite Hshape in Hbuild. injection Hbuild as <- <-.
  set (index := Faiss.add _ _).
  destruct (last chunks) as [lastc|] eqn:Hlast;
    [|apply last_None in Hlast; congruence].
  destruct (padded_search (fun c => encode (SStr c)) chunks index
              (encode (SStr query)) k lastc)
    as (distances & labels & positions & nearest & Hsearch & Hpick & Hlen
        & Hnd & Hpos & Hsorted & Hnear); [done..|].
  exists index, chunks, positions, nearest, lastc. split_and!; try done.
  - rewrite Hchunks. simpl. lia.
  - unfold RagEngine2Index.retrieve, reading. f_equal.
    cbn [RagEngine2Index.stores]. rewrite lookup_insert_eq.
    rewrite Hsearch. cbn [mbind outcome_bind]. rewrite Hpick. reflexivity.
Qed.

Lemma rag2_build_then_retrieve_witness :
  let os := two_pdf_os [txt "b.pdf"; txt "a.pdf"] in
  let self' := (RagEngine2Index.build_index os demo_encode (txt "pets")
                  (txt "/docs") RagEngine2Index.init).1 in
  exists (positions : list nat) nearest last_chunk,
    RagEngine2Index.retrieve demo_encode (txt "pets") (txt "q")
      RagEngine2Index.DEFAULT_K self'
    = (self', Returned (join (txt "
") (nearest ++ replicate 2 last_chunk)))
    /\ length nearest = 2%nat
    /\ NoDup positions
    /\ length positions = 2%nat.
Proof.
  intros os self'.
  destruct (rag2_build_then_retrieve os demo_encode (txt "pets") (txt "/docs")
              RagEngine2Index.init self' 2 (txt "q") RagEngine2Index.DEFAULT_K)
    as (index & chunks & positions & nearest & lastc & Hst & Hcount & _ & _
        & _ & Hr & Hlen & Hnd & Hpos & _).
  - vm_compute. reflexivity.
  - unfold RagEngine2Index.DEFAULT_K. lia.
  - assert (Hn : length chunks = 2%nat) by lia.
    rewrite Hn in Hr, Hlen. exists positions, nearest, lastc.
    split_and!; [exact Hr|exact Hlen|exact Hnd|].
    by rewrite (Forall2_length _ _ _ Hpos).
Defined.




(** ** rag_engine.py: failures of a build, and the prompt of an answer *)

Lemma for_each_raised {A S} (body : A -> S -> outcome S) xs s e :
  for_each xs body s = Raised e ->
  exists x s0, x ∈ xs /\ body x s0 = Raised e.
Proof.
  revert s. induction xs as [|x xs IH]; intros s; simpl; [discriminate|].
  destruct (body x s) as [s'|e'|] eqn:Hb; simpl.
  - intros (y & s0 & Hy & Hs0)%IH. exists y, s0. split; [by right|done].
  - intros [= <-]. exists x, s. split; [by left|done].
  - discriminate.
Qed.

(** X24. The exceptions of [RAGEngine.build_index], in the order of its
    checks: "Folder does not exist", the error of [os.listdir], "No PDFs
    found in folder", an error of [load_pdf_text] on one of the listed
    PDFs, or "No text chunks extracted from PDFs.". The chunker and the
    construction of the index add none. *)
Theorem rag_build_index_failures
    (os : os_env) (encode : sentence -> Faiss.vec) (fuel : nat)
    (name folder : text) (self self' : RagEngine.t) (e : exn) :
  RagEngine.build_index os encode fuel name folder self = (self', Raised e) ->
  (isdir os folder = false
   /\ e = Exn ValueError (txt "Folder does not exist: " ++ folder))
  \/ (isdir os folder = true /\ listdir os folder = Raised e)
  \/ exists pdfs,
       isdir os folder = true
       /\ RagEngine.list_pdfs os folder = Returned pdfs
       /\ ((pdfs = []
            /\ e = Exn ValueError (txt "No PDFs found in folder: " ++ folder))
           \/ (exists path,
                 path ∈ pdfs /\ RagEngine.load_pdf_text os path = Raised e)
           \/ (pdfs <> [] /\ e = no_chunks_error)).
Proof.
  rewrite rag_build_unfold. cbv zeta.
  destruct (isdir os folder) eqn:Hdir; [|intros [= _ <-]; by left].
  destruct (RagEngine.list_pdfs os folder) as [pdfs|e'|] eqn:Hlist;
    [| |discriminate].
  - intros Hbuild. right. right. exists pdfs. split; [done|]. split; [done|].
    destruct pdfs as [|p pdfs']; [injection Hbuild as _ <-; by left|].
    right. revert Hbuild. cbn [truthy].
    destruct (for_each _ _ _) as [all_chunks|e'|] eqn:Hloop; [| |discriminate].
    + destruct all_chunks as [|c all_chunks]; cbn [truthy].
      * intros [= _ <-]. by right.
      * cbn [map shape1]. discriminate.
    + intros [= _ <-]. left.
      apply for_each_raised in Hloop as (path & acc & Hpath & Hbody).
      exists path. split; [done|].
      destruct (RagEngine.load_pdf_text os path) as [t|e1|] eqn:Hload;
        cbn [mbind outcome_bind] in Hbody; [|congruence|discriminate].
      destruct (WordChunker.simple_chunk fuel t _ _) as [cs|e2|] eqn:Hc;
        cbn [mbind outcome_bind mret outcome_ret] in Hbody;
        [discriminate| |discriminate].
      by apply word_chunker_not_raised in Hc.
  - intros [= _ <-]. right. left. split; [done|].
    unfold RagEngine.list_pdfs in Hlist.
    destruct (listdir os folder) as [names| |];
      cbn [mbind outcome_bind] in Hlist; [discriminate|done|discriminate].
Qed.

Lemma rag_build_index_failures_witness :
  (isdir blank_os (txt "/docs") = false
   /\ no_chunks_error
      = Exn ValueError (txt "Folder does not exist: " ++ txt "/docs"))
  \/ (isdir blank_os (txt "/docs") = true
      /\ listdir blank_os (txt "/docs") = Raised no_chunks_error)
  \/ exists pdfs,
       isdir blank_os (txt "/docs") = true
       /\ RagEngine.list_pdfs blank_os (txt "/docs") = Returned pdfs
       /\ ((pdfs = []
            /\ no_chunks_error
               = Exn ValueError
                   (txt "No PDFs found in folder: " ++ txt "/docs"))
           \/ (exists path,
                 path ∈ pdfs
                 /\ RagEngine.load_pdf_text blank_os path
                    = Raised no_chunks_error)
           \/ (pdfs <> [] /\ no_chunks_error = no_chunks_error)).
Proof.
  apply (rag_build_index_failures blank_os demo_encode 10 (txt "pets")
           (txt "/docs") RagEngine.init RagEngine.init).
  vm_compute. reflexivity.
Defined.

(** X25. The prompt of [RAGEngine.answer]: on a registered name and
    [top_k >= 1], [answer] is one call of the local model with the prompt
    made of the question and the context of [query], and that prompt
    contains the question and every selected chunk, each of which is a
    chunk of the collection. The engine is not changed. *)
Theorem answer_prompt_holds_the_context
    (encode : sentence -> Faiss.vec)
    (requests_post : LlmClient.request -> outcome LlmClient.response)
    (name question : text) (top_k : Z) (self : RagEngine.t)
    (data : RagEngine.collection) :
  RagEngine.indexes self !! name = Some data ->
  1 <= top_k ->
  exists selected,
    let prompt :=
      RagEngine.make_prompt question (join RagEngine.SEPARATOR selected) in
    RagEngine.query encode name question top_k self
      = (self, Returned (join RagEngine.SEPARATOR selected, selected))
    /\ RagEngine.answer encode requests_post name question top_k self
       = (self, LlmClient.call_ollama requests_post prompt
                  LlmClient.OLLAMA_MODEL_NAME)
    /\ substring_of question prompt
    /\ Forall (fun c => substring_of c prompt) selected
    /\ Forall (fun c => c ∈ RagEngine.chunks data) selected.
Proof.
  intros Hdata Hk.
  assert (Hq : exists selected,
            RagEngine.query encode name question top_k self
              = (self, Returned (join RagEngine.SEPARATOR selected, selected))
            /\ Forall (fun c => c ∈ RagEngine.chunks data) selected).
  { rewrite query_unfold, Hdata. unfold Faiss.search.
    destruct (Z.leb_spec top_k 0); [lia|].
    cbn [mbind outcome_bind mret outcome_ret]. eexists. split; [reflexivity|].
    apply Forall_forall. intros c (i & _ & Hf)%list_elem_of_omap.
    cbv beta in Hf. destruct (_ && _) in Hf; [|discriminate].
    by eapply list_elem_of_lookup_2. }
  destruct Hq as (selected & Hq & Hin). exists selected. cbv zeta.
  split_and!; try done.
  - rewrite answer_unfold, Hq. reflexivity.
  - unfold RagEngine.make_prompt.
    apply substring_app_r, substring_app_l, substring_refl.
  - apply Forall_forall. intros c Hc. unfold RagEngine.make_prompt.
    do 3 apply substring_app_r. apply substring_app_l.
    by apply join_elem_substring.
Qed.

Lemma answer_prompt_holds_the_context_witness :
  exists selected,
    RagEngine.query demo_encode (txt "pets") (txt "What are cats?") 5
      pets_engine
    = (pets_engine, Returned (join RagEngine.SEPARATOR selected, selected))
    /\ Forall (fun c => c ∈ pets_chunks) selected.
Proof.
  destruct (answer_prompt_holds_the_context demo_encode timeout_backend
              (txt "pets") (txt "What are cats?") 5 pets_engine
              (collection_of demo_encode pets_chunks))
    as (selected & Hq & _ & _ & _ & Hin).
  - vm_compute. reflexivity.
  - lia.
  - exists selected. split; [exact Hq|exact Hin].
Defined.
